(** * A browser chess engine: board model, move generator, hashing, table,
      search entry points and position codec, with their specification.

    The development embeds the JavaScript sources function by function.
    Squares, ranks and files are integers ([Z]) because the code computes
    with offsets that leave the board before testing [onBoard]; the board
    is the 64-cell array of the engine, a [list] of optional pieces read
    and written through [rd] and [wr]. *)

From Stdlib Require Import ZArith List Bool Ascii String Lia Permutation.
From Stdlib Require Import DecimalString DecimalZ DecimalPos.
From stdpp Require Import base list gmap.
Import ListNotations.

Local Open Scope Z_scope.

(** ** Data model (board.js, moves.js) *)

Inductive Color := W | B.
Inductive Kind := P | N | Bi | R | Q | K.

Record Piece := mkPiece { c : Color; t : Kind }.

Definition Color_eqb (a b : Color) : bool :=
  match a, b with W, W | B, B => true | _, _ => false end.

Definition Kind_eqb (a b : Kind) : bool :=
  match a, b with
  | P, P | N, N | Bi, Bi | R, R | Q, Q | K, K => true
  | _, _ => false
  end.

(** A cell of the array: [None] is JavaScript's [null]/[undefined] (the
    code only ever tests a cell for truthiness). *)
Abbreviation Cell := (option Piece).
Abbreviation Board := (list (option Piece)).

Record State := mkState {
  board : Board;
  turn : Color;
  castleRight : string;
  ep : option Z;
  halfmove : Z;
  fullmove : Z
}.

Definition opposite (col : Color) : Color :=
  match col with W => B | B => W end.

(** [state.board[i]]: reading outside the array yields [undefined]. *)
Definition rd (b : Board) (i : Z) : Cell :=
  if i <? 0 then None
  else match b !! Z.to_nat i with Some x => x | None => None end.

(** [state.board[i] = v].  Inside the array the cell is replaced.  Past
    the end, JavaScript grows the array, the new cells in between being
    holes.  A negative index names a property that is not an element of
    the array and that no square lookup ever reads; the cells are left
    as they are. *)
Definition wr (b : Board) (i : Z) (v : Cell) : Board :=
  if i <? 0 then b
  else if i <? Z.of_nat (length b) then <[Z.to_nat i := v]> b
  else b ++ repeat None (Z.to_nat i - length b)%nat ++ [v].

Definition set_board (s : State) (b : Board) : State :=
  mkState b (turn s) (castleRight s) (ep s) (halfmove s) (fullmove s).

(** board.js *)
Definition toIndex (r f : Z) : Z := r * 8 + f.
Definition rankOf (i : Z) : Z := i / 8.          (* Math.floor(i / 8) *)
Definition fileOf (i : Z) : Z := Z.rem i 8.      (* i % 8 *)

Definition backRank : list Kind := [R; N; Bi; Q; K; Bi; N; R].

Definition makeInitialBoard : Board :=
  map (fun k => Some (mkPiece B k)) backRank
  ++ repeat (Some (mkPiece B P)) 8
  ++ repeat None 32
  ++ repeat (Some (mkPiece W P)) 8
  ++ map (fun k => Some (mkPiece W k)) backRank.

(** The state main.js starts a game from. *)
Definition initialState : State :=
  mkState makeInitialBoard W "KQkq" None 0 1.

(** ** Pseudo-move generators (moves.js) *)

Definition onBoard (r f : Z) : bool :=
  (0 <=? r) && (r <? 8) && (0 <=? f) && (f <? 8).

Definition blocked (s : State) (myColor : Color) (i : Z) : bool :=
  match rd (board s) i with
  | Some q => Color_eqb (c q) myColor
  | None => false
  end.

Definition canLand (s : State) (myColor : Color) (i : Z) : bool :=
  match rd (board s) i with
  | None => true
  | Some _ => negb (blocked s myColor i)
  end.

Definition occupied (x : Cell) : bool :=
  match x with Some _ => true | None => false end.

Definition knightDeltas : list (Z * Z) :=
  [(-2, -1); (-2, 1); (-1, -2); (-1, 2); (1, -2); (1, 2); (2, -1); (2, 1)].

Definition diagDeltas : list (Z * Z) := [(1, 1); (1, -1); (-1, 1); (-1, -1)].
Definition orthoDeltas : list (Z * Z) := [(1, 0); (-1, 0); (0, 1); (0, -1)].
Definition queenDeltas : list (Z * Z) := orthoDeltas ++ diagDeltas.

Definition steps17 : list Z := [1; 2; 3; 4; 5; 6; 7].

(** One step moves of knight and king: [for (const [dr, df] of deltas)]. *)
Fixpoint stepMoves (s : State) (col : Color) (r f : Z) (deltas : list (Z * Z))
  : list Z :=
  match deltas with
  | [] => []
  | (dr, df) :: rest =>
      let rr := r + dr in
      let ff := f + df in
      if negb (onBoard rr ff) then stepMoves s col r f rest
      else
        let idx := toIndex rr ff in
        if canLand s col idx then idx :: stepMoves s col r f rest
        else stepMoves s col r f rest
  end.

(** The inner loop [for (let s = 1; s <= 7; s++)] of a sliding piece. *)
Fixpoint slide (s : State) (col : Color) (r f dr df : Z) (steps : list Z)
  : list Z :=
  match steps with
  | [] => []
  | k :: rest =>
      let rr := r + dr * k in
      let ff := f + df * k in
      if negb (onBoard rr ff) then []
      else
        let idx := toIndex rr ff in
        if blocked s col idx then []
        else idx :: (if occupied (rd (board s) idx) then []
                     else slide s col r f dr df rest)
  end.

Definition slideMoves (s : State) (col : Color) (r f : Z)
  (deltas : list (Z * Z)) : list Z :=
  flat_map (fun d => slide s col r f (fst d) (snd d) steps17) deltas.

Definition knightMoves (s : State) (i : Z) : list Z :=
  match rd (board s) i with
  | Some p =>
      if Kind_eqb (t p) N
      then stepMoves s (c p) (rankOf i) (fileOf i) knightDeltas
      else []
  | None => []
  end.

Definition bishopMoves (s : State) (i : Z) : list Z :=
  match rd (board s) i with
  | Some p =>
      if Kind_eqb (t p) Bi
      then slideMoves s (c p) (rankOf i) (fileOf i) diagDeltas
      else []
  | None => []
  end.

Definition rookMoves (s : State) (i : Z) : list Z :=
  match rd (board s) i with
  | Some p =>
      if Kind_eqb (t p) R
      then slideMoves s (c p) (rankOf i) (fileOf i) orthoDeltas
      else []
  | None => []
  end.

Definition queenMoves (s : State) (i : Z) : list Z :=
  match rd (board s) i with
  | Some p =>
      if Kind_eqb (t p) Q
      then slideMoves s (c p) (rankOf i) (fileOf i) queenDeltas
      else []
  | None => []
  end.

(** ** Attack queries *)

Definition isPiece (x : Cell) (col : Color) (k : Kind) : bool :=
  match x with
  | Some q => Color_eqb (c q) col && Kind_eqb (t q) k
  | None => false
  end.

Definition squares : list Z := map Z.of_nat (seq 0 64).

(** [findKing]: the first square, in index order, holding [col]'s king;
    -1 when there is none. *)
Fixpoint findKingIn (b : Board) (col : Color) (idxs : list Z) : Z :=
  match idxs with
  | [] => -1
  | i :: rest => if isPiece (rd b i) col K then i else findKingIn b col rest
  end.

Definition findKing (s : State) (col : Color) : Z :=
  findKingIn (board s) col squares.

(** Does one of the squares [(r + dr, f + df)] hold a [col] piece of kind
    [k]?  (The pawn, knight and king parts of [isSquareAttacked].) *)
Definition stepAttack (b : Board) (col : Color) (k : Kind) (r f : Z)
  (deltas : list (Z * Z)) : bool :=
  existsb (fun d =>
    let rr := r + fst d in
    let ff := f + snd d in
    onBoard rr ff && isPiece (rd b (toIndex rr ff)) col k) deltas.

(** One ray of [isSquareAttacked]: the first piece met decides. *)
Fixpoint rayAttack (b : Board) (col : Color) (slider : Kind) (r f dr df : Z)
  (steps : list Z) : bool :=
  match steps with
  | [] => false
  | k :: rest =>
      let rr := r + dr * k in
      let ff := f + df * k in
      if negb (onBoard rr ff) then false
      else match rd b (toIndex rr ff) with
           | None => rayAttack b col slider r f dr df rest
           | Some q =>
               if negb (Color_eqb (c q) col) then false
               else Kind_eqb (t q) slider || Kind_eqb (t q) Q
           end
  end.

Definition pawnDir (col : Color) : Z := match col with W => 1 | B => -1 end.

(** [isSquareAttacked(state, i, color)]: is square [i] attacked by [col]? *)
Definition isSquareAttacked (s : State) (i : Z) (col : Color) : bool :=
  let r := rankOf i in
  let f := fileOf i in
  let b := board s in
  stepAttack b col P r f [(pawnDir col, -1); (pawnDir col, 1)]
  || stepAttack b col N r f knightDeltas
  || existsb (fun d => rayAttack b col Bi r f (fst d) (snd d) steps17) diagDeltas
  || existsb (fun d => rayAttack b col R r f (fst d) (snd d) steps17) orthoDeltas
  || stepAttack b col K r f (diagDeltas ++ orthoDeltas).

Definition inCheck (s : State) (col : Color) : bool :=
  let k := findKing s col in
  if k =? -1 then false else isSquareAttacked s k (opposite col).

(** [rights.includes(sym)] for a one-character [sym]. *)
Fixpoint includes (str : string) (ch : ascii) : bool :=
  match str with
  | EmptyString => false
  | String x rest => Ascii.eqb x ch || includes rest ch
  end.

Definition isEmptyAt (s : State) (i : Z) : bool := negb (occupied (rd (board s) i)).

Definition kingMoves (s : State) (i : Z) : list Z :=
  match rd (board s) i with
  | None => []
  | Some p =>
      if negb (Kind_eqb (t p) K) then []
      else
        let r := rankOf i in
        let f := fileOf i in
        let moves := stepMoves s (c p) r f queenDeltas in
        let enemy := opposite (c p) in
        let rights := castleRight s in
        let kingStart :=
          match c p with
          | W => (r =? 7) && (f =? 4)
          | B => (r =? 0) && (f =? 4)
          end in
        if negb kingStart then moves
        else
          let e := toIndex r 4 in
          let safe := fun sq => negb (isSquareAttacked s sq enemy) in
          let side := fun (rk : Z) (ks qs : ascii) (me : Color) =>
            (if includes rights ks
                && isEmptyAt s (toIndex rk 5) && isEmptyAt s (toIndex rk 6)
                && safe e && safe (toIndex rk 5) && safe (toIndex rk 6)
                && isPiece (rd (board s) (toIndex rk 7)) me R
             then [toIndex rk 6] else [])
            ++
            (if includes rights qs
                && isEmptyAt s (toIndex rk 3) && isEmptyAt s (toIndex rk 2)
                && isEmptyAt s (toIndex rk 1)
                && safe e && safe (toIndex rk 3) && safe (toIndex rk 2)
                && isPiece (rd (board s) (toIndex rk 0)) me R
             then [toIndex rk 2] else [])
          in
          match c p with
          | W => moves ++ side 7 "K"%char "Q"%char W
          | B => moves ++ side 0 "k"%char "q"%char B
          end
  end.

Definition moveDir (col : Color) : Z := match col with W => -1 | B => 1 end.

Definition pawnMoves (s : State) (i : Z) : list Z :=
  match rd (board s) i with
  | None => []
  | Some p =>
      if negb (Kind_eqb (t p) P) then []
      else
        let r := rankOf i in
        let f := fileOf i in
        let dir := moveDir (c p) in
        let startRank := match c p with W => 6 | B => 1 end in
        let r1 := r + dir in
        let pushes :=
          if onBoard r1 f then
            if isEmptyAt s (toIndex r1 f) then
              toIndex r1 f ::
                (if r =? startRank then
                   if isEmptyAt s (toIndex (r + 2 * dir) f)
                   then [toIndex (r + 2 * dir) f] else []
                 else [])
            else []
          else [] in
        let capture := fun df =>
          let rr := r + dir in
          let ff := f + df in
          if onBoard rr ff then
            match rd (board s) (toIndex rr ff) with
            | Some q => if negb (Color_eqb (c q) (c p)) then [toIndex rr ff] else []
            | None => []
            end
          else [] in
        let enPassant :=
          match ep s with
          | None => []
          | Some e =>
              let er := rankOf e in
              let ef := fileOf e in
              if (er =? r + dir) && (Z.abs (ef - f) =? 1) then
                match rd (board s) (toIndex r ef) with
                | Some adj =>
                    if Kind_eqb (t adj) P && negb (Color_eqb (c adj) (c p))
                    then [e] else []
                | None => []
                end
              else []
          end in
        pushes ++ capture (-1) ++ capture 1 ++ enPassant
  end.

Definition generateMoves (s : State) (i : Z) : list Z :=
  match rd (board s) i with
  | None => []
  | Some p =>
      match t p with
      | N => knightMoves s i
      | Bi => bishopMoves s i
      | R => rookMoves s i
      | Q => queenMoves s i
      | K => kingMoves s i
      | P => pawnMoves s i
      end
  end.

(** ** Checkers and pins *)

(** The pawn, knight and king parts of [attackersToSquare]: each attacker
    found is pushed with a [null] between-set. *)
Fixpoint stepAttackers (b : Board) (col : Color) (k : Kind) (r f : Z)
  (deltas : list (Z * Z)) : list (Z * option (list Z)) :=
  match deltas with
  | [] => []
  | (dr, df) :: rest =>
      let rr := r + dr in
      let ff := f + df in
      if negb (onBoard rr ff) then stepAttackers b col k r f rest
      else
        let idx := toIndex rr ff in
        if isPiece (rd b idx) col k
        then (idx, None) :: stepAttackers b col k r f rest
        else stepAttackers b col k r f rest
  end.

(** One ray of [attackersToSquare]; [between] collects the empty squares
    walked over. *)
Fixpoint rayAttacker (b : Board) (col : Color) (slider : Kind)
  (r f dr df : Z) (steps : list Z) (between : list Z)
  : list (Z * option (list Z)) :=
  match steps with
  | [] => []
  | k :: rest =>
      let rr := r + dr * k in
      let ff := f + df * k in
      if negb (onBoard rr ff) then []
      else
        let idx := toIndex rr ff in
        match rd b idx with
        | None => rayAttacker b col slider r f dr df rest (between ++ [idx])
        | Some q =>
            if negb (Color_eqb (c q) col) then []
            else if Kind_eqb (t q) slider || Kind_eqb (t q) Q
                 then [(idx, Some between)]
                 else []
        end
  end.

Definition rayDirs : list (Z * Z * Kind) :=
  [(1, 0, R); (-1, 0, R); (0, 1, R); (0, -1, R);
   (1, 1, Bi); (1, -1, Bi); (-1, 1, Bi); (-1, -1, Bi)].

(** [attackersToSquare(state, sq, color)]: the two parallel arrays
    [attackers] and [betweenSets], kept here as one list of pairs. *)
Definition attackersToSquare (s : State) (sq : Z) (col : Color)
  : list (Z * option (list Z)) :=
  let r := rankOf sq in
  let f := fileOf sq in
  let b := board s in
  stepAttackers b col P r f [(pawnDir col, -1); (pawnDir col, 1)]
  ++ stepAttackers b col N r f knightDeltas
  ++ flat_map (fun d => match d with
                        | (dr, df, kind) =>
                            rayAttacker b col kind r f dr df steps17 []
                        end) rayDirs
  ++ stepAttackers b col K r f queenDeltas.

(** One ray of [computePins]; [allySq] is -1 until a friendly piece is
    met.  The result is the pinned square, if the ray pins one. *)
Fixpoint pinOnRay (b : Board) (col : Color) (slider : Kind)
  (kr kf dr df : Z) (steps : list Z) (allySq : Z) : option Z :=
  match steps with
  | [] => None
  | k :: rest =>
      let rr := kr + dr * k in
      let ff := kf + df * k in
      if negb (onBoard rr ff) then None
      else
        let idx := toIndex rr ff in
        match rd b idx with
        | None => pinOnRay b col slider kr kf dr df rest allySq
        | Some q =>
            if Color_eqb (c q) col then
              if allySq =? -1
              then pinOnRay b col slider kr kf dr df rest idx
              else None
            else
              if negb (allySq =? -1)
                 && (Kind_eqb (t q) slider || Kind_eqb (t q) Q)
              then Some allySq
              else None
        end
  end.

(** [computePins]: a map from a pinned square to the unit direction of
    the ray that pins it. *)
Definition computePins (s : State) (col : Color) (kingSq : Z)
  : gmap Z (Z * Z) :=
  let kr := rankOf kingSq in
  let kf := fileOf kingSq in
  fold_left (fun (pins : gmap Z (Z * Z)) d =>
    match d with
    | (dr, df, kind) =>
        match pinOnRay (board s) col kind kr kf dr df steps17 (-1) with
        | Some ally => <[ally := (Z.sgn dr, Z.sgn df)]> pins
        | None => pins
        end
    end) rayDirs ∅.

Definition alongRay (from to dr df : Z) : bool :=
  let dR := rankOf to - rankOf from in
  let dF := fileOf to - fileOf from in
  if (dr =? 0) && (df =? 0) then false
  else if dr =? 0 then
    if negb (dR =? 0) then false
    else (Z.sgn dF =? df) || (Z.sgn dF =? - df)
  else if df =? 0 then
    if negb (dF =? 0) then false
    else (Z.sgn dR =? dr) || (Z.sgn dR =? - dr)
  else
    if negb (Z.abs dR =? Z.abs dF) then false
    else ((Z.sgn dR =? dr) && (Z.sgn dF =? df))
         || ((Z.sgn dR =? - dr) && (Z.sgn dF =? - df)).

(** ** The do/undo legality check *)

(** The en-passant test of [leavesKingInCheck]. *)
Definition isEPmove (s : State) (mover : Piece) (from to : Z) : bool :=
  Kind_eqb (t mover) P
  && (match ep s with Some e => to =? e | None => false end)
  && negb (fileOf from =? fileOf to)
  && negb (occupied (rd (board s) to)).

(** [leavesKingInCheck(state, from, to, knownKingSq)].  The function
    mutates [state.board] and undoes the mutation; the result is the
    answer together with the state the caller is left with. *)
Definition leavesKingInCheck (s : State) (from to : Z) (knownKingSq : option Z)
  : bool * State :=
  match rd (board s) from with
  | None => (false, s)
  | Some mover =>
      let dir := moveDir (c mover) in
      let savedFrom := Some mover in
      let savedTo := rd (board s) to in
      let isEP := isEPmove s mover from to in
      let epCapIdx := if isEP then toIndex (rankOf to - dir) (fileOf to) else -1 in
      let epCapSaved := if isEP then rd (board s) epCapIdx else None in
      (* do move *)
      let b1 := if negb (epCapIdx =? -1) then wr (board s) epCapIdx None
                else board s in
      let b2 := wr b1 to savedFrom in
      let b3 := wr b2 from None in
      let s3 := set_board s b3 in
      let color := c mover in
      let enemy := opposite color in
      let kingSq :=
        if Kind_eqb (t mover) K then to
        else match knownKingSq with
             | Some k => k
             | None => findKing s3 color
             end in
      let illegal := isSquareAttacked s3 kingSq enemy in
      (* undo move *)
      let b4 := wr b3 from savedFrom in
      let b5 := wr b4 to savedTo in
      let b6 := if negb (epCapIdx =? -1) then wr b5 epCapIdx epCapSaved
                else b5 in
      (illegal, set_board s b6)
  end.

(** ** Legal moves *)

Definition Move : Type := Z * Z.

(** The body of [for (const to of pseudo)]: [keep to] says whether the
    target passes the check and pin restrictions; every target kept is
    then run through the do/undo check on the shared state. *)
Fixpoint filterLegal (s : State) (i : Z) (kingSq : Z) (keep : Z -> bool)
  (pseudo : list Z) : list Move * State :=
  match pseudo with
  | [] => ([], s)
  | to :: rest =>
      if negb (keep to) then filterLegal s i kingSq keep rest
      else
        let '(illegal, s1) := leavesKingInCheck s i to (Some kingSq) in
        let '(ms, s2) := filterLegal s1 i kingSq keep rest in
        (if negb illegal then (i, to) :: ms else ms, s2)
  end.

(** Double check: the loop stops at the first king of [col]. *)
Fixpoint kingOnlyMoves (s : State) (col : Color) (kingSq : Z) (idxs : list Z)
  : list Move * State :=
  match idxs with
  | [] => ([], s)
  | i :: rest =>
      if isPiece (rd (board s) i) col K
      then filterLegal s i kingSq (fun _ => true) (kingMoves s i)
      else kingOnlyMoves s col kingSq rest
  end.

Definition inBetween (blockSquares : option (list Z)) (to : Z) : bool :=
  match blockSquares with
  | Some l => existsb (Z.eqb to) l
  | None => false
  end.

(** The main loop over the 64 squares. *)
Fixpoint scanMoves (s : State) (col : Color) (kingSq : Z)
  (nAttackers : nat) (checkerSq : Z) (blockSquares : option (list Z))
  (pins : gmap Z (Z * Z)) (idxs : list Z) : list Move * State :=
  match idxs with
  | [] => ([], s)
  | i :: rest =>
      match rd (board s) i with
      | None => scanMoves s col kingSq nAttackers checkerSq blockSquares pins rest
      | Some p =>
          if negb (Color_eqb (c p) col)
          then scanMoves s col kingSq nAttackers checkerSq blockSquares pins rest
          else
            let pseudo := generateMoves s i in
            let isKing := Kind_eqb (t p) K in
            let pinDir := pins !! i in
            let keep := fun to =>
              negb ((nAttackers =? 1)%nat && negb isKing
                    && negb (to =? checkerSq)
                    && negb (inBetween blockSquares to))
              && negb (negb isKing
                       && match pinDir with
                          | Some d => negb (alongRay i to (fst d) (snd d))
                          | None => false
                          end) in
            let '(ms, s1) := filterLegal s i kingSq keep pseudo in
            let '(ms', s2) :=
              scanMoves s1 col kingSq nAttackers checkerSq blockSquares pins rest in
            (ms ++ ms', s2)
      end
  end.

(** [allLegalMoves(state, color)], with the state the call leaves. *)
Definition allLegalMovesSt (s : State) (col : Color) : list Move * State :=
  let kingSq := findKing s col in
  if kingSq =? -1 then ([], s)
  else
    let enemy := opposite col in
    let atk := attackersToSquare s kingSq enemy in
    if (2 <=? length atk)%nat then kingOnlyMoves s col kingSq squares
    else
      let checkerSq := match atk with (a, _) :: _ => a | [] => -1 end in
      let blockSquares :=
        match atk with
        | (_, Some between) :: _ =>
            if (0 <? length between)%nat then Some between else None
        | _ => None
        end in
      let pins := computePins s col kingSq in
      scanMoves s col kingSq (length atk) checkerSq blockSquares pins squares.

Definition allLegalMoves (s : State) (col : Color) : list Move :=
  fst (allLegalMovesSt s col).

(** ** Move application (ai/pure.js, rules.js) *)

Definition castleOrder : list ascii := ["K"; "Q"; "k"; "q"]%char.

(** [removeCastleRight(s, ...codes)]: the rights kept are rebuilt in the
    order K, Q, k, q. *)
Definition removeCastleRight (s : State) (codes : list ascii) : State :=
  mkState (board s) (turn s)
    (string_of_list_ascii
       (List.filter (fun x => includes (castleRight s) x
                              && negb (existsb (Ascii.eqb x) codes))
                    castleOrder))
    (ep s) (halfmove s) (fullmove s).

(** [cloneState] copies the array and the scalar fields; a [State] value
    is its own copy. *)
Definition cloneState (s : State) : State := s.

Definition set_castle_rook (s : State) (rookTo rookFrom : Z) : State :=
  let b1 := wr (board s) rookTo (rd (board s) rookFrom) in
  set_board s (wr b1 rookFrom None).

Definition dropRightAt (sq : Z) (s : State) : State :=
  let s1 := if sq =? toIndex 7 0 then removeCastleRight s ["Q"%char] else s in
  let s2 := if sq =? toIndex 7 7 then removeCastleRight s1 ["K"%char] else s1 in
  let s3 := if sq =? toIndex 0 0 then removeCastleRight s2 ["q"%char] else s2 in
  if sq =? toIndex 0 7 then removeCastleRight s3 ["k"%char] else s3.

(** The flags computed at the top of [applyMovePure]. *)
Definition isCastleFlag (mover : Piece) (from to : Z) : bool :=
  Kind_eqb (t mover) K && (Z.abs (fileOf to - fileOf from) =? 2).

Definition isEPFlag (s : State) (mover : Piece) (from to : Z) : bool :=
  Kind_eqb (t mover) P
  && (match ep s with Some e => to =? e | None => false end)
  && negb (fileOf from =? fileOf to).

Definition isPromotionFlag (mover : Piece) (to : Z) : bool :=
  Kind_eqb (t mover) P && ((rankOf to =? 0) || (rankOf to =? 7)).

Definition capturedIndexOf (s : State) (mover : Piece) (from to : Z) : Z :=
  if isEPFlag s mover from to
  then toIndex (rankOf to - moveDir (c mover)) (fileOf to)
  else to.

(** The halfmove clock, the move itself, the pawn taken en passant and
    the promotion to a queen. *)
Definition movePieces (s : State) (mover : Piece) (from to : Z) : State :=
  let capturedIndex := capturedIndexOf s mover from to in
  let captured := rd (board s) capturedIndex in
  let hm := if Kind_eqb (t mover) P || occupied captured then 0
            else halfmove s + 1 in
  let b1 := wr (board s) to (Some mover) in
  let b2 := wr b1 from None in
  let b3 := if isEPFlag s mover from to then wr b2 capturedIndex None else b2 in
  let b4 := if isPromotionFlag mover to
            then wr b3 to (Some (mkPiece (c mover) Q)) else b3 in
  mkState b4 (turn s) (castleRight s) (ep s) hm (fullmove s).

(** The rook of a castling move, and the rights of the castling side. *)
Definition castleStage (s : State) (mover : Piece) (from to : Z) : State :=
  if isCastleFlag mover from to then
    match c mover with
    | W =>
        removeCastleRight
          (if to =? toIndex 7 6
           then set_castle_rook s (toIndex 7 5) (toIndex 7 7)
           else set_castle_rook s (toIndex 7 3) (toIndex 7 0))
          ["K"; "Q"]%char
    | B =>
        removeCastleRight
          (if to =? toIndex 0 6
           then set_castle_rook s (toIndex 0 5) (toIndex 0 7)
           else set_castle_rook s (toIndex 0 3) (toIndex 0 0))
          ["k"; "q"]%char
    end
  else s.

(** The new en-passant square. *)
Definition publishEp (s : State) (mover : Piece) (from to : Z) : State :=
  mkState (board s) (turn s) (castleRight s)
    (if Kind_eqb (t mover) P && (Z.abs (rankOf to - rankOf from) =? 2)
     then Some (toIndex ((rankOf to + rankOf from) / 2) (fileOf from))
     else None)
    (halfmove s) (fullmove s).

(** The rights lost by a king move, a rook leaving its corner, or a rook
    taken on its corner. *)
Definition revokeRights (s : State) (mover : Piece) (captured : Cell)
  (from to : Z) : State :=
  let s7 :=
    if Kind_eqb (t mover) K then
      match c mover with
      | W => removeCastleRight s ["K"; "Q"]%char
      | B => removeCastleRight s ["k"; "q"]%char
      end
    else s in
  let s8 := if Kind_eqb (t mover) R then dropRightAt from s7 else s7 in
  match captured with
  | Some cp => if Kind_eqb (t cp) R then dropRightAt to s8 else s8
  | None => s8
  end.

(** The side to move and the fullmove number. *)
Definition flipTurn (s : State) : State :=
  let newTurn := opposite (turn s) in
  mkState (board s) newTurn (castleRight s) (ep s) (halfmove s)
    (match newTurn with W => fullmove s + 1 | B => fullmove s end).

(** [applyMovePure(state, from, to)], stage by stage in the order of the
    statements of the code. *)
Definition applyMovePure (s : State) (from to : Z) : State :=
  match rd (board s) from with
  | None => s
  | Some mover =>
      let captured := rd (board s) (capturedIndexOf s mover from to) in
      flipTurn
        (revokeRights
           (publishEp
              (castleStage (movePieces s mover from to) mover from to)
              mover from to)
           mover captured from to)
  end.

(** ** Zobrist hashing (ai/zobrist.js) *)

Definition MASK64 : Z := 18446744073709551615.

(** The tables built by [initZobrist]: [pieces[ci][ti][sq]], [castle[k]],
    [epFile[f]] and [sideToMove]. *)
Record Zobrist := mkZobrist {
  zPieces : Z -> Z -> Z -> Z;
  zCastle : Z -> Z;
  zEpFile : Z -> Z;
  zSideToMove : Z
}.

(** [initZobrist(random64)]: the tables are filled from successive
    outputs of the generator, each masked to 64 bits, in the order of the
    nested [Array.from] calls; [random64 n] is the n-th output. *)
Definition initZobrist (random64 : nat -> Z) : Zobrist :=
  let next := fun n : Z => Z.land (random64 (Z.to_nat n)) MASK64 in
  mkZobrist
    (fun ci ti sq => next (ci * 384 + ti * 64 + sq))
    (fun k => next (768 + k))
    (fun f => next (772 + f))
    (next 780).

Definition TYPE_IDX (k : Kind) : Z :=
  match k with P => 0 | N => 1 | Bi => 2 | R => 3 | Q => 4 | K => 5 end.

Definition COLOR_IDX (col : Color) : Z := match col with W => 0 | B => 1 end.

(** [epFileIndexEffective]: the file of the en-passant square when a pawn
    of the side to move stands beside the pawn that can be taken, -1
    otherwise. *)
Definition epFileIndexEffective (s : State) : Z :=
  match ep s with
  | None => -1
  | Some e =>
      let r := rankOf e in
      let f := fileOf e in
      let side := turn s in
      let dr := match side with W => 1 | B => -1 end in
      if existsb (fun nf =>
            negb ((nf <? 0) || (7 <? nf))
            && isPiece (rd (board s) (toIndex (r + dr) nf)) side P)
           [f - 1; f + 1]
      then f else -1
  end.

Definition hasCastleRight (rights : string) (sym : ascii) : bool :=
  includes rights sym.

Definition computeKey (zob : Zobrist) (s : State) : Z :=
  let h0 := fold_left (fun h i =>
              match rd (board s) i with
              | None => h
              | Some p => Z.lxor h (zPieces zob (COLOR_IDX (c p)) (TYPE_IDX (t p)) i)
              end) squares 0 in
  let h1 := match turn s with B => Z.lxor h0 (zSideToMove zob) | W => h0 end in
  let h2 := if hasCastleRight (castleRight s) "K" then Z.lxor h1 (zCastle zob 0) else h1 in
  let h3 := if hasCastleRight (castleRight s) "Q" then Z.lxor h2 (zCastle zob 1) else h2 in
  let h4 := if hasCastleRight (castleRight s) "k" then Z.lxor h3 (zCastle zob 2) else h3 in
  let h5 := if hasCastleRight (castleRight s) "q" then Z.lxor h4 (zCastle zob 3) else h4 in
  let ef := epFileIndexEffective s in
  let h6 := if 0 <=? ef then Z.lxor h5 (zEpFile zob ef) else h5 in
  Z.land h6 MASK64.

(** ** Scores *)

(** Scores are JavaScript numbers.  The search compares them and shifts
    them by integer margins; finite values are modelled as integers, the
    two infinities are kept, and [Undef] stands for a value that is not a
    number ([undefined]), for which every comparison is false. *)
Inductive Num := NegInf | Fin (z : Z) | PosInf | Undef.

Definition num_lt (a b : Num) : bool :=
  match a, b with
  | Undef, _ | _, Undef => false
  | NegInf, NegInf => false
  | NegInf, _ => true
  | _, NegInf => false
  | Fin x, Fin y => x <? y
  | Fin _, PosInf => true
  | PosInf, _ => false
  end.

Definition num_le (a b : Num) : bool :=
  match a, b with
  | Undef, _ | _, Undef => false
  | NegInf, _ => true
  | _, NegInf => false
  | Fin x, Fin y => x <=? y
  | _, PosInf => true
  | PosInf, Fin _ => false
  end.

Definition num_gt (a b : Num) : bool := num_lt b a.
Definition num_ge (a b : Num) : bool := num_le b a.

(** [a + k] for an integer [k]. *)
Definition num_add (a : Num) (k : Z) : Num :=
  match a with Fin x => Fin (x + k) | other => other end.

(** [Math.max] and [Math.min]: not a number as soon as an argument is. *)
Definition num_max (a b : Num) : Num :=
  match a, b with
  | Undef, _ | _, Undef => Undef
  | _, _ => if num_lt a b then b else a
  end.

Definition num_min (a b : Num) : Num :=
  match a, b with
  | Undef, _ | _, Undef => Undef
  | _, _ => if num_lt b a then b else a
  end.

(** [Number.isFinite]. *)
Definition isFinite (a : Num) : bool :=
  match a with Fin _ => true | _ => false end.

(** ** Transposition table (ai/tt.js) *)

Inductive TTFlag := EXACT | LOWER | UPPER.

Record Entry := mkEntry {
  key : Z;
  depth : Z;
  flag : TTFlag;
  score : Num;
  bestMove : option Move
}.

(** The module state: [_mask] and the sparse array [_table]. *)
Record Table := mkTable {
  mask : Z;
  slots : gmap Z Entry
}.

Definition defaultTable : Table := mkTable (Z.shiftl 1 18 - 1) ∅.

Definition ttInit (sizePow2 : Z) : Table :=
  let p1 := if sizePow2 <? 12 then 12 else sizePow2 in
  let p2 := if 22 <? p1 then 22 else p1 in
  mkTable (Z.shiftl 1 p2 - 1) ∅.

Definition ttClear (tb : Table) : Table := mkTable (mask tb) ∅.

(** [x | 0]: conversion to a signed 32-bit integer. *)
Definition toInt32 (z : Z) : Z := (z + 2147483648) mod 4294967296 - 2147483648.

Definition _indexFor (tb : Table) (keyBig : Z) : Z :=
  let x := Z.lxor (Z.lxor keyBig (Z.shiftr keyBig 32)) (Z.shiftr keyBig 53) in
  Z.land x (mask tb).

Definition ttStore (tb : Table) (keyBig depth0 : Z) (fl : TTFlag) (sc : Num)
  (bm : option Move) : Table :=
  let i := _indexFor tb keyBig in
  let shouldReplace :=
    match slots tb !! i with
    | None => true
    | Some e =>
        if negb (key e =? keyBig)
        then toInt32 (depth e) <=? toInt32 depth0
        else true
    end in
  if negb shouldReplace then tb
  else mkTable (mask tb)
         (<[i := mkEntry keyBig (toInt32 depth0) fl sc bm]> (slots tb)).

(** What [ttProbe] hands back: [null], the object holding only the
    best-move hint, or the stored entry itself. *)
Inductive ProbeResult :=
| Miss
| HintOnly (bm : option Move)
| Full (e : Entry).

Definition ttProbe (tb : Table) (keyBig reqDepth : Z) : ProbeResult :=
  let i := _indexFor tb keyBig in
  match slots tb !! i with
  | None => Miss
  | Some e =>
      if negb (key e =? keyBig) then Miss
      else if toInt32 reqDepth <=? toInt32 (depth e) then Full e
      else HintOnly (bestMove e)
  end.

(** ** Search helpers (ai/search.js) *)

Definition MAX_PLY : Z := 128.
Definition MATE : Z := 100000.
Definition CONTEMPT : Z := 12.

Definition VAL (k : Kind) : Z :=
  match k with P => 100 | N => 320 | Bi => 330 | R => 500 | Q => 900 | K => 0 end.

Definition moveKey (from to : Z) : Z := Z.lor (Z.shiftl from 6) to.

(** [nonPawnPieceCount]: pieces that are neither pawns nor kings. *)
Definition countCells (f : Piece -> bool) (s : State) : Z :=
  fold_left (fun n i =>
    match rd (board s) i with
    | Some p => if f p then n + 1 else n
    | None => n
    end) squares 0.

Definition nonPawnPieceCount (s : State) : Z :=
  countCells (fun p => negb (Kind_eqb (t p) P) && negb (Kind_eqb (t p) K)) s.

Definition endgamePhase (s : State) : bool := nonPawnPieceCount s <=? 4.

(** [insufficientMaterial] of the search: one pass counting pawns, heavy
    pieces and minor pieces. *)
Definition insufficientMaterial (s : State) : bool :=
  let pawns := countCells (fun p => Kind_eqb (t p) P) s in
  let heavy := countCells (fun p => Kind_eqb (t p) R || Kind_eqb (t p) Q) s in
  let minors := countCells (fun p => Kind_eqb (t p) Bi || Kind_eqb (t p) N) s in
  if 0 <? pawns then false
  else if 0 <? heavy then false
  else minors <=? 2.

Definition drawScore (tn : Color) : Z :=
  match tn with W => - CONTEMPT | B => CONTEMPT end.

Definition fiftyMoveDraw (s : State) : bool := 100 <=? halfmove s.

Definition isEnPassantMove (s : State) (from to : Z) : bool :=
  match rd (board s) from with
  | None => false
  | Some mover =>
      if negb (Kind_eqb (t mover) P) then false
      else match ep s with
           | None => false
           | Some e =>
               if negb (to =? e) then false
               else if negb (Z.abs (fileOf to - fileOf from) =? 1) then false
               else
                 let capIdx := toIndex (rankOf to - moveDir (c mover)) (fileOf to) in
                 match rd (board s) capIdx with
                 | Some victim =>
                     Kind_eqb (t victim) P && negb (Color_eqb (c victim) (c mover))
                 | None => false
                 end
           end
  end.

Definition isCapture (s : State) (from to : Z) : bool :=
  match rd (board s) from with
  | None => false
  | Some mover =>
      match rd (board s) to with
      | Some target =>
          negb (Color_eqb (c target) (c mover)) || isEnPassantMove s from to
      | None => isEnPassantMove s from to
      end
  end.

Definition isPromotionMove (s : State) (from to : Z) : bool :=
  match rd (board s) from with
  | None => false
  | Some p =>
      if negb (Kind_eqb (t p) P) then false
      else match c p with
           | W => rankOf to =? 0
           | B => rankOf to =? 7
           end
  end.

Definition isCastleMove (s : State) (from to : Z) : bool :=
  match rd (board s) from with
  | None => false
  | Some p =>
      if negb (Kind_eqb (t p) K) then false
      else Z.abs (Z.rem to 8 - Z.rem from 8) =? 2
  end.

(** [givesCheckAfter]: the same do/undo as [leavesKingInCheck], asked
    about the enemy king. *)
Definition givesCheckAfter (s : State) (from to enemyKingSq : Z) : bool * State :=
  match rd (board s) from with
  | None => (false, s)
  | Some mover =>
      let dir := moveDir (c mover) in
      let savedTo := rd (board s) to in
      let isEP := isEPmove s mover from to in
      let epCapIdx := if isEP then toIndex (rankOf to - dir) (fileOf to) else -1 in
      let epCapSaved := if isEP then rd (board s) epCapIdx else None in
      let b1 := if negb (epCapIdx =? -1) then wr (board s) epCapIdx None
                else board s in
      let b2 := wr b1 to (Some mover) in
      let b3 := wr b2 from None in
      let check := isSquareAttacked (set_board s b3) enemyKingSq (c mover) in
      let b4 := wr b3 from (Some mover) in
      let b5 := wr b4 to savedTo in
      let b6 := if negb (epCapIdx =? -1) then wr b5 epCapIdx epCapSaved
                else b5 in
      (check, set_board s b6)
  end.

(** An annotated move: [{ from, to, os, mkey, quiet }]. *)
Record Ann := mkAnn {
  a_from : Z;
  a_to : Z;
  a_os : Z;
  a_mkey : Z;
  a_quiet : bool
}.

(** [out.sort((a, b) => b.os - a.os)]: a stable sort, larger [os] first. *)
Fixpoint insertDesc (x : Ann) (l : list Ann) : list Ann :=
  match l with
  | [] => [x]
  | y :: rest => if a_os x <? a_os y then y :: insertDesc x rest else x :: l
  end.

Definition sortDesc (l : list Ann) : list Ann := fold_right insertDesc [] l.

(** ** The mutable state of the search *)

(** Module-level state of search.js and tt.js: the number of clock
    readings taken so far, [DEADLINE], the transposition table, the
    killer and history tables, and the repetition map shared along the
    search path. *)
Record World := mkWorld {
  ticks : nat;
  deadline : Num;
  table : Table;
  killers : gmap Z (Z * Z);
  history : gmap (Z * Z * Z) Z;
  rep : gmap Z Z
}.

(** A computation reads and updates the world; [None] means that the
    recursion budget of the model ran out. *)
Definition M (A : Type) : Type := World -> option (A * World).

Definition ret {A : Type} (x : A) : M A := fun w => Some (x, w).

Definition bind {A B : Type} (m : M A) (k : A -> M B) : M B :=
  fun w => match m w with
           | Some (x, w') => k x w'
           | None => None
           end.

Definition outOfFuel {A : Type} : M A := fun _ => None.

Notation "'do' x <- m ;; k" := (bind m (fun x => k))
  (at level 10, x name, m at level 99, k at level 200).

Definition getWorld : M World := fun w => Some (w, w).

Definition repGet (k : Z) : M Z :=
  fun w => Some (match rep w !! k with Some n => toInt32 n | None => 0 end, w).

Definition repSet (k n : Z) : M unit :=
  fun w => Some (tt, mkWorld (ticks w) (deadline w) (table w) (killers w)
                       (history w) (<[k := n]> (rep w))).

Definition probeM (k d : Z) : M ProbeResult :=
  fun w => Some (ttProbe (table w) k d, w).

Definition storeM (k d : Z) (fl : TTFlag) (sc : Num) (bm : option Move) : M unit :=
  fun w => Some (tt, mkWorld (ticks w) (deadline w)
                       (ttStore (table w) k d fl sc bm) (killers w)
                       (history w) (rep w)).

Definition killerAt (w : World) (ply : Z) : Z * Z :=
  if (ply <? 0) || (MAX_PLY <=? ply) then (-1, -1)
  else match killers w !! ply with Some ks => ks | None => (-1, -1) end.

Definition addKiller (ply mkey : Z) : M unit :=
  fun w =>
    if (ply <? 0) || (MAX_PLY <=? ply) then Some (tt, w)
    else
      let ks := killerAt w ply in
      if negb (fst ks =? mkey)
      then Some (tt, mkWorld (ticks w) (deadline w) (table w)
                       (<[ply := (mkey, fst ks)]> (killers w))
                       (history w) (rep w))
      else Some (tt, w).

Definition historyAt (w : World) (sideIdx from to : Z) : Z :=
  match history w !! (sideIdx, from, to) with Some v => v | None => 0 end.

Definition bumpHistory (sideIdx from to depth0 : Z) : M unit :=
  fun w =>
    let bonus := (depth0 + 1) * (depth0 + 1) * 32 in
    let cur := historyAt w sideIdx from to in
    let nxt := if 1000000 <? cur + bonus then 1000000 else cur + bonus in
    Some (tt, mkWorld (ticks w) (deadline w) (table w) (killers w)
                (<[(sideIdx, from, to) := nxt]> (history w)) (rep w)).

(** [annotateMoves]: the ordering score of each move, then the sort.
    The state is threaded because [givesCheckAfter] works on it in
    place. *)
Fixpoint annotateLoop (w : World) (s : State) (moves : list Move)
  (ttBest : option Move) (sideIdx ply : Z) (light : bool) (enemyKingSq : Z)
  : list Ann * State :=
  match moves with
  | [] => ([], s)
  | (from, to) :: rest =>
      let mover := rd (board s) from in
      let target := rd (board s) to in
      let mv := match mover with Some p => VAL (t p) | None => 0 end in
      let epCap := isEnPassantMove s from to in
      let vv := if epCap then VAL P
                else match target with Some q => VAL (t q) | None => 0 end in
      let isCap := occupied target || epCap in
      let os1 := if isCap then 10 * vv - mv else 0 in
      let quiet := negb isCap && negb (isPromotionMove s from to)
                   && negb (isCastleMove s from to) in
      let '(chk, s1) :=
        if negb light && quiet && negb (enemyKingSq =? -1)
        then givesCheckAfter s from to enemyKingSq
        else (false, s) in
      let os2 := if chk then os1 + 150 else os1 in
      let os3 :=
        if quiet then
          let r := rankOf to in
          let f := Z.rem to 8 in
          os2 + (8 - (Z.abs (2 * r - 7) + Z.abs (2 * f - 7)) / 2)
        else os2 in
      let os4 :=
        match ttBest with
        | Some (bf, bt) => if (from =? bf) && (to =? bt) then os3 + 1000000000 else os3
        | None => os3
        end in
      let mkey := moveKey from to in
      let '(k0, k1) := killerAt w ply in
      let os5 :=
        if quiet then
          (if mkey =? k0 then os4 + 500000000
           else if mkey =? k1 then os4 + (500000000 - 1)
           else os4) + historyAt w sideIdx from to
        else os4 in
      let '(anns, s2) :=
        annotateLoop w s1 rest ttBest sideIdx ply light enemyKingSq in
      (mkAnn from to os5 mkey quiet :: anns, s2)
  end.

Definition annotateMoves (w : World) (s : State) (moves : list Move)
  (ttBest : option Move) (sideIdx ply : Z) (light : bool) : list Ann * State :=
  let enemyKingSq := findKing s (opposite (turn s)) in
  let '(out, s1) := annotateLoop w s moves ttBest sideIdx ply light enemyKingSq in
  (sortDesc out, s1).

Definition sideIndex (tn : Color) : Z := match tn with W => 0 | B => 1 end.

(** ** Quiescence and alpha-beta (ai/search.js)

    [await] points are sequential composition; [maybeYield] only hands
    control to the host scheduler and is left out. *)

Definition terminalScoreGivenMoves (s : State) (moves : list Move) (depth0 : Z)
  : option Z :=
  match moves with
  | _ :: _ => None
  | [] =>
      if inCheck s (turn s) then
        let plyPenalty := 100 - depth0 in
        Some ((match turn s with W => -1 | B => 1 end) * (MATE - plyPenalty))
      else Some 0
  end.

Definition hasNonPawnMaterial (s : State) (side : Color) : bool :=
  existsb (fun i =>
    match rd (board s) i with
    | Some p => Color_eqb (c p) side
                && negb (Kind_eqb (t p) P) && negb (Kind_eqb (t p) K)
    | None => false
    end) squares.

Definition makeNullMove (s : State) : State :=
  mkState (board s) (opposite (turn s)) (castleRight s) None
    (halfmove s) (fullmove s).

Section Search.

(** The evaluator handed to the search; the clock, [now n] being the
    n-th reading of [Date.now()]; and the Zobrist tables. *)
Variable evalFn : State -> Z.
Variable now : nat -> Z.
Variable zob : Zobrist.

Definition readClock : M Z :=
  fun w => Some (now (ticks w),
                 mkWorld (S (ticks w)) (deadline w) (table w) (killers w)
                   (history w) (rep w)).

(** [timeExpired()]: [Date.now() >= DEADLINE]. *)
Definition timeExpired : M bool :=
  fun w => match readClock w with
           | Some (n, w') => Some (num_ge (Fin n) (deadline w), w')
           | None => None
           end.

Fixpoint qLoopMax (self : State -> Num -> Num -> M Num) (s : State)
  (alpha beta : Num) (anns : list Ann) : M Num :=
  match anns with
  | [] => ret alpha
  | m :: rest =>
      let cs := applyMovePure (cloneState s) (a_from m) (a_to m) in
      do v <- self cs alpha beta ;;
      let alpha' := if num_gt v alpha then v else alpha in
      if num_ge alpha' beta then ret alpha'
      else qLoopMax self s alpha' beta rest
  end.

Fixpoint qLoopMin (self : State -> Num -> Num -> M Num) (s : State)
  (alpha beta : Num) (anns : list Ann) : M Num :=
  match anns with
  | [] => ret beta
  | m :: rest =>
      let cs := applyMovePure (cloneState s) (a_from m) (a_to m) in
      do v <- self cs alpha beta ;;
      let beta' := if num_lt v beta then v else beta in
      if num_ge alpha beta' then ret beta'
      else qLoopMin self s alpha beta' rest
  end.

(** The stand-pat step: an immediate result, or the narrowed window. *)
Definition standPat (sideMax inChk : bool) (stand alpha beta : Num)
  : option Num * Num * Num :=
  if inChk then (None, alpha, beta)
  else if sideMax then
    if num_ge stand beta then (Some stand, alpha, beta)
    else (None, if num_gt stand alpha then stand else alpha, beta)
  else
    if num_le stand alpha then (Some stand, alpha, beta)
    else (None, alpha, if num_lt stand beta then stand else beta).

Definition quiescence_body (self : State -> Num -> Num -> M Num)
  (s : State) (alpha beta : Num) : M Num :=
  if fiftyMoveDraw s || insufficientMaterial s
  then ret (Fin (drawScore (turn s)))
  else
    let sideMax := Color_eqb (turn s) W in
    let inChk := inCheck s (turn s) in
    let stand := Fin (evalFn s) in
    match standPat sideMax inChk stand alpha beta with
    | (Some v, _, _) => ret v
    | (None, alpha1, beta1) =>
        do expired <- timeExpired ;;
        if expired then ret stand
        else
          let '(moves0, s1) := allLegalMovesSt s (turn s) in
          let moves :=
            if inChk then moves0
            else List.filter (fun m => isCapture s1 (fst m) (snd m)) moves0 in
          if negb inChk && (length moves =? 0)%nat then ret stand
          else
            do w <- getWorld ;;
            let '(anns, s2) :=
              annotateMoves w s1 moves None (sideIndex (turn s1)) 0 true in
            if sideMax then qLoopMax self s2 alpha1 beta1 anns
            else qLoopMin self s2 alpha1 beta1 anns
    end.

Fixpoint quiescence (fuel : nat) : State -> Num -> Num -> M Num :=
  match fuel with
  | O => fun _ _ _ => outOfFuel
  | S n => quiescence_body (quiescence n)
  end.

(** The move loop of the maximizing side; [idx] is the loop index. *)
Fixpoint abLoopMax (self : State -> Z -> Num -> Num -> Z -> M Num)
  (s : State) (depth0 ply : Z) (endgame : bool) (sideIdx : Z)
  (beta : Num) (scored : list Ann) (idx : Z) (alpha best : Num) : M Num :=
  match scored with
  | [] => ret best
  | m :: rest =>
      do expired <- timeExpired ;;
      if expired then ret best
      else if negb endgame && (depth0 <=? 3) && a_quiet m && (8 <=? idx)
      then abLoopMax self s depth0 ply endgame sideIdx beta rest (idx + 1) alpha best
      else if negb endgame && (depth0 =? 1) && a_quiet m
              && negb (inCheck s (turn s))
              && num_le (num_add (Fin (evalFn s)) 250) alpha
      then abLoopMax self s depth0 ply endgame sideIdx beta rest (idx + 1) alpha best
      else
        let cs := applyMovePure (cloneState s) (a_from m) (a_to m) in
        do val <-
          (if negb endgame && (4 <=? depth0) && a_quiet m && (6 <=? idx)
              && (ply <? MAX_PLY - 1)
           then
             let R0 := if 10 <=? idx then 2 else 1 in
             do v <- self cs (depth0 - 1 - R0) (num_add alpha 1) (num_add alpha 1)
                       (ply + 1) ;;
             if num_gt v alpha then
               do ex <- timeExpired ;;
               if negb ex then self cs (depth0 - 1) alpha beta (ply + 1)
               else ret v
             else ret v
           else self cs (depth0 - 1) alpha beta (ply + 1)) ;;
        let best' := if num_gt val best then val else best in
        let alpha' := if num_gt val alpha then val else alpha in
        if num_ge alpha' beta then
          do _u <- (if a_quiet m
                    then do _k <- addKiller ply (a_mkey m) ;;
                         bumpHistory sideIdx (a_from m) (a_to m) depth0
                    else ret tt) ;;
          ret best'
        else abLoopMax self s depth0 ply endgame sideIdx beta rest (idx + 1)
               alpha' best'
  end.

(** The move loop of the minimizing side. *)
Fixpoint abLoopMin (self : State -> Z -> Num -> Num -> Z -> M Num)
  (s : State) (depth0 ply : Z) (endgame : bool) (sideIdx : Z)
  (alpha : Num) (scored : list Ann) (idx : Z) (beta best : Num) : M Num :=
  match scored with
  | [] => ret best
  | m :: rest =>
      do expired <- timeExpired ;;
      if expired then ret best
      else if negb endgame && (depth0 <=? 3) && a_quiet m && (8 <=? idx)
      then abLoopMin self s depth0 ply endgame sideIdx alpha rest (idx + 1) beta best
      else if negb endgame && (depth0 =? 1) && a_quiet m
              && negb (inCheck s (turn s))
              && num_ge (num_add (Fin (evalFn s)) (-250)) beta
      then abLoopMin self s depth0 ply endgame sideIdx alpha rest (idx + 1) beta best
      else
        let cs := applyMovePure (cloneState s) (a_from m) (a_to m) in
        do val <-
          (if negb endgame && (4 <=? depth0) && a_quiet m && (6 <=? idx)
              && (ply <? MAX_PLY - 1)
           then
             let R0 := if 10 <=? idx then 2 else 1 in
             do v <- self cs (depth0 - 1 - R0) (num_add beta (-1)) (num_add beta (-1))
                       (ply + 1) ;;
             if num_lt v beta then
               do ex <- timeExpired ;;
               if negb ex then self cs (depth0 - 1) alpha beta (ply + 1)
               else ret v
             else ret v
           else self cs (depth0 - 1) alpha beta (ply + 1)) ;;
        let best' := if num_lt val best then val else best in
        let beta' := if num_lt val beta then val else beta in
        if num_ge alpha beta' then
          do _u <- (if a_quiet m
                    then do _k <- addKiller ply (a_mkey m) ;;
                         bumpHistory sideIdx (a_from m) (a_to m) depth0
                    else ret tt) ;;
          ret best'
        else abLoopMin self s depth0 ply endgame sideIdx alpha rest (idx + 1)
               beta' best'
  end.

(** What the table lookup decides: return at once, or go on with a
    window and a best-move hint. *)
Inductive TTDecision :=
| TTReturn (v : Num)
| TTGoOn (alpha beta : Num) (ttBest : option Move).

Definition ttDecide (entry : ProbeResult) (alpha beta : Num) : TTDecision :=
  match entry with
  | Miss => TTGoOn alpha beta None
  | HintOnly bm =>
      if num_ge alpha beta then TTReturn Undef else TTGoOn alpha beta bm
  | Full e =>
      match flag e with
      | EXACT => TTReturn (score e)
      | LOWER =>
          let alpha' := num_max alpha (score e) in
          if num_ge alpha' beta then TTReturn (score e)
          else TTGoOn alpha' beta (bestMove e)
      | UPPER =>
          let beta' := num_min beta (score e) in
          if num_ge alpha beta' then TTReturn (score e)
          else TTGoOn alpha beta' (bestMove e)
      end
  end.

Definition storeFlag (best alphaStart betaStart : Num) : TTFlag :=
  if num_le best alphaStart then UPPER
  else if num_ge best betaStart then LOWER
  else EXACT.

(** One call of [alphaBeta]; [self] is the recursive call and [qs] the
    quiescence search.  The repetition map is the one of the world. *)
Definition alphaBeta_body
  (self : State -> Z -> Num -> Num -> Z -> M Num)
  (qs : State -> Num -> Num -> M Num)
  (s : State) (depth0 : Z) (alpha beta : Num) (ply : Z) : M Num :=
  if fiftyMoveDraw s || insufficientMaterial s
  then ret (Fin (drawScore (turn s)))
  else
    let key0 := computeKey zob s in
    do seen <- repGet key0 ;;
    if 2 <=? seen then ret (Fin (drawScore (turn s)))
    else
      do _r <- repSet key0 (seen + 1) ;;
      let endgame := endgamePhase s in
      do expired <- timeExpired ;;
      if expired then do _r <- repSet key0 seen ;; qs s alpha beta
      else if depth0 =? 0 then do _r <- repSet key0 seen ;; qs s alpha beta
      else
        let maximizing := Color_eqb (turn s) W in
        let '(moves0, s1) := allLegalMovesSt s (turn s) in
        match terminalScoreGivenMoves s1 moves0 depth0 with
        | Some term => do _r <- repSet key0 seen ;; ret (Fin term)
        | None =>
            do cut <-
              (if negb endgame && (3 <=? depth0)
                  && negb (inCheck s1 (turn s1))
                  && hasNonPawnMaterial s1 (turn s1)
               then
                 if num_ge (Fin (evalFn s1)) beta then
                   let R0 := if 6 <=? depth0 then 3 else 2 in
                   let ns := makeNullMove s1 in
                   do nullScore <- self ns (depth0 - 1 - R0) (num_add beta (-1))
                                     beta (ply + 1) ;;
                   ret (if num_ge nullScore beta then Some nullScore else None)
                 else ret None
               else ret None) ;;
            match cut with
            | Some nullScore => do _r <- repSet key0 seen ;; ret nullScore
            | None =>
                do entry <- probeM key0 depth0 ;;
                match ttDecide entry alpha beta with
                | TTReturn v => do _r <- repSet key0 seen ;; ret v
                | TTGoOn alpha1 beta1 ttBest =>
                    let sideIdx := sideIndex (turn s1) in
                    do w <- getWorld ;;
                    let '(scored, s2) :=
                      annotateMoves w s1 moves0 ttBest sideIdx ply (depth0 <=? 3) in
                    do best <-
                      (if maximizing
                       then abLoopMax self s2 depth0 ply endgame sideIdx beta1
                              scored 0 alpha1 (Fin (- MATE))
                       else abLoopMin self s2 depth0 ply endgame sideIdx alpha1
                              scored 0 beta1 (Fin MATE)) ;;
                    do _s <- storeM key0 depth0 (storeFlag best alpha beta) best
                               (match scored with
                                | m :: _ => Some (a_from m, a_to m)
                                | [] => None
                                end) ;;
                    do _r <- repSet key0 seen ;;
                    ret best
                end
            end
        end.

(** [alphaBeta], with a budget on the nesting of calls. *)
Fixpoint alphaBeta (fuel : nat) : State -> Z -> Num -> Num -> Z -> M Num :=
  match fuel with
  | O => fun _ _ _ _ _ => outOfFuel
  | S n => alphaBeta_body (alphaBeta n) (quiescence n)
  end.

(** ** Root driver *)

Definition ASP_WIDE : Z := 200.
Definition GUARD_MS : Z := 140.
Definition ROOT_CHUNK : nat := 10.

Definition setDeadline (d : Num) : M unit :=
  fun w => Some (tt, mkWorld (ticks w) d (table w) (killers w) (history w) (rep w)).

Definition resetKillers (n : Z) : M unit :=
  fun w => Some (tt, mkWorld (ticks w) (deadline w) (table w)
                       (fold_left (fun ks p0 => <[p0 := (-1, -1)]> ks)
                          (map Z.of_nat (seq 0 (Z.to_nat (Z.min MAX_PLY n))))
                          (killers w))
                       (history w) (rep w)).

Definition newRep (k : Z) : M unit :=
  fun w => Some (tt, mkWorld (ticks w) (deadline w) (table w) (killers w)
                       (history w) {[k := 1]}).

Definition sameMove (a b : Move) : bool :=
  (fst a =? fst b) && (snd a =? snd b).

(** [moves.sort(...)] with the comparator that only tells the best move
    from the others: a stable sort brings it to the front. *)
Definition bestToFront (best : Move) (moves : list Move) : list Move :=
  List.filter (sameMove best) moves
  ++ List.filter (fun m => negb (sameMove best m)) moves.

(** The per-move guards of the root loop; they read the clock only when
    a time budget was given. *)
Definition rootGuard (timed : bool) : M bool :=
  if timed then
    do e <- timeExpired ;;
    if e then ret true
    else
      do n <- readClock ;;
      do w <- getWorld ;;
      ret (num_lt (num_add (deadline w) (- n)) (Fin GUARD_MS))
  else ret false.

(** The loop [for (let i = 0; i < limit; i++)] over the root moves.  Next
    to the local best move and score it returns the list of the moves it
    has searched, which the code does not build: it is the record of
    the calls to [alphaBeta] made on the children. *)
Fixpoint rootLoop (fuel : nat) (s : State) (player : Color) (d : Z)
  (alphaWin betaWin : Num) (timed : bool) (ms : list Move)
  (localBestMove : option Move) (localBestScore : Num) (searched : list Move)
  : M (option Move * Num * list Move) :=
  match ms with
  | [] => ret (localBestMove, localBestScore, searched)
  | (from, to) :: rest =>
      do stop <- rootGuard timed ;;
      if stop then ret (localBestMove, localBestScore, searched)
      else
        let cs := applyMovePure (cloneState s) from to in
        do score0 <- alphaBeta fuel cs (d - 1) alphaWin betaWin 1 ;;
        do score1 <-
          (if timed then
             do e <- timeExpired ;;
             if negb e && (num_le score0 alphaWin || num_ge score0 betaWin)
             then alphaBeta fuel cs (d - 1) NegInf PosInf 1
             else ret score0
           else ret score0) ;;
        let better :=
          match player with
          | W => num_gt score1 localBestScore
          | B => num_lt score1 localBestScore
          end in
        rootLoop fuel s player d alphaWin betaWin timed rest
          (if better then Some (from, to) else localBestMove)
          (if better then score1 else localBestScore)
          (searched ++ [(from, to)])
  end.

Definition num_abs_gt (a : Num) (k : Z) : bool :=
  match a with
  | Fin x => k <? Z.abs x
  | NegInf | PosInf => true
  | Undef => false
  end.

(** The state carried from one depth to the next. *)
Record RootState := mkRoot {
  r_moves : list Move;
  r_bestMove : Move;
  r_bestScore : Num;
  r_lastScore : Num;
  r_finishedDepth : Z;
  r_log : list (Z * list Move)
}.

(** One pass of the depth loop over the root moves: the aspiration
    window, then the root loop over the first [limit] moves. *)
Definition rootIteration (fuel : nat) (s : State) (player : Color)
  (timed : bool) (d : Z) (rs : RootState) : M (option Move * Num * list Move) :=
  let aspirate := (5 <=? d) && isFinite (r_lastScore rs) in
  let alphaWin := if aspirate then num_add (r_lastScore rs) (- ASP_WIDE)
                  else NegInf in
  let betaWin := if aspirate then num_add (r_lastScore rs) ASP_WIDE
                 else PosInf in
  let limit := Nat.min (length (r_moves rs)) ROOT_CHUNK in
  rootLoop fuel s player d alphaWin betaWin timed
    (firstn limit (r_moves rs)) None
    (Fin (match player with W => - MATE | B => MATE end)) [].

(** The loop [for (let d = 1; d <= maxDepth; d++)]; [r_log] collects,
    depth by depth, the root moves searched. *)
Fixpoint depthLoop (fuel : nat) (s : State) (player : Color) (timed : bool)
  (depths : list Z) (rs : RootState) : M RootState :=
  match depths with
  | [] => ret rs
  | d :: rest =>
      do e0 <- (if timed then timeExpired else ret false) ;;
      if e0 then ret rs
      else
        do res <- rootIteration fuel s player timed d rs ;;
        let '(localBestMove, localBestScore, searched) := res in
        let rs1 := mkRoot (r_moves rs) (r_bestMove rs) (r_bestScore rs)
                     (r_lastScore rs) (r_finishedDepth rs)
                     (r_log rs ++ [(d, searched)]) in
        do e1 <- (if timed then timeExpired else ret false) ;;
        if e1 then ret rs1
        else
          match localBestMove with
          | Some bm =>
              let rs2 := mkRoot (bestToFront bm (r_moves rs)) bm localBestScore
                           localBestScore d (r_log rs1) in
              if num_abs_gt localBestScore 99000 then ret rs2
              else depthLoop fuel s player timed rest rs2
          | None => depthLoop fuel s player timed rest rs1
          end
  end.

Definition finiteScore (v : Num) (fallback : Z) : Z :=
  match v with Fin x => x | _ => fallback end.

(** [pickMove(state, { depth, timeMs, evalFn })].  [bookHint] is what the
    persistent book answers for the position; logging and the book
    update, which talk to the page and to local storage, are left out.
    The result comes with the record of the root moves searched at each
    depth. *)
Definition pickMove (fuel : nat) (s : State) (maxDepth : Z)
  (timeMs : option Z) (bookHint : option Move)
  : M (option (Z * Z * Num) * list (Z * list Move)) :=
  do w0 <- getWorld ;;
  let prevDeadline := deadline w0 in
  do _d <- (match timeMs with
            | Some ms => do n <- readClock ;; setDeadline (Fin (n + Z.max 50 ms))
            | None => setDeadline PosInf
            end) ;;
  let timed := match timeMs with Some _ => true | None => false end in
  let player := turn s in
  let '(moves, s1) := allLegalMovesSt s player in
  match moves with
  | [] => do _d <- setDeadline prevDeadline ;; ret (None, [])
  | _ :: _ =>
      do rootTT <- probeM (computeKey zob s1) 0 ;;
      let ttHint := match rootTT with
                    | Full e => bestMove e
                    | HintOnly bm => bm
                    | Miss => None
                    end in
      let hint := match ttHint with Some h => Some h | None => bookHint end in
      do w1 <- getWorld ;;
      let '(annotated, s2) :=
        annotateMoves w1 s1 moves hint (sideIndex player) 0 true in
      let moves1 := map (fun m => (a_from m, a_to m)) annotated in
      match moves1 with
      | [] => do _d <- setDeadline prevDeadline ;; ret (None, [])
      | m0 :: _ =>
          do _k <- resetKillers (maxDepth + 4) ;;
          do _r <- newRep (computeKey zob s2) ;;
          do rs <- depthLoop fuel s2 player timed
                     (map Z.of_nat (seq 1 (Z.to_nat maxDepth)))
                     (mkRoot moves1 m0
                        (Fin (match player with W => - MATE | B => MATE end))
                        (Fin 0) 0 []) ;;
          do uiScore <-
            (if isFinite (r_bestScore rs) then ret (r_bestScore rs)
             else do q <- quiescence fuel s2 NegInf PosInf ;;
                  ret (Fin (finiteScore q 0))) ;;
          do _d <- setDeadline prevDeadline ;;
          ret (Some (fst (r_bestMove rs), snd (r_bestMove rs), uiScore),
               r_log rs)
      end
  end.

End Search.

(** ** Choosing the evaluator (ai/eval.js) *)

(** A layer [{ W, b }] of the weight file; the numbers are kept as the
    file gives them and are not looked into here. *)
Record Layer := mkLayer {
  lW : list (list Z);
  lb : list Z
}.

(** The fields of the weight object that the loader reads; an absent
    field is [None]. *)
Record Blob := mkBlob {
  layers : option (list Layer);
  scale_cp : option Z;
  model_pov : option string
}.

(** How the acquisition of the weights ends: [fetch] rejects, the
    response is not OK, the body is not JSON, or an object is loaded. *)
Inductive Acquisition :=
| FetchRejects
| HttpNotOk (status : Z)
| JsonRejects
| Loaded (blob : Blob).

(** The evaluators [getEval] can hand out, as data: the classical one,
    or the network closed over its two layers, scale and point of
    view. *)
Inductive Evaluator :=
| ClassicEval
| MlpEval (L0 L1 : Layer) (scale : Z) (pov : string).

Record EvalInfo := mkInfo {
  kind : string;
  info_pov : string
}.

(** A call either returns or throws. *)
Inductive Outcome (A : Type) :=
| Returned (a : A)
| Thrown (msg : string).

Arguments Returned {A} a.
Arguments Thrown {A} msg.

Definition lowerChar (ch : ascii) : ascii :=
  let n := nat_of_ascii ch in
  if ((65 <=? n) && (n <=? 90))%nat then ascii_of_nat (n + 32) else ch.

Fixpoint toLowerCase (str : string) : string :=
  match str with
  | EmptyString => EmptyString
  | String ch rest => String (lowerChar ch) (toLowerCase rest)
  end.

Definition buildMlpWhitePOV (blob : Blob) : Outcome (Evaluator * EvalInfo) :=
  let ls := match layers blob with Some l => l | None => [] end in
  match ls with
  | [L0; L1] =>
      let scale := match scale_cp blob with
                   | Some sc => if sc =? 0 then 1000 else sc
                   | None => 1000
                   end in
      let pov := toLowerCase (match model_pov blob with
                              | Some EmptyString => "sidemove"
                              | Some str => str
                              | None => "sidemove"
                              end) in
      Returned (MlpEval L0 L1 scale pov, mkInfo "mlp" pov)
  | _ => Thrown "Expected layers=[L0,L1] for 1-hidden MLP"
  end.

(** [getEval({ mode, url })]: only the fetch and the parsing of the body
    sit inside the [try]; the network is built after it. *)
Definition getEval (mode : string) (acq : Acquisition)
  : Outcome (Evaluator * EvalInfo) :=
  if String.eqb mode "classic"
  then Returned (ClassicEval, mkInfo "classic" "white")
  else if negb (String.eqb mode "mlp")
  then Thrown (String.append "unknown mode: " mode)
  else
    match acq with
    | FetchRejects | HttpNotOk _ | JsonRejects =>
        Returned (ClassicEval, mkInfo "classic_fallback" "white")
    | Loaded blob => buildMlpWhitePOV blob
    end.

Definition acquisitionFailed (acq : Acquisition) : Prop :=
  match acq with Loaded _ => False | _ => True end.

Definition layerCount (blob : Blob) : nat :=
  length (match layers blob with Some l => l | None => [] end).

Definition oneLayerBlob : Blob :=
  mkBlob (Some [mkLayer [[1; 2]] [0]]) None None.

(** ** Position codec (fen.js) *)

Definition files : string := "abcdefgh".

(** A number in a template string: the decimal writing of an integer. *)
Definition numToString (z : Z) : string := NilZero.string_of_int (Z.to_int z).

(** [Number(str)] for the texts that are plain decimal integers; the
    empty text is 0.  Other texts are outside the model ([None]). *)
Definition parseNumber (str : string) : option Z :=
  match str with
  | EmptyString => Some 0
  | _ => option_map Z.of_int (NilZero.int_of_string str)
  end.

Definition kindLetter (k : Kind) : ascii :=
  match k with
  | P => "P" | N => "N" | Bi => "B" | R => "R" | Q => "Q" | K => "K"
  end%char.

Definition kindOfLetter (ch : ascii) : option Kind :=
  if Ascii.eqb ch "P" then Some P
  else if Ascii.eqb ch "N" then Some N
  else if Ascii.eqb ch "B" then Some Bi
  else if Ascii.eqb ch "R" then Some R
  else if Ascii.eqb ch "Q" then Some Q
  else if Ascii.eqb ch "K" then Some K
  else None.

Definition upperChar (ch : ascii) : ascii :=
  let n := nat_of_ascii ch in
  if ((97 <=? n) && (n <=? 122))%nat then ascii_of_nat (n - 32) else ch.

(** [p.c === "w" ? p.t : p.t.toLowerCase()] *)
Definition pieceToFenChar (p : Piece) : ascii :=
  match c p with
  | W => kindLetter (t p)
  | B => lowerChar (kindLetter (t p))
  end.

(** The inner loop of [toFEN] over the cells of one rank. *)
Fixpoint rankPlacement (cells : list Cell) (emptyCount : Z) : string :=
  match cells with
  | [] => if emptyCount =? 0 then EmptyString else numToString emptyCount
  | None :: rest => rankPlacement rest (emptyCount + 1)
  | Some p :: rest =>
      String.append
        (if emptyCount =? 0 then EmptyString else numToString emptyCount)
        (String (pieceToFenChar p) (rankPlacement rest 0))
  end.

Definition fileList : list Z := [0; 1; 2; 3; 4; 5; 6; 7].

Definition rankCells (b : Board) (r : Z) : list Cell :=
  map (fun f => rd b (toIndex r f)) fileList.

Fixpoint placementFrom (b : Board) (ranks : list Z) : string :=
  match ranks with
  | [] => EmptyString
  | r :: rest =>
      String.append (rankPlacement (rankCells b r) 0)
        (String.append (if r =? 7 then EmptyString else "/"%string)
           (placementFrom b rest))
  end.

Definition algebraic (i : Z) : string :=
  match String.get (Z.to_nat (fileOf i)) files with
  | Some ch => if fileOf i <? 0 then "NaN"%string
               else String ch (numToString (8 - rankOf i))
  | None => "NaN"%string
  end.

Definition turnLetter (tn : Color) : string :=
  match tn with W => "w"%string | B => "b"%string end.

Definition sp (a b : string) : string := String.append a (String " " b).

(** [toFEN(state)] *)
Definition toFEN (s : State) : string :=
  let placement := placementFrom (board s) fileList in
  let castle := match castleRight s with
                | EmptyString => "-"%string
                | cr => cr
                end in
  let epText := match ep s with
                | None => "-"%string
                | Some e => if e =? 0 then "-"%string else algebraic e
                end in
  sp placement
    (sp (turnLetter (turn s))
       (sp castle (sp epText (sp (numToString (halfmove s))
                                 (numToString (fullmove s)))))).

(** White space of [trim] and of [\s]. *)
Definition isSpace (ch : ascii) : bool :=
  let n := nat_of_ascii ch in
  ((9 <=? n) && (n <=? 13) || (n =? 32) || (n =? 160))%nat.

(** [str.split(sep)] for a one-character separator. *)
Fixpoint splitBy (isSep : ascii -> bool) (str : string) : list string :=
  match str with
  | EmptyString => [EmptyString]
  | String ch rest =>
      if isSep ch then EmptyString :: splitBy isSep rest
      else match splitBy isSep rest with
           | hd :: tl => String ch hd :: tl
           | [] => [String ch EmptyString]
           end
  end.

Definition nonEmpty (str : string) : bool :=
  match str with EmptyString => false | _ => true end.

(** [fen.trim().split(/\s+/)]: the maximal runs of characters that are
    not white space; the empty text gives one empty field. *)
Definition fields (fen : string) : list string :=
  match List.filter nonEmpty (splitBy isSpace fen) with
  | [] => [EmptyString]
  | l => l
  end.

Definition isDigit (ch : ascii) : bool :=
  let n := nat_of_ascii ch in ((48 <=? n) && (n <=? 57))%nat.

Definition digitVal (ch : ascii) : Z := Z.of_nat (nat_of_ascii ch) - 48.

(** The loop [for (const ch of ranks[r])] of [loadFEN]; a letter that
    names no piece kind is outside the model. *)
Fixpoint loadRank (r : Z) (chars : string) (f : Z) (b : Board) : option Board :=
  match chars with
  | EmptyString => Some b
  | String ch rest =>
      if isDigit ch then loadRank r rest (f + digitVal ch) b
      else
        match kindOfLetter (upperChar ch) with
        | Some k =>
            let col := if Ascii.eqb ch (upperChar ch) then W else B in
            loadRank r rest (f + 1) (wr b (toIndex r f) (Some (mkPiece col k)))
        | None => None
        end
  end.

(** The loop over the eight ranks; a missing rank makes the code throw. *)
Fixpoint loadRanks (rs : list Z) (ranks : list string) (b : Board)
  : option Board :=
  match rs with
  | [] => Some b
  | r :: rest =>
      match nth_error ranks (Z.to_nat r) with
      | None => None
      | Some chars =>
          match loadRank r chars 0 b with
          | Some b' => loadRanks rest ranks b'
          | None => None
          end
      end
  end.

Fixpoint indexOfChar (ch : ascii) (str : string) (n : Z) : Z :=
  match str with
  | EmptyString => -1
  | String x rest => if Ascii.eqb x ch then n else indexOfChar ch rest (n + 1)
  end.

Definition algebraicToIndex (sq : string) : option Z :=
  match sq with
  | EmptyString => None
  | String ch rest =>
      match parseNumber rest with
      | Some r => Some (toIndex (8 - r) (indexOfChar ch files 0))
      | None => None
      end
  end.

Definition isDash (str : string) : bool := String.eqb str "-".

(** [loadFEN(state, fen)].  The six fields of the position are all
    overwritten, so the result does not depend on the state passed in.
    [None] stands for a throw or for a text that leaves the model: fewer
    than four fields, fewer than eight ranks, a letter that is no piece,
    a side to move other than w or b, a number not in plain decimal. *)
Definition loadFEN (s : State) (fen : string) : option State :=
  match fields fen with
  | placement :: active :: castle :: epText :: clocks =>
      match loadRanks fileList (splitBy (Ascii.eqb "/") placement)
                      (repeat None 64) with
      | None => None
      | Some builtBoard =>
          let tn := if String.eqb active "w" then Some W
                    else if String.eqb active "b" then Some B else None in
          let epv := if isDash epText then Some None
                     else option_map Some (algebraicToIndex epText) in
          let half := match clocks with
                      | h :: _ => parseNumber h
                      | [] => Some 0
                      end in
          let full := match clocks with
                      | _ :: fl :: _ => parseNumber fl
                      | _ => Some 0
                      end in
          match tn, epv, half, full with
          | Some tn', Some ep', Some h, Some fl =>
              Some (mkState builtBoard tn'
                      (if isDash castle then EmptyString else castle)
                      ep' h (if fl =? 0 then 1 else fl))
          | _, _, _, _ => None
          end
      end
  | _ => None
  end.

(** The positions of a game: the initial position and what legal moves
    lead to. *)
Inductive reachable : State -> Prop :=
| reach_initial : reachable initialState
| reach_move (s : State) (from to : Z) :
    reachable s ->
    In (from, to) (allLegalMoves s (turn s)) ->
    reachable (applyMovePure s from to).

(** ** The earlier moves.js: plain filtering of the pseudo-moves *)

Module Legacy.

(** The inner loop of the sliding pieces in the earlier file. *)
Fixpoint slide (s : State) (col : Color) (r f dr df : Z) (steps : list Z)
  : list Z :=
  match steps with
  | [] => []
  | k :: rest =>
      let rr := r + dr * k in
      let ff := f + df * k in
      let idx := toIndex rr ff in
      if negb (onBoard rr ff) || blocked s col idx then []
      else if canLand s col idx then
        idx :: (match rd (board s) idx with
                | Some q => if negb (Color_eqb (c q) col) then []
                            else slide s col r f dr df rest
                | None => slide s col r f dr df rest
                end)
      else slide s col r f dr df rest
  end.

Definition slideMoves (s : State) (col : Color) (r f : Z)
  (deltas : list (Z * Z)) : list Z :=
  flat_map (fun d => slide s col r f (fst d) (snd d) steps17) deltas.

Definition bishopMoves (s : State) (i : Z) : list Z :=
  match rd (board s) i with
  | Some p =>
      if Kind_eqb (t p) Bi
      then slideMoves s (c p) (rankOf i) (fileOf i) diagDeltas
      else []
  | None => []
  end.

Definition rookMoves (s : State) (i : Z) : list Z :=
  match rd (board s) i with
  | Some p =>
      if Kind_eqb (t p) R
      then slideMoves s (c p) (rankOf i) (fileOf i) orthoDeltas
      else []
  | None => []
  end.

Definition queenMoves (s : State) (i : Z) : list Z :=
  match rd (board s) i with
  | Some p =>
      if Kind_eqb (t p) Q
      then slideMoves s (c p) (rankOf i) (fileOf i) queenDeltas
      else []
  | None => []
  end.

(** [knightMoves], [kingMoves], [pawnMoves], [findKing],
    [isSquareAttacked] and [inCheck] read as in the later file, but for
    two details that change nothing: in [kingMoves] the index is
    computed before the test [onBoard], and the rays of
    [isSquareAttacked] end with [else break] where the later file has
    [break]. *)
Definition generateMoves (s : State) (i : Z) : list Z :=
  match rd (board s) i with
  | None => []
  | Some p =>
      match t p with
      | N => knightMoves s i
      | Bi => bishopMoves s i
      | R => rookMoves s i
      | Q => queenMoves s i
      | K => kingMoves s i
      | P => pawnMoves s i
      end
  end.

(** [leavesKingInCheck(state, from, to)] of the earlier file: the move is
    made on a copy of the board. *)
Definition leavesKingInCheck (s : State) (from to : Z) : bool :=
  match rd (board s) from with
  | None => false
  | Some mover =>
      let dir := moveDir (c mover) in
      let isEP := isEPmove s mover from to in
      let capturedIdx :=
        if isEP then toIndex (rankOf to - dir) (fileOf to) else to in
      let b1 := wr (board s) capturedIdx None in
      let b2 := wr b1 to (Some mover) in
      let b3 := wr b2 from None in
      inCheck (set_board s b3) (c mover)
  end.

(** [allLegalMoves(state, color)] of the earlier file. *)
Definition allLegalMoves (s : State) (col : Color) : list Move :=
  flat_map (fun i =>
    match rd (board s) i with
    | None => []
    | Some p =>
        if negb (Color_eqb (c p) col) then []
        else map (pair i)
               (List.filter (fun to => negb (leavesKingInCheck s i to))
                  (generateMoves s i))
    end) squares.

End Legacy.

(** ** main.js: the move made on the page, and its draw by material *)

Module Main.

(** [removeCastleRight(state, a); removeCastleRight(state, b)] *)
Definition removeTwo (s : State) (a b : ascii) : State :=
  removeCastleRight (removeCastleRight s [a]) [b].

(** [applyMove(from, to)], its effect on the six fields of the position.
    The notation of the move, the list of position keys, the game-over
    tests that follow and the rendering do not write these fields. *)
Definition applyMove (s : State) (from to : Z) : State :=
  match rd (board s) from with
  | None => s
  | Some mover =>
      let isCastle := isCastleFlag mover from to in
      let isEP := isEPFlag s mover from to in
      let isPromotion := isPromotionFlag mover to in
      let capturedIndex :=
        if isEP then toIndex (rankOf to - moveDir (c mover)) (fileOf to) else to in
      let captured := rd (board s) capturedIndex in
      let hm := if Kind_eqb (t mover) P || occupied captured then 0
                else halfmove s + 1 in
      let b1 := wr (board s) to (Some mover) in
      let b2 := wr b1 from None in
      let b3 := if isEP then wr b2 capturedIndex None else b2 in
      let b4 := if isPromotion then wr b3 to (Some (mkPiece (c mover) Q)) else b3 in
      let s1 := mkState b4 (turn s) (castleRight s) (ep s) hm (fullmove s) in
      let s2 :=
        if isCastle then
          match c mover with
          | W =>
              removeCastleRight
                (if to =? toIndex 7 6
                 then set_castle_rook s1 (toIndex 7 5) (toIndex 7 7)
                 else set_castle_rook s1 (toIndex 7 3) (toIndex 7 0))
                ["K"; "Q"]%char
          | B =>
              removeCastleRight
                (if to =? toIndex 0 6
                 then set_castle_rook s1 (toIndex 0 5) (toIndex 0 7)
                 else set_castle_rook s1 (toIndex 0 3) (toIndex 0 0))
                ["k"; "q"]%char
          end
        else s1 in
      let s3 :=
        mkState (board s2) (turn s2) (castleRight s2)
          (if Kind_eqb (t mover) P && (Z.abs (rankOf to - rankOf from) =? 2)
           then Some (toIndex ((rankOf to + rankOf from) / 2) (fileOf from))
           else None)
          (halfmove s2) (fullmove s2) in
      let s4 :=
        if Kind_eqb (t mover) K then
          match c mover with
          | W => removeTwo s3 "K" "Q"
          | B => removeTwo s3 "k" "q"
          end
        else s3 in
      let s5 := if Kind_eqb (t mover) R then dropRightAt from s4 else s4 in
      let s6 := match captured with
                | Some cp => if Kind_eqb (t cp) R then dropRightAt to s5 else s5
                | None => s5
                end in
      let newTurn := opposite (turn s6) in
      mkState (board s6) newTurn (castleRight s6) (ep s6) (halfmove s6)
        (match newTurn with W => fullmove s6 + 1 | B => fullmove s6 end)
  end.

(** [pieceCounts(s)]: the number of pieces of a colour and a kind other
    than the king. *)
Definition pieceCounts (s : State) (col : Color) (k : Kind) : Z :=
  countCells (fun p => Color_eqb (c p) col && Kind_eqb (t p) k) s.

(** [bishopSquareColors(s)]: for each bishop of [col], in the order of
    the squares, the colour of its square. *)
Definition bishopSquareColors (s : State) (col : Color) : list Z :=
  flat_map (fun i =>
    match rd (board s) i with
    | Some p =>
        if Kind_eqb (t p) Bi && Color_eqb (c p) col
        then [Z.land (rankOf i + fileOf i) 1] else []
    | None => []
    end) squares.

(** [insufficientMaterial(s)] of main.js, case by case. *)
Definition insufficientMaterial (s : State) : bool :=
  let n := pieceCounts s in
  if negb ((n W P =? 0) && (n B P =? 0) && (n W R =? 0) && (n B R =? 0)
           && (n W Q =? 0) && (n B Q =? 0))
  then false
  else
    let totalMinors := n W N + n B N + n W Bi + n B Bi in
    if totalMinors =? 0 then true
    else if totalMinors =? 1 then true
    else if (totalMinors =? 2) && (n W Bi <=? 1) && (n B Bi <=? 1)
            && (n W N =? 0) && (n B N =? 0)
            && (match bishopSquareColors s W ++ bishopSquareColors s B with
                | [x; y] => x =? y
                | _ => false
                end)
    then true
    else if (n W P =? 0) && (n B P =? 0) && (n W Bi =? 0) && (n B Bi =? 0)
            && (n W Q =? 0) && (n B Q =? 0) && (n W R =? 0) && (n B R =? 0)
            && (((n W N =? 2) && (n B N =? 0)) || ((n B N =? 2) && (n W N =? 0))
                || ((n W N =? 1) && (n B N =? 1)))
    then true
    else false.

End Main.

(** ** Incremental updates of a key (ai/zobrist.js) *)

Definition togglePiece (zob : Zobrist) (hash : Z) (col : Color) (k : Kind)
  (square : Z) : Z :=
  Z.land (Z.lxor hash (zPieces zob (COLOR_IDX col) (TYPE_IDX k) square)) MASK64.

Definition toggleSideToMove (zob : Zobrist) (hash : Z) : Z :=
  Z.land (Z.lxor hash (zSideToMove zob)) MASK64.

(** ** The size of the table (ai/tt.js) *)

(** [ttSize()]: the length of the array. *)
Definition ttSize (tb : Table) : Z := mask tb + 1.

(** * Vocabulary of the statements *)

(** ** Well-formed positions *)

(** The part of the data-model invariants the generator relies on: the
    board has its 64 cells and an en-passant target, when there is one, is
    an empty square of the board (it is the square a pawn has just
    skipped over). *)
Definition wf_state (s : State) : Prop :=
  length (board s) = 64%nat
  /\ forall e, ep s = Some e -> 0 <= e < 64 /\ rd (board s) e = None.

Definition epCaptureSquare (mover : Piece) (to : Z) : Z :=
  toIndex (rankOf to - moveDir (c mover)) (fileOf to).

(** A target is acceptable for the do/undo check when it is a square of
    the board not held by the mover's own side and, if the move is an
    en-passant capture, the square of the captured pawn is on the board
    and holds an enemy pawn. *)
Definition target_ok (s : State) (i to : Z) : Prop :=
  0 <= to < 64 /\
  forall mover, rd (board s) i = Some mover ->
    blocked s (c mover) to = false /\
    (isEPmove s mover i to = true ->
       0 <= epCaptureSquare mover to < 64 /\
       isPiece (rd (board s) (epCaptureSquare mover to))
               (opposite (c mover)) P = true).

(** What a move of the returned list is known to satisfy. *)
Definition checked_move (s : State) (col : Color) (kingSq : Z) (m : Move)
  : Prop :=
  0 <= fst m < 64
  /\ (exists p, rd (board s) (fst m) = Some p /\ c p = col)
  /\ In (snd m) (generateMoves s (fst m))
  /\ fst (leavesKingInCheck s (fst m) (snd m) (Some kingSq)) = false.

(** At most one king of colour [col] stands on the board. *)
Definition one_king (s : State) (col : Color) : Prop :=
  forall i j,
    isPiece (rd (board s) i) col K = true ->
    isPiece (rd (board s) j) col K = true -> i = j.

(** The squares on which [col] has a king. *)
Definition kingSquares (s : State) (col : Color) : list Z :=
  List.filter (fun i => isPiece (rd (board s) i) col K) squares.

(** The board as [leavesKingInCheck] has it when it asks whether the
    king's square is attacked. *)
Definition doneBoard (s : State) (mover : Piece) (from to : Z) : Board :=
  let cap := if isEPmove s mover from to then epCaptureSquare mover to else -1 in
  wr (wr (if negb (cap =? -1) then wr (board s) cap None else board s)
        to (Some mover)) from None.

(** The rook's squares in [applyMovePure]'s castling: where it lands and
    the corner it leaves. *)
Definition castleRook (col : Color) (to : Z) : Z * Z :=
  match col with
  | W => if to =? toIndex 7 6 then (toIndex 7 5, toIndex 7 7)
         else (toIndex 7 3, toIndex 7 0)
  | B => if to =? toIndex 0 6 then (toIndex 0 5, toIndex 0 7)
         else (toIndex 0 3, toIndex 0 0)
  end.

(** For the attacks of side [e], a cell [x] shows no more than a cell
    [y] when it is the same cell or holds a piece that is not [e]'s. *)
Definition covers (e : Color) (x y : Cell) : Prop :=
  x = y \/ exists q, x = Some q /\ Color_eqb (c q) e = false.

(** A ray from [(r, f)] that reaches the square [corner] has no square
    of the board after it. *)
Fixpoint stopsAt (corner r f dr df : Z) (steps : list Z) : bool :=
  match steps with
  | [] => true
  | n :: rest =>
      if onBoard (r + dr * n) (f + df * n)
         && (toIndex (r + dr * n) (f + df * n) =? corner)
      then match rest with
           | [] => true
           | m :: _ => negb (onBoard (r + dr * m) (f + df * m))
           end
      else stopsAt corner r f dr df rest
  end.

Definition cornerRays (corner k : Z) : bool :=
  forallb (fun d => stopsAt corner (rankOf k) (fileOf k) (fst d) (snd d) steps17)
    (diagDeltas ++ orthoDeltas).

(** ** Tables written by [ttStore] *)

Definition int32 (z : Z) : Prop := -2147483648 <= z < 2147483648.

(** Every entry in the table was written by [ttStore], which stores
    [depth | 0]. *)
Definition table_wf (tb : Table) : Prop :=
  forall i e, slots tb !! i = Some e -> int32 (depth e).

Definition sampleTable : Table :=
  ttStore defaultTable 12345 3 EXACT (Fin 10) (Some (52, 36)).

(** ** En-passant squares and the pawns that can take there *)

(** A pawn of the side to move stands on a file next to that of the
    en-passant square [e], on the rank from which it takes onto [e]. *)
Definition ep_capturer (s : State) (e : Z) : Prop :=
  exists nf,
    (nf = fileOf e - 1 \/ nf = fileOf e + 1) /\ 0 <= nf <= 7
    /\ isPiece (rd (board s)
                  (toIndex (rankOf e + match turn s with W => 1 | B => -1 end) nf))
               (turn s) P = true.

Definition with_ep (s : State) (o : option Z) : State :=
  mkState (board s) (turn s) (castleRight s) o (halfmove s) (fullmove s).

(** A deterministic 64-bit generator to fill the tables with. *)
Definition lcg (n : nat) : Z :=
  (Z.of_nat n * 6364136223846793005 + 1442695040888963407) mod 2 ^ 64.

Definition sampleZobrist : Zobrist := initZobrist lcg.

(** After 1. e4 the en-passant square is e3 and no black pawn can take
    there. *)
Definition afterE4 : State := applyMovePure initialState 52 36.

(** ** Material on the board *)

(** A board holding the given pieces and nothing else. *)
Definition boardOf (l : list (Z * Piece)) : Board :=
  fold_left (fun b ip => wr b (fst ip) (Some (snd ip))) l (repeat None 64).

(** The number of pieces of kind [k] that side [col] has. *)
Definition countOf (s : State) (col : Color) (k : Kind) : Z :=
  countCells (fun p => Color_eqb (c p) col && Kind_eqb (t p) k) s.

Definition bishopSquareColors (s : State) (col : Color) : list Z :=
  flat_map (fun i =>
    if isPiece (rd (board s) i) col Bi
    then [Z.land (rankOf i + fileOf i) 1] else []) squares.

(** The draws by material as the specification lists them: no pawn,
    rook or queen, and either no minor piece, or a single one, or one
    bishop a side on squares of one colour, or two knights of one side
    against the bare king. *)
Definition listedDraw (s : State) : bool :=
  let n := countOf s in
  let totalMinors := n W N + n B N + n W Bi + n B Bi in
  (n W P =? 0) && (n B P =? 0) && (n W R =? 0) && (n B R =? 0)
  && (n W Q =? 0) && (n B Q =? 0)
  && ((totalMinors =? 0)
      || (totalMinors =? 1)
      || ((n W Bi =? 1) && (n B Bi =? 1) && (n W N =? 0) && (n B N =? 0)
          && match bishopSquareColors s W ++ bishopSquareColors s B with
             | [x; y] => x =? y
             | _ => false
             end)
      || ((n W N =? 2) && (n B N =? 0) && (n W Bi =? 0) && (n B Bi =? 0))
      || ((n B N =? 2) && (n W N =? 0) && (n W Bi =? 0) && (n B Bi =? 0))).

(** ** Sample positions and search states *)

(** The terminal score of the code: the mate score is built from the
    remaining depth. *)
Definition terminalScore (s : State) (depth0 : Z) : Z :=
  if inCheck s (turn s)
  then (match turn s with W => -1 | B => 1 end) * (MATE - (100 - depth0))
  else 0.

(** The position 8/8/8/8/8/5k2/5q2/5K2 w - - 0 1: White is mated. *)
Definition mated : State :=
  mkState (boardOf [(45, mkPiece B K); (53, mkPiece B Q); (61, mkPiece W K)])
    W EmptyString None 0 1.

(** The position 8/8/8/8/8/1k1b4/8/K7 w - - 0 1: White is stalemated,
    and king and bishop against king is among the draws by material. *)
Definition stalemated : State :=
  mkState (boardOf [(41, mkPiece B K); (43, mkPiece B Bi); (56, mkPiece W K)])
    W EmptyString None 0 1.

Definition freshWorld : World := mkWorld 0 PosInf defaultTable ∅ ∅ ∅.

Definition zeroEval (s : State) : Z := 0.
Definition stillClock (n : nat) : Z := 0.

(** King, bishop and knight against the bare king
    (4k3/8/8/8/8/8/8/KBN5 w - - 0 1), a won ending. *)
Definition kbnk : State :=
  mkState (boardOf [(4, mkPiece B K); (56, mkPiece W K); (57, mkPiece W Bi);
                    (58, mkPiece W N)])
    W EmptyString None 0 1.

(** ** Texts of the position codec *)

Fixpoint allChars (f : ascii -> bool) (str : string) : bool :=
  match str with
  | EmptyString => true
  | String ch rest => f ch && allChars f rest
  end.

(** A character of a field: not white space. *)
Definition fieldChar (ch : ascii) : bool := negb (isSpace ch).

(** The cells of [cells] that hold a piece, written on rank [r] from
    file [f] on. *)
Fixpoint writeCells (r f : Z) (cells : list Cell) (b : Board) : Board :=
  match cells with
  | [] => b
  | None :: rest => writeCells r (f + 1) rest b
  | Some p :: rest => writeCells r (f + 1) rest (wr b (toIndex r f) (Some p))
  end.

(** A character of a rank: neither white space nor the separator. *)
Definition rankChar (ch : ascii) : bool :=
  fieldChar ch && negb (Ascii.eqb "/" ch).

Definition rankText (b : Board) (r : Z) : string :=
  rankPlacement (rankCells b r) 0.

(** The board rebuilt rank after rank from the cells of [b]. *)
Definition rebuilt (b : Board) : Board :=
  fold_left (fun b' r => writeCells r 0 (rankCells b r) b') fileList
    (repeat None 64).

(** ** Positions the codec carries *)

Definition isRight (ch : ascii) : bool := existsb (Ascii.eqb ch) castleOrder.

(** What the codec needs of a position: the 64 cells, an en-passant
    square that is a square of the board other than a8, castling rights
    written with the letters K, Q, k, q, and clocks in their ranges. *)
Definition codec_ok (s : State) : Prop :=
  length (board s) = 64%nat
  /\ (forall e, ep s = Some e -> 0 < e < 64)
  /\ allChars isRight (castleRight s) = true
  /\ 0 <= halfmove s /\ 1 <= fullmove s.

(** An invariant of the positions reached by legal moves. *)
Definition game_inv (s : State) : Prop :=
  length (board s) = 64%nat
  /\ (forall e, ep s = Some e -> 8 <= e < 56 /\ rd (board s) e = None)
  /\ allChars isRight (castleRight s) = true
  /\ 0 <= halfmove s /\ 1 <= fullmove s.

(** ** The legal-move loop, square by square *)

(** The test [for (const to of pseudo)] applies before the do/undo
    check, for the piece [p] on square [i]. *)
Definition keepTarget (nAttackers : nat) (checkerSq : Z)
  (blockSquares : option (list Z)) (pins : gmap Z (Z * Z)) (p : Piece)
  (i to : Z) : bool :=
  negb ((nAttackers =? 1)%nat && negb (Kind_eqb (t p) K)
        && negb (to =? checkerSq)
        && negb (inBetween blockSquares to))
  && negb (negb (Kind_eqb (t p) K)
           && match pins !! i with
              | Some d => negb (alongRay i to (fst d) (snd d))
              | None => false
              end).

(** The moves the main loop keeps for square [i]. *)
Definition movesFrom (s : State) (col : Color) (kingSq : Z) (keep : Piece -> Z -> Z -> bool)
  (i : Z) : list Move :=
  match rd (board s) i with
  | None => []
  | Some p =>
      if Color_eqb (c p) col
      then map (pair i)
             (List.filter
                (fun to => keep p i to
                           && negb (fst (leavesKingInCheck s i to (Some kingSq))))
                (generateMoves s i))
      else []
  end.

(** The checkers of [col]'s king, as [allLegalMoves] computes them. *)
Definition checkers (s : State) (col : Color) : list (Z * option (list Z)) :=
  attackersToSquare s (findKing s col) (opposite col).

Definition boardWith (l : list (Z * Piece)) (tn : Color) : State :=
  mkState (boardOf l) tn EmptyString None 0 1.

(** 4k3/8/8/8/8/5n2/8/4K3 with a black rook on e8 as well: the white
    king on e1 is in check from the rook and from the knight on f3. *)
Definition doubleChecked : State :=
  boardWith [(0, mkPiece B K); (4, mkPiece B R); (45, mkPiece B N);
             (60, mkPiece W K)] W.

(** k3r3/8/8/8/8/8/R7/4K3 w: the rook on e8 checks the king on e1. *)
Definition rookChecked : State :=
  boardWith [(0, mkPiece B K); (4, mkPiece B R); (48, mkPiece W R);
             (60, mkPiece W K)] W.

(** k3r3/8/8/8/8/8/4R3/4K3 w: the rook on e2 is pinned by the rook on
    e8. *)
Definition rookPinned : State :=
  boardWith [(0, mkPiece B K); (4, mkPiece B R); (52, mkPiece W R);
             (60, mkPiece W K)] W.

(** 4k3/8/8/3pP3/4K3/8/8/8 w - d6: the pawn that has just moved to d5
    checks the king on e4, and the pawn on e5 can take it en passant. *)
Definition epChecked : State :=
  mkState (boardOf [(4, mkPiece B K); (27, mkPiece B P); (28, mkPiece W P);
                    (36, mkPiece W K)]) W EmptyString (Some 19) 0 1.

(** ** Castling rights and the home squares *)

(** The side, the king's square and the rook's corner a castling right
    is about. *)
Definition rightHome (ch : ascii) : option (Color * Z * Z) :=
  if Ascii.eqb ch "K" then Some (W, toIndex 7 4, toIndex 7 7)
  else if Ascii.eqb ch "Q" then Some (W, toIndex 7 4, toIndex 7 0)
  else if Ascii.eqb ch "k" then Some (B, toIndex 0 4, toIndex 0 7)
  else if Ascii.eqb ch "q" then Some (B, toIndex 0 4, toIndex 0 0)
  else None.

(** A castling right is held only with the king and the rook on their
    original squares. *)
Definition castle_inv (s : State) : Prop :=
  forall ch col k r,
    rightHome ch = Some (col, k, r) ->
    includes (castleRight s) ch = true ->
    isPiece (rd (board s) k) col K = true
    /\ isPiece (rd (board s) r) col R = true.

(** What holds of every position of a game, between moves: the fields
    are in range, each side has its one king, a castling right is held
    with king and rook at home, and the side that has just moved is not
    in check. *)
Definition position_inv (s : State) : Prop :=
  game_inv s
  /\ (forall col, one_king s col /\ findKing s col <> -1)
  /\ castle_inv s
  /\ inCheck s (opposite (turn s)) = false.

(** ** Keys, piece by piece *)

(** The position with the other side to move. *)
Definition with_turn (s : State) (tn : Color) : State :=
  mkState (board s) tn (castleRight s) (ep s) (halfmove s) (fullmove s).

Definition pieceHash (zob : Zobrist) (b : Board) (l : list Z) (h : Z) : Z :=
  fold_left (fun h i =>
    match rd b i with
    | None => h
    | Some p => Z.lxor h (zPieces zob (COLOR_IDX (c p)) (TYPE_IDX (t p)) i)
    end) l h.

(** ** A position set up by hand *)

(** A position set up by hand, not met in any game: an en-passant
    square on a4 with nothing around it. *)
Definition strayEp : State :=
  mkState (boardOf [(4, mkPiece B K); (60, mkPiece W K)]) B "Kq" (Some 32) 7 3.

(** ** The path of the search *)

(** What [rep.get(key) | 0] reads of the repetition map. *)
Definition repCount (w : World) (k : Z) : Z :=
  match rep w !! k with Some n => toInt32 n | None => 0 end.

(** The part of the world the search hands back as it found it: the
    deadline and the repetition counts. *)
Definition same_path (w w' : World) : Prop :=
  deadline w' = deadline w /\ forall k, repCount w' k = repCount w k.

Definition keeps {A : Type} (m : M A) : Prop :=
  forall w x w', m w = Some (x, w') -> same_path w w'.

(** A computation that ends with the count of [key] put back to
    [seen]. *)
Definition ends (key seen : Z) {A : Type} (m : M A) : Prop :=
  forall w x w', m w = Some (x, w') ->
    deadline w' = deadline w
    /\ (forall k, k <> key -> repCount w' k = repCount w k)
    /\ repCount w' key = toInt32 seen.

(** ** The root driver, pass by pass *)





(** ** How far a game can still go *)








(** * Properties *)

Ltac zbool :=
  repeat match goal with
  | H : (_ =? _) = true |- _ => apply Z.eqb_eq in H
  | H : (_ =? _) = false |- _ => apply Z.eqb_neq in H
  | H : (_ <=? _) = true |- _ => apply Z.leb_le in H
  | H : (_ <=? _) = false |- _ => apply Z.leb_gt in H
  | H : (_ <? _) = true |- _ => apply Z.ltb_lt in H
  | H : (_ <? _) = false |- _ => apply Z.ltb_ge in H
  end.

(** ** Equality tests *)

Lemma Color_eqb_eq a b : Color_eqb a b = true <-> a = b.
Proof. destruct a, b; simpl; split; congruence. Qed.

Lemma Kind_eqb_eq a b : Kind_eqb a b = true <-> a = b.
Proof. destruct a, b; simpl; split; congruence. Qed.

Lemma Color_eqb_refl a : Color_eqb a a = true.
Proof. by destruct a. Qed.

Lemma Kind_eqb_refl a : Kind_eqb a a = true.
Proof. by destruct a. Qed.

(** ** Reading and writing the board array *)

Lemma rd_wr (b : Board) (i j : Z) (v : Cell) :
  rd (wr b i v) j = if (i =? j) && (0 <=? i) then v else rd b j.
Proof.
  unfold rd, wr.
  destruct (Z.ltb_spec i 0) as [Hi|Hi].
  - replace (0 <=? i) with false by (symmetry; apply Z.leb_gt; lia).
    by rewrite andb_false_r.
  - replace (0 <=? i) with true by (symmetry; apply Z.leb_le; lia).
    rewrite andb_true_r.
    destruct (Z.eqb_spec i j) as [->|Hij].
    + replace (j <? 0) with false by (symmetry; apply Z.ltb_ge; lia).
      destruct (Z.ltb_spec j (Z.of_nat (length b))) as [Hl|Hl]; cbn iota.
      * rewrite list_lookup_insert_eq; [done | lia].
      * rewrite lookup_app_r by lia.
        rewrite lookup_app_r by (rewrite repeat_length; lia).
        rewrite repeat_length.
        by replace (Z.to_nat j - length b - (Z.to_nat j - length b))%nat
          with 0%nat by lia.
    + destruct (Z.ltb_spec j 0) as [Hj|Hj]; [done |].
      destruct (Z.ltb_spec i (Z.of_nat (length b))) as [Hl|Hl]; cbn iota.
      * rewrite list_lookup_insert_ne; [done | lia].
      * destruct (decide (Z.to_nat j < length b)%nat) as [Hjl|Hjl].
        { by rewrite lookup_app_l by lia. }
        rewrite (lookup_ge_None_2 b) by lia.
        destruct ((b ++ repeat None (Z.to_nat i - length b) ++ [v])
                    !! Z.to_nat j) as [x|] eqn:E; [| done].
        rewrite lookup_app_r in E by lia.
        destruct (decide (Z.to_nat j - length b < Z.to_nat i - length b)%nat)
          as [Hp|Hp].
        { rewrite lookup_app_l in E by (rewrite repeat_length; lia).
          apply list_elem_of_lookup_2, list_elem_of_In, repeat_spec in E.
          by subst. }
        rewrite lookup_app_r in E by (rewrite repeat_length; lia).
        rewrite repeat_length in E.
        apply lookup_lt_Some in E. simpl in E. lia.
Qed.

Lemma wr_inside (b : Board) (i : Z) (v : Cell) :
  0 <= i < Z.of_nat (length b) -> wr b i v = <[Z.to_nat i := v]> b.
Proof.
  intros H. unfold wr.
  replace (i <? 0) with false by (symmetry; apply Z.ltb_ge; lia).
  by replace (i <? Z.of_nat (length b)) with true
    by (symmetry; apply Z.ltb_lt; lia).
Qed.

Lemma length_wr_inside (b : Board) (i : Z) (v : Cell) :
  0 <= i < Z.of_nat (length b) -> length (wr b i v) = length b.
Proof. intros H. rewrite wr_inside by done. apply length_insert. Qed.

(** Two arrays of the same length that read alike are the same array. *)
Lemma board_ext (b1 b2 : Board) :
  length b1 = length b2 -> (forall i, rd b1 i = rd b2 i) -> b1 = b2.
Proof.
  intros Hlen Hrd. apply list_eq. intros n.
  specialize (Hrd (Z.of_nat n)). unfold rd in Hrd.
  replace (Z.of_nat n <? 0) with false in Hrd by (symmetry; apply Z.ltb_ge; lia).
  rewrite Nat2Z.id in Hrd.
  destruct (decide (n < length b1)%nat) as [Hn|Hn].
  - destruct (lookup_lt_is_Some_2 b1 n Hn) as [x Hx].
    destruct (lookup_lt_is_Some_2 b2 n ltac:(lia)) as [y Hy].
    rewrite Hx, Hy in *. by subst.
  - rewrite !lookup_ge_None_2 by lia. done.
Qed.

Lemma rd_outside (b : Board) (i : Z) :
  ~ (0 <= i < Z.of_nat (length b)) -> rd b i = None.
Proof.
  intros H. unfold rd. destruct (Z.ltb_spec i 0); [done |].
  by rewrite lookup_ge_None_2 by lia.
Qed.

Lemma rd_Some_inside (b : Board) (i : Z) (p : Piece) :
  rd b i = Some p -> 0 <= i < Z.of_nat (length b).
Proof.
  intros H. destruct (decide (0 <= i < Z.of_nat (length b))); [done |].
  by rewrite rd_outside in H.
Qed.

(** ** The do/undo check leaves the position as it found it *)

Lemma leavesKingInCheck_reads (s : State) (from to : Z) (known : option Z) (i : Z) :
  rd (board (snd (leavesKingInCheck s from to known))) i = rd (board s) i.
Proof.
  unfold leavesKingInCheck.
  destruct (rd (board s) from) as [mover|] eqn:Hm; [| done].
  pose proof (rd_Some_inside _ _ _ Hm) as Hfrom.
  cbn [snd set_board board].
  generalize (toIndex (rankOf to - moveDir (c mover)) (fileOf to)); intros cap.
  destruct (isEPmove s mover from to);
    [destruct (cap =? -1) eqn:Hc | ]; rewrite ?Z.eqb_refl; cbn [negb];
    rewrite ?rd_wr;
    repeat match goal with
    | |- context [?a =? ?b] => destruct (a =? b) eqn:?
    | |- context [?a <=? ?b] => destruct (a <=? b) eqn:?
    end; cbn [andb]; zbool; subst; try congruence; try lia.
Qed.

Lemma leavesKingInCheck_fields (s : State) (from to : Z) (known : option Z) :
  let s' := snd (leavesKingInCheck s from to known) in
  turn s' = turn s /\ castleRight s' = castleRight s /\ ep s' = ep s
  /\ halfmove s' = halfmove s /\ fullmove s' = fullmove s.
Proof.
  unfold leavesKingInCheck.
  destruct (rd (board s) from); cbn; auto.
Qed.

(** C10.  After [leavesKingInCheck(state, from, to)] returns, every
    square of [state.board] holds what it held before the call, the pawn
    taken en passant included, and [turn], [castleRight], [ep],
    [halfmove] and [fullmove] are unchanged; this for every state, every
    origin square (with or without a piece on it), every destination and
    every known-king argument. *)
Theorem leavesKingInCheck_side_effect_free
  (s : State) (from to : Z) (known : option Z) :
  let s' := snd (leavesKingInCheck s from to known) in
  (forall i, rd (board s') i = rd (board s) i)
  /\ turn s' = turn s /\ castleRight s' = castleRight s /\ ep s' = ep s
  /\ halfmove s' = halfmove s /\ fullmove s' = fullmove s.
Proof.
  split.
  - intros i. apply leavesKingInCheck_reads.
  - apply leavesKingInCheck_fields.
Qed.

(** ** Squares, ranks and files *)

Lemma state_eq (s1 s2 : State) :
  board s1 = board s2 -> turn s1 = turn s2 ->
  castleRight s1 = castleRight s2 -> ep s1 = ep s2 ->
  halfmove s1 = halfmove s2 -> fullmove s1 = fullmove s2 -> s1 = s2.
Proof. destruct s1, s2; simpl; intros; by subst. Qed.

Lemma rank_file_range (i : Z) :
  0 <= i < 64 -> 0 <= rankOf i < 8 /\ 0 <= fileOf i < 8.
Proof.
  intros H. unfold rankOf, fileOf.
  rewrite Z.rem_mod_nonneg by lia.
  pose proof (Z.mod_pos_bound i 8 ltac:(lia)).
  split; [split; [apply Z.div_pos; lia | apply Z.div_lt_upper_bound; lia] | lia].
Qed.

Lemma toIndex_rank_file (i : Z) : 0 <= i -> toIndex (rankOf i) (fileOf i) = i.
Proof.
  intros H. unfold toIndex, rankOf, fileOf.
  rewrite Z.rem_mod_nonneg by lia.
  pose proof (Z.div_mod i 8 ltac:(lia)). lia.
Qed.

Lemma rank_toIndex (r f : Z) : 0 <= f < 8 -> rankOf (toIndex r f) = r.
Proof.
  intros H. unfold rankOf, toIndex.
  rewrite Z.div_add_l by lia. rewrite Z.div_small by lia. lia.
Qed.

Lemma file_toIndex (r f : Z) : 0 <= r -> 0 <= f < 8 -> fileOf (toIndex r f) = f.
Proof.
  intros Hr H. unfold fileOf, toIndex.
  rewrite Z.rem_mod_nonneg by lia.
  rewrite Z.add_comm, Z.mod_add by lia. apply Z.mod_small; lia.
Qed.

Lemma onBoard_spec (r f : Z) :
  onBoard r f = true <-> 0 <= r < 8 /\ 0 <= f < 8.
Proof.
  unfold onBoard. rewrite !andb_true_iff, !Z.leb_le, !Z.ltb_lt. lia.
Qed.

Lemma onBoard_toIndex (r f : Z) : onBoard r f = true -> 0 <= toIndex r f < 64.
Proof. rewrite onBoard_spec. unfold toIndex. lia. Qed.

Lemma length_wr_64 (b : Board) (i : Z) (v : Cell) :
  0 <= i < 64 -> length b = 64%nat -> length (wr b i v) = 64%nat.
Proof. intros Hi Hb. rewrite length_wr_inside; [done | lia]. Qed.

(** Under the stated conditions the do/undo check restores the very same
    state, not only the same readings. *)
Lemma leavesKingInCheck_restores (s : State) (from to : Z) (known : option Z) :
  length (board s) = 64%nat ->
  0 <= to < 64 ->
  (forall mover, rd (board s) from = Some mover ->
     isEPmove s mover from to = true ->
     0 <= toIndex (rankOf to - moveDir (c mover)) (fileOf to) < 64) ->
  snd (leavesKingInCheck s from to known) = s.
Proof.
  intros Hlen Hto Hcap.
  destruct (leavesKingInCheck_fields s from to known) as (H1 & H2 & H3 & H4 & H5).
  apply state_eq; try done.
  apply board_ext; [| intros i; apply leavesKingInCheck_reads].
  rewrite Hlen.
  unfold leavesKingInCheck.
  destruct (rd (board s) from) as [mover|] eqn:Hm; [| done].
  pose proof (rd_Some_inside _ _ _ Hm) as Hfrom.
  specialize (Hcap mover eq_refl).
  cbn [snd set_board board].
  destruct (isEPmove s mover from to).
  - specialize (Hcap eq_refl).
    destruct (_ =? -1); cbn [negb];
      repeat (apply length_wr_64; [lia |]); done.
  - rewrite Z.eqb_refl. cbn [negb].
    repeat (apply length_wr_64; [lia |]); done.
Qed.

(** ** What the pseudo-move generators produce *)

Lemma canLand_blocked (s : State) (col : Color) (i : Z) :
  canLand s col i = true -> blocked s col i = false.
Proof.
  unfold canLand, blocked. destruct (rd (board s) i); [| done].
  by intros ->%negb_true_iff.
Qed.

Lemma stepMoves_targets (s : State) (col : Color) (r f : Z)
  (deltas : list (Z * Z)) (to : Z) :
  In to (stepMoves s col r f deltas) ->
  0 <= to < 64 /\ blocked s col to = false.
Proof.
  induction deltas as [|[dr df] rest IH]; simpl; [done |].
  destruct (onBoard (r + dr) (f + df)) eqn:Hob; simpl; [| done].
  destruct (canLand s col (toIndex (r + dr) (f + df))) eqn:Hcl; [| done].
  intros [<- | Hin]; [| by apply IH].
  split; [by apply onBoard_toIndex | by apply canLand_blocked].
Qed.

Lemma slide_targets (s : State) (col : Color) (r f dr df : Z)
  (steps : list Z) (to : Z) :
  In to (slide s col r f dr df steps) ->
  0 <= to < 64 /\ blocked s col to = false.
Proof.
  induction steps as [|k rest IH]; simpl; [done |].
  destruct (onBoard (r + dr * k) (f + df * k)) eqn:Hob; simpl; [| done].
  destruct (blocked s col (toIndex (r + dr * k) (f + df * k))) eqn:Hbl; [done |].
  intros [<- | Hin].
  - split; [by apply onBoard_toIndex | done].
  - destruct (occupied _); [done | by apply IH].
Qed.

Lemma slideMoves_targets (s : State) (col : Color) (r f : Z)
  (deltas : list (Z * Z)) (to : Z) :
  In to (slideMoves s col r f deltas) ->
  0 <= to < 64 /\ blocked s col to = false.
Proof.
  unfold slideMoves. rewrite in_flat_map. intros (d & _ & Hin).
  by apply slide_targets in Hin.
Qed.

Lemma isEPmove_not_pawn (s : State) (mover : Piece) (i to : Z) :
  t mover <> P -> isEPmove s mover i to = false.
Proof. unfold isEPmove. destruct (t mover); try done; by intros []. Qed.

Lemma isEPmove_same_file (s : State) (mover : Piece) (i to : Z) :
  fileOf i = fileOf to -> isEPmove s mover i to = false.
Proof.
  intros H. unfold isEPmove. rewrite H, Z.eqb_refl. cbn.
  by rewrite andb_false_r.
Qed.

Lemma isEPmove_occupied (s : State) (mover : Piece) (i to : Z) :
  occupied (rd (board s) to) = true -> isEPmove s mover i to = false.
Proof. intros H. unfold isEPmove. rewrite H. cbn. by rewrite andb_false_r. Qed.

Lemma target_ok_plain (s : State) (i to : Z) (p : Piece) :
  rd (board s) i = Some p ->
  0 <= to < 64 -> blocked s (c p) to = false ->
  isEPmove s p i to = false ->
  target_ok s i to.
Proof.
  intros Hp Hto Hbl Hep. split; [done |].
  intros mover Hm. rewrite Hp in Hm. injection Hm as <-.
  split; [done |]. by rewrite Hep.
Qed.

Lemma blocked_empty (s : State) (col : Color) (i : Z) :
  isEmptyAt s i = true -> blocked s col i = false.
Proof. unfold isEmptyAt, blocked. by destruct (rd (board s) i). Qed.

Lemma kingMoves_targets (s : State) (i to : Z) (p : Piece) :
  rd (board s) i = Some p -> t p = K ->
  In to (kingMoves s i) -> 0 <= to < 64 /\ blocked s (c p) to = false.
Proof.
  intros Hp Hk. unfold kingMoves. rewrite Hp, Hk. cbn [Kind_eqb negb].
  assert (Hside : forall rk ks qs me r, (rk = 7 \/ rk = 0) ->
    In to
      ((if includes (castleRight s) ks
           && isEmptyAt s (toIndex rk 5) && isEmptyAt s (toIndex rk 6)
           && negb (isSquareAttacked s (toIndex r 4) (opposite (c p)))
           && negb (isSquareAttacked s (toIndex rk 5) (opposite (c p)))
           && negb (isSquareAttacked s (toIndex rk 6) (opposite (c p)))
           && isPiece (rd (board s) (toIndex rk 7)) me R
        then [toIndex rk 6] else [])
       ++
       (if includes (castleRight s) qs
           && isEmptyAt s (toIndex rk 3) && isEmptyAt s (toIndex rk 2)
           && isEmptyAt s (toIndex rk 1)
           && negb (isSquareAttacked s (toIndex r 4) (opposite (c p)))
           && negb (isSquareAttacked s (toIndex rk 3) (opposite (c p)))
           && negb (isSquareAttacked s (toIndex rk 2) (opposite (c p)))
           && isPiece (rd (board s) (toIndex rk 0)) me R
        then [toIndex rk 2] else [])) ->
    0 <= to < 64 /\ blocked s (c p) to = false).
  { intros rk ks qs me r Hrk. rewrite in_app_iff.
    intros [Hin | Hin].
    - destruct (_ && _) eqn:Hc in Hin; [| done].
      destruct Hin as [<- | []].
      rewrite !andb_true_iff in Hc.
      destruct Hc as ((((((_ & _) & He) & _) & _) & _) & _).
      split; [unfold toIndex; lia | by apply blocked_empty].
    - destruct (_ && _) eqn:Hc in Hin; [| done].
      destruct Hin as [<- | []].
      rewrite !andb_true_iff in Hc.
      destruct Hc as (((((((_ & _) & He) & _) & _) & _) & _) & _).
      split; [unfold toIndex; lia | by apply blocked_empty]. }
  destruct (c p) eqn:Hc;
    (destruct (_ && _); cbn [negb];
     [ rewrite in_app_iff; intros [Hin | Hin];
       [ by apply stepMoves_targets in Hin
       | eapply Hside; [| exact Hin]; lia ]
     | by intros Hin%stepMoves_targets ]).
Qed.

Lemma Color_eqb_opposite (a b : Color) :
  Color_eqb a b = false -> Color_eqb a (opposite b) = true.
Proof. by destruct a, b. Qed.

Lemma pawnMoves_targets (s : State) (i to : Z) (p : Piece) :
  wf_state s -> 0 <= i < 64 ->
  rd (board s) i = Some p -> t p = P ->
  In to (pawnMoves s i) -> target_ok s i to.
Proof.
  intros [Hlen Hep] Hi Hp Hk. unfold pawnMoves. rewrite Hp, Hk.
  cbn [Kind_eqb negb].
  destruct (rank_file_range i Hi) as [Hr Hf].
  assert (Hcapt : forall df,
    In to (if onBoard (rankOf i + moveDir (c p)) (fileOf i + df)
           then match rd (board s)
                        (toIndex (rankOf i + moveDir (c p)) (fileOf i + df)) with
                | Some q =>
                    if negb (Color_eqb (c q) (c p))
                    then [toIndex (rankOf i + moveDir (c p)) (fileOf i + df)]
                    else []
                | None => []
                end
           else []) -> target_ok s i to).
  { intros df.
    destruct (onBoard _ _) eqn:Hob; [| done].
    destruct (rd (board s) (toIndex _ _)) as [q|] eqn:Hq; [| done].
    destruct (Color_eqb (c q) (c p)) eqn:Hc; [done |].
    intros [<- | []].
    apply (target_ok_plain s i _ p Hp).
    - by apply onBoard_toIndex.
    - unfold blocked. by rewrite Hq.
    - apply isEPmove_occupied. by rewrite Hq. }
  rewrite !in_app_iff. intros [Hin | [Hin | [Hin | Hin]]].
  - destruct (onBoard _ _) eqn:Hob; [| done].
    apply onBoard_spec in Hob.
    destruct (isEmptyAt s (toIndex (rankOf i + moveDir (c p)) (fileOf i))) eqn:He;
      [| done].
    destruct Hin as [<- | Hin].
    + apply (target_ok_plain s i _ p Hp).
      * unfold toIndex; lia.
      * by apply blocked_empty.
      * apply isEPmove_same_file. rewrite file_toIndex; [done | lia | lia].
    + destruct (rankOf i =? _) eqn:Hst; [| done].
      destruct (isEmptyAt s (toIndex (rankOf i + 2 * moveDir (c p)) (fileOf i)))
        eqn:He2; [| done].
      destruct Hin as [<- | []].
      apply Z.eqb_eq in Hst.
      assert (0 <= rankOf i + 2 * moveDir (c p) < 8)
        by (destruct (c p); simpl in *; lia).
      apply (target_ok_plain s i _ p Hp).
      * unfold toIndex; lia.
      * by apply blocked_empty.
      * apply isEPmove_same_file. rewrite file_toIndex; [done | lia | lia].
  - by apply Hcapt in Hin.
  - by apply Hcapt in Hin.
  - destruct (ep s) as [e|] eqn:He; [| done].
    destruct (Hep e eq_refl) as [Herange Heempty].
    destruct ((rankOf e =? rankOf i + moveDir (c p))
              && (Z.abs (fileOf e - fileOf i) =? 1)) eqn:Hgeo; [| done].
    apply andb_true_iff in Hgeo as [Hrk _]. apply Z.eqb_eq in Hrk.
    destruct (rd (board s) (toIndex (rankOf i) (fileOf e))) as [adj|] eqn:Hadj;
      [| done].
    destruct (Kind_eqb (t adj) P && negb (Color_eqb (c adj) (c p))) eqn:Hadjp;
      [| done].
    destruct Hin as [<- | []].
    apply andb_true_iff in Hadjp as [Hpk Hpc].
    apply negb_true_iff in Hpc.
    split; [done |].
    intros mover Hm. rewrite Hp in Hm. injection Hm as <-.
    split.
    + unfold blocked. by rewrite Heempty.
    + intros _. unfold epCaptureSquare.
      replace (rankOf e - moveDir (c p)) with (rankOf i) by lia.
      destruct (rank_file_range e Herange) as [_ Hef].
      split; [unfold toIndex; lia |].
      rewrite Hadj. unfold isPiece.
      by rewrite Color_eqb_opposite, Hpk.
Qed.

Lemma generateMoves_targets (s : State) (i to : Z) :
  wf_state s -> 0 <= i < 64 ->
  In to (generateMoves s i) -> target_ok s i to.
Proof.
  intros Hwf Hi. unfold generateMoves.
  destruct (rd (board s) i) as [p|] eqn:Hp; [| done].
  destruct (t p) eqn:Hk.
  - by apply (pawnMoves_targets s i to p).
  - unfold knightMoves. rewrite Hp, Hk. cbn [Kind_eqb].
    intros [Hto Hbl]%stepMoves_targets.
    apply (target_ok_plain s i to p Hp Hto Hbl).
    apply isEPmove_not_pawn. by rewrite Hk.
  - unfold bishopMoves. rewrite Hp, Hk. cbn [Kind_eqb].
    intros [Hto Hbl]%slideMoves_targets.
    apply (target_ok_plain s i to p Hp Hto Hbl).
    apply isEPmove_not_pawn. by rewrite Hk.
  - unfold rookMoves. rewrite Hp, Hk. cbn [Kind_eqb].
    intros [Hto Hbl]%slideMoves_targets.
    apply (target_ok_plain s i to p Hp Hto Hbl).
    apply isEPmove_not_pawn. by rewrite Hk.
  - unfold queenMoves. rewrite Hp, Hk. cbn [Kind_eqb].
    intros [Hto Hbl]%slideMoves_targets.
    apply (target_ok_plain s i to p Hp Hto Hbl).
    apply isEPmove_not_pawn. by rewrite Hk.
  - intros Hin. destruct (kingMoves_targets s i to p Hp Hk Hin) as [Hto Hbl].
    apply (target_ok_plain s i to p Hp Hto Hbl).
    apply isEPmove_not_pawn. by rewrite Hk.
Qed.

(** ** The legal-move loops *)

Lemma target_ok_restores (s : State) (i to : Z) (known : option Z) :
  wf_state s -> target_ok s i to ->
  snd (leavesKingInCheck s i to known) = s.
Proof.
  intros [Hlen _] [Hto Hm]. apply leavesKingInCheck_restores; [done | done |].
  intros mover Hmv Hep. destruct (Hm mover Hmv) as [_ Hcap].
  by destruct (Hcap Hep).
Qed.

Lemma filterLegal_spec (s : State) (i kingSq : Z) (keep : Z -> bool)
  (pseudo : list Z) :
  wf_state s ->
  (forall to, In to pseudo -> target_ok s i to) ->
  snd (filterLegal s i kingSq keep pseudo) = s
  /\ forall from to, In (from, to) (fst (filterLegal s i kingSq keep pseudo)) ->
       from = i /\ In to pseudo
       /\ fst (leavesKingInCheck s i to (Some kingSq)) = false.
Proof.
  intros Hwf. induction pseudo as [|x rest IH]; intros Hok; [done |].
  assert (Hrest : forall to, In to rest -> target_ok s i to)
    by (intros; apply Hok; by right).
  destruct (IH Hrest) as [IHs IHm].
  assert (IHm' : forall from to,
    In (from, to) (fst (filterLegal s i kingSq keep rest)) ->
    from = i /\ In to (x :: rest)
    /\ fst (leavesKingInCheck s i to (Some kingSq)) = false).
  { intros from to Hin. destruct (IHm from to Hin) as (? & ? & ?).
    split; [done | split; [by right | done]]. }
  cbn [filterLegal].
  destruct (keep x); cbn [negb]; [| by split].
  pose proof (target_ok_restores s i x (Some kingSq) Hwf (Hok x (or_introl eq_refl)))
    as Hres.
  destruct (leavesKingInCheck s i x (Some kingSq)) as [ill s1] eqn:E.
  cbn [snd] in Hres. subst s1.
  destruct (filterLegal s i kingSq keep rest) as [ms s2] eqn:E2.
  cbn [fst snd] in *. split; [done |].
  intros from to Hin.
  destruct ill; cbn [negb] in Hin; [by apply IHm' |].
  destruct Hin as [Heq | Hin]; [| by apply IHm'].
  injection Heq as <- <-. rewrite E.
  split; [done | split; [by left | done]].
Qed.

Lemma scanMoves_spec (s : State) (col : Color) (kingSq : Z) (n : nat)
  (checkerSq : Z) (blockSquares : option (list Z)) (pins : gmap Z (Z * Z))
  (idxs : list Z) :
  wf_state s ->
  (forall i, In i idxs -> 0 <= i < 64) ->
  snd (scanMoves s col kingSq n checkerSq blockSquares pins idxs) = s
  /\ forall m,
       In m (fst (scanMoves s col kingSq n checkerSq blockSquares pins idxs)) ->
       checked_move s col kingSq m.
Proof.
  intros Hwf. induction idxs as [|i rest IH]; intros Hidx; [done |].
  assert (Hrest : forall j, In j rest -> 0 <= j < 64)
    by (intros; apply Hidx; by right).
  destruct (IH Hrest) as [IHs IHm].
  cbn [scanMoves].
  destruct (rd (board s) i) as [p|] eqn:Hp; [| done].
  destruct (Color_eqb (c p) col) eqn:Hc; cbn [negb]; [| done].
  apply Color_eqb_eq in Hc.
  match goal with
  | |- context [filterLegal s i kingSq ?k (generateMoves s i)] =>
      destruct (filterLegal_spec s i kingSq k (generateMoves s i) Hwf) as [Hfs Hfm];
      [ intros to Hin; apply generateMoves_targets;
        [done | apply Hidx; by left | done] |];
      destruct (filterLegal s i kingSq k (generateMoves s i)) as [ms s1] eqn:E
  end.
  cbn [fst snd] in *. subst s1.
  destruct (scanMoves s col kingSq n checkerSq blockSquares pins rest)
    as [ms' s2] eqn:E2.
  cbn [fst snd] in *. split; [done |].
  intros [from to]. rewrite in_app_iff. intros [Hin | Hin].
  - destruct (Hfm from to Hin) as (-> & Hg & Hl).
    pose proof (Hidx i (or_introl eq_refl)).
    unfold checked_move; cbn [fst snd]. split; [done | split; [by exists p | by split]].
  - by apply IHm.
Qed.

Lemma generateMoves_king (s : State) (i : Z) (col : Color) :
  isPiece (rd (board s) i) col K = true ->
  generateMoves s i = kingMoves s i
  /\ exists p, rd (board s) i = Some p /\ c p = col.
Proof.
  unfold isPiece, generateMoves.
  destruct (rd (board s) i) as [p|] eqn:Hp; [| done].
  intros [Hc Hk]%andb_true_iff.
  apply Color_eqb_eq in Hc. apply Kind_eqb_eq in Hk.
  rewrite Hk. split; [done | by exists p].
Qed.

Lemma kingOnlyMoves_spec (s : State) (col : Color) (kingSq : Z) (idxs : list Z) :
  wf_state s ->
  (forall i, In i idxs -> 0 <= i < 64) ->
  snd (kingOnlyMoves s col kingSq idxs) = s
  /\ forall m, In m (fst (kingOnlyMoves s col kingSq idxs)) ->
       checked_move s col kingSq m.
Proof.
  intros Hwf. induction idxs as [|i rest IH]; intros Hidx; [done |].
  assert (Hrest : forall j, In j rest -> 0 <= j < 64)
    by (intros; apply Hidx; by right).
  cbn [kingOnlyMoves].
  destruct (isPiece (rd (board s) i) col K) eqn:Hk; [| by apply IH].
  destruct (generateMoves_king s i col Hk) as [Hg Hp].
  destruct (filterLegal_spec s i kingSq (fun _ => true) (kingMoves s i) Hwf)
    as [Hfs Hfm].
  { intros to Hin. apply generateMoves_targets;
      [done | apply Hidx; by left | by rewrite Hg]. }
  split; [done |].
  intros [from to] Hin. destruct (Hfm from to Hin) as (-> & Hin' & Hl).
  pose proof (Hidx i (or_introl eq_refl)).
  unfold checked_move; cbn [fst snd]. split; [done | split; [done | split; [by rewrite Hg | done]]].
Qed.

Lemma squares_range (i : Z) : In i squares -> 0 <= i < 64.
Proof.
  unfold squares. rewrite in_map_iff. intros (n & <- & Hn).
  apply in_seq in Hn. lia.
Qed.

(** On a well-formed position [allLegalMoves] hands the state back
    unchanged, and every move it returns went through the do/undo check
    with the king square found at entry. *)
Lemma allLegalMovesSt_spec (s : State) (col : Color) :
  wf_state s ->
  snd (allLegalMovesSt s col) = s
  /\ forall m, In m (allLegalMoves s col) ->
       findKing s col <> -1 /\ checked_move s col (findKing s col) m.
Proof.
  intros Hwf. unfold allLegalMoves, allLegalMovesSt.
  destruct (findKing s col =? -1) eqn:Hk; [done |].
  apply Z.eqb_neq in Hk.
  destruct (2 <=? length (attackersToSquare s (findKing s col) (opposite col)))%nat.
  - destruct (kingOnlyMoves_spec s col (findKing s col) squares Hwf squares_range)
      as [Hs Hm].
    split; [done |]. intros m Hin. split; [done | by apply Hm].
  - match goal with
    | |- context [scanMoves s col ?k ?n ?cs ?bs ?pins squares] =>
        destruct (scanMoves_spec s col k n cs bs pins squares Hwf squares_range)
          as [Hs Hm]
    end.
    split; [done |]. intros m Hin. split; [done | by apply Hm].
Qed.

(** ** The known-king argument is only a shortcut *)

Lemma findKingIn_ext (b1 b2 : Board) (col : Color) (idxs : list Z) :
  (forall i, isPiece (rd b1 i) col K = isPiece (rd b2 i) col K) ->
  findKingIn b1 col idxs = findKingIn b2 col idxs.
Proof.
  intros H. induction idxs as [|i rest IH]; [done |].
  simpl. by rewrite H, IH.
Qed.

Lemma isPiece_blocked (s : State) (col : Color) (k : Kind) (i : Z) :
  blocked s col i = false -> isPiece (rd (board s) i) col k = false.
Proof.
  unfold blocked, isPiece. destruct (rd (board s) i); [| done].
  by intros ->.
Qed.

Lemma isPiece_other (x : Cell) (col : Color) (k : Kind) :
  isPiece x (opposite col) P = true -> isPiece x col k = false.
Proof.
  unfold isPiece. destruct x as [q|]; [| done].
  intros [Hc _]%andb_true_iff. apply Color_eqb_eq in Hc.
  rewrite Hc. by destruct col.
Qed.

Lemma leavesKingInCheck_known (s : State) (from to : Z) (p : Piece) :
  rd (board s) from = Some p ->
  target_ok s from to ->
  fst (leavesKingInCheck s from to (Some (findKing s (c p))))
  = fst (leavesKingInCheck s from to None).
Proof.
  intros Hp [Hto Hok]. destruct (Hok p Hp) as [Hbl Hep].
  pose proof (rd_Some_inside _ _ _ Hp) as Hfrom.
  unfold leavesKingInCheck. rewrite Hp. cbn [fst].
  destruct (Kind_eqb (t p) K) eqn:Hk; [done |].
  f_equal. unfold findKing. cbn [board set_board].
  symmetry. apply findKingIn_ext. intros i.
  assert (Hmover : forall col, isPiece (Some p) col K = false).
  { intros col. unfold isPiece. by rewrite Hk, andb_false_r. }
  fold (epCaptureSquare p to).
  destruct (isEPmove s p from to) eqn:Hisep.
  - destruct (Hep eq_refl) as [Hcap Hpawn].
    apply isPiece_other with (k := K) in Hpawn.
    destruct (epCaptureSquare p to =? -1) eqn:Hc1; cbn [negb];
      rewrite ?rd_wr;
      repeat match goal with
      | |- context [?a =? ?b] => destruct (a =? b) eqn:?
      | |- context [?a <=? ?b] => destruct (a <=? b) eqn:?
      end; cbn [andb]; zbool; subst;
      rewrite ?Hmover, ?Hp, ?Hmover, ?Hpawn, ?(isPiece_blocked s _ K _ Hbl);
      try done; try lia.
  - rewrite Z.eqb_refl. cbn [negb]. rewrite ?rd_wr.
    repeat match goal with
    | |- context [?a =? ?b] => destruct (a =? b) eqn:?
    | |- context [?a <=? ?b] => destruct (a <=? b) eqn:?
    end; cbn [andb]; zbool; subst;
    rewrite ?Hmover, ?Hp, ?Hmover, ?(isPiece_blocked s _ K _ Hbl);
    try done; try lia.
Qed.

(** ** Applying a returned move *)

(** An attack of [e] seen through covering cells is an attack on the
    other board as well. *)
Lemma isPiece_covers (e : Color) (x y : Cell) (k : Kind) :
  covers e x y -> isPiece x e k = true -> isPiece y e k = true.
Proof.
  intros [-> | (q & -> & Hq)]; [done |].
  unfold isPiece. by rewrite Hq.
Qed.

Lemma stepAttack_covers (b' b : Board) (e : Color) (k : Kind) (r f : Z)
  (deltas : list (Z * Z)) :
  (forall i, covers e (rd b' i) (rd b i)) ->
  stepAttack b' e k r f deltas = true -> stepAttack b e k r f deltas = true.
Proof.
  intros H. unfold stepAttack. rewrite !existsb_exists.
  intros (d & Hd & [Hob Hp]%andb_true_iff). exists d. split; [done |].
  rewrite Hob. by apply (isPiece_covers e _ _ k (H _)).
Qed.

Lemma rayAttack_covers (b' b : Board) (e : Color) (k : Kind) (r f dr df : Z)
  (steps : list Z) :
  (forall i, covers e (rd b' i) (rd b i)) ->
  rayAttack b' e k r f dr df steps = true ->
  rayAttack b e k r f dr df steps = true.
Proof.
  intros H. induction steps as [|n rest IH]; [done |].
  cbn [rayAttack].
  destruct (onBoard (r + dr * n) (f + df * n)); cbn [negb]; [| done].
  destruct (H (toIndex (r + dr * n) (f + df * n))) as [-> | (q & -> & Hq)].
  - destruct (rd b _); [done | exact IH].
  - by rewrite Hq.
Qed.

Lemma isSquareAttacked_covers (s' s : State) (i : Z) (e : Color) :
  (forall j, covers e (rd (board s') j) (rd (board s) j)) ->
  isSquareAttacked s' i e = true -> isSquareAttacked s i e = true.
Proof.
  intros H. unfold isSquareAttacked. rewrite !orb_true_iff, !existsb_exists.
  intros [[[[Hp | Hn] | (d & Hd & Hr)] | (d & Hd & Hr)] | Hk].
  - left; left; left; left. by apply (stepAttack_covers _ _ _ _ _ _ _ H).
  - left; left; left; right. by apply (stepAttack_covers _ _ _ _ _ _ _ H).
  - left; left; right. exists d. split; [done |].
    by apply (rayAttack_covers _ _ _ _ _ _ _ _ _ H).
  - left; right. exists d. split; [done |].
    by apply (rayAttack_covers _ _ _ _ _ _ _ _ _ H).
  - right. by apply (stepAttack_covers _ _ _ _ _ _ _ H).
Qed.

(** The same when one more square, a corner, has been emptied: no ray
    goes on beyond a corner. *)
Lemma stepAttack_corner (b' b : Board) (e : Color) (k : Kind) (r f corner : Z)
  (deltas : list (Z * Z)) :
  (forall i, i <> corner -> covers e (rd b' i) (rd b i)) ->
  rd b' corner = None ->
  stepAttack b' e k r f deltas = true -> stepAttack b e k r f deltas = true.
Proof.
  intros H Hc. unfold stepAttack. rewrite !existsb_exists.
  intros (d & Hd & [Hob Hp]%andb_true_iff). exists d. split; [done |].
  rewrite Hob. cbn [andb].
  destruct (Z.eq_dec (toIndex (r + fst d) (f + snd d)) corner) as [E|E].
  - by rewrite E, Hc in Hp.
  - by apply (isPiece_covers e _ _ k (H _ E)).
Qed.

Lemma rayAttack_corner (b' b : Board) (e : Color) (k : Kind)
  (r f dr df corner : Z) (steps : list Z) :
  (forall i, i <> corner -> covers e (rd b' i) (rd b i)) ->
  rd b' corner = None ->
  stopsAt corner r f dr df steps = true ->
  rayAttack b' e k r f dr df steps = true ->
  rayAttack b e k r f dr df steps = true.
Proof.
  intros H Hc. induction steps as [|n rest IH]; [done |].
  cbn [rayAttack stopsAt].
  destruct (onBoard (r + dr * n) (f + df * n)); cbn [negb andb]; [| done].
  destruct (Z.eqb_spec (toIndex (r + dr * n) (f + df * n)) corner) as [E|E].
  - rewrite E, Hc. destruct rest as [|m rest']; [done |].
    cbn [rayAttack]. by intros ->.
  - destruct (H _ E) as [-> | (q & -> & Hq)].
    + destruct (rd b _); [done | exact IH].
    + by rewrite Hq.
Qed.

Lemma isSquareAttacked_corner (s' s : State) (i corner : Z) (e : Color) :
  (forall j, j <> corner -> covers e (rd (board s') j) (rd (board s) j)) ->
  rd (board s') corner = None ->
  cornerRays corner i = true ->
  isSquareAttacked s' i e = true -> isSquareAttacked s i e = true.
Proof.
  intros H Hc Hrays. unfold cornerRays in Hrays.
  rewrite forallb_forall in Hrays.
  unfold isSquareAttacked. rewrite !orb_true_iff, !existsb_exists.
  intros [[[[Hp | Hn] | (d & Hd & Hr)] | (d & Hd & Hr)] | Hk].
  - left; left; left; left. by apply (stepAttack_corner _ _ _ _ _ _ _ _ H Hc).
  - left; left; left; right. by apply (stepAttack_corner _ _ _ _ _ _ _ _ H Hc).
  - left; left; right. exists d. split; [done |].
    apply (rayAttack_corner _ _ _ _ _ _ _ _ _ _ H Hc); [| done].
    apply Hrays, in_or_app. by left.
  - left; right. exists d. split; [done |].
    apply (rayAttack_corner _ _ _ _ _ _ _ _ _ _ H Hc); [| done].
    apply Hrays, in_or_app. by right.
  - right. by apply (stepAttack_corner _ _ _ _ _ _ _ _ H Hc).
Qed.

Lemma In_squares (i : Z) : 0 <= i < 64 -> In i squares.
Proof.
  intros H. unfold squares. apply in_map_iff. exists (Z.to_nat i).
  split; [lia | apply in_seq; lia].
Qed.

Lemma findKingIn_unique (b : Board) (col : Color) (k : Z) (idxs : list Z) :
  In k idxs ->
  (forall j, isPiece (rd b j) col K = true -> j = k) ->
  isPiece (rd b k) col K = true ->
  findKingIn b col idxs = k.
Proof.
  intros Hin Hu Hk. induction idxs as [|i rest IH]; [done |].
  cbn [findKingIn]. destruct (isPiece (rd b i) col K) eqn:E.
  - by apply Hu.
  - destruct Hin as [-> | Hin]; [congruence | by apply IH].
Qed.

Lemma isPiece_king (p : Piece) (col : Color) :
  t p <> K -> isPiece (Some p) col K = false.
Proof. intros H. unfold isPiece. destruct (t p); try done; by rewrite andb_false_r. Qed.

Lemma isPiece_rook_king (x : Cell) (col : Color) :
  isPiece x col R = true -> isPiece x col K = false.
Proof.
  unfold isPiece. destruct x as [q|]; [| done].
  intros [_ Hk]%andb_true_iff. apply Kind_eqb_eq in Hk.
  rewrite Hk. by rewrite andb_false_r.
Qed.

Lemma Color_eqb_own (a : Color) : Color_eqb a (opposite a) = false.
Proof. by destruct a. Qed.

Lemma removeCastleRight_fields (s : State) (codes : list ascii) :
  board (removeCastleRight s codes) = board s
  /\ turn (removeCastleRight s codes) = turn s
  /\ ep (removeCastleRight s codes) = ep s
  /\ halfmove (removeCastleRight s codes) = halfmove s
  /\ fullmove (removeCastleRight s codes) = fullmove s.
Proof. by repeat split. Qed.

(** [dropRightAt] touches the castling rights only. *)
Lemma dropRightAt_fields (sq : Z) (s : State) :
  board (dropRightAt sq s) = board s /\ turn (dropRightAt sq s) = turn s
  /\ ep (dropRightAt sq s) = ep s /\ halfmove (dropRightAt sq s) = halfmove s
  /\ fullmove (dropRightAt sq s) = fullmove s.
Proof.
  unfold dropRightAt.
  repeat match goal with
  | |- context [if ?b then _ else _] => destruct b
  end; by repeat split.
Qed.

Lemma revokeRights_board (s : State) (mover : Piece) (captured : Cell)
  (from to : Z) :
  board (revokeRights s mover captured from to) = board s.
Proof.
  unfold revokeRights.
  destruct captured as [cp|]; [destruct (Kind_eqb (t cp) R) |];
    rewrite ?(proj1 (dropRightAt_fields _ _));
    destruct (Kind_eqb (t mover) R);
    rewrite ?(proj1 (dropRightAt_fields _ _));
    destruct (Kind_eqb (t mover) K); try done; by destruct (c mover).
Qed.

(** The board after [applyMovePure] is settled by its first two
    stages. *)
Lemma applyMovePure_board (s : State) (from to : Z) (p : Piece) :
  rd (board s) from = Some p ->
  board (applyMovePure s from to)
  = board (castleStage (movePieces s p from to) p from to).
Proof.
  intros Hp. unfold applyMovePure. rewrite Hp.
  cbn [flipTurn board]. by rewrite revokeRights_board.
Qed.

(** The answer of the do/undo check, as a question about
    [doneBoard]. *)
Lemma leavesKingInCheck_fst (s : State) (from to : Z) (p : Piece) :
  rd (board s) from = Some p ->
  fst (leavesKingInCheck s from to None)
  = isSquareAttacked (set_board s (doneBoard s p from to))
      (if Kind_eqb (t p) K then to
       else findKing (set_board s (doneBoard s p from to)) (c p))
      (opposite (c p)).
Proof. intros Hp. unfold leavesKingInCheck. by rewrite Hp. Qed.

Lemma doneBoard_plain (s : State) (from to : Z) (p : Piece) :
  t p <> P ->
  doneBoard s p from to = wr (wr (board s) to (Some p)) from None.
Proof.
  intros H. unfold doneBoard. by rewrite (isEPmove_not_pawn s p from to H).
Qed.

Lemma isEPFlag_isEPmove (s : State) (p : Piece) (from to : Z) :
  wf_state s -> isEPFlag s p from to = isEPmove s p from to.
Proof.
  intros [_ Hep]. unfold isEPFlag, isEPmove.
  destruct (Kind_eqb (t p) P); [| done].
  destruct (ep s) as [e|] eqn:He; [| done].
  destruct (Z.eqb_spec to e) as [->|]; [| done].
  destruct (Hep e eq_refl) as [_ ->]. cbn. by rewrite andb_true_r.
Qed.

Lemma epCaptureSquare_eq (p : Piece) (to : Z) :
  0 <= to -> epCaptureSquare p to = to - 8 * moveDir (c p).
Proof.
  intros H. unfold epCaptureSquare.
  pose proof (toIndex_rank_file to H) as E. unfold toIndex in *. lia.
Qed.

(** Without castling, the board [applyMovePure] makes reads as the one
    the do/undo check looks at, but for the queen a promoted pawn has
    become. *)
Lemma moved_cells (s : State) (from to : Z) (p : Piece) :
  wf_state s ->
  rd (board s) from = Some p ->
  target_ok s from to ->
  isCastleFlag p from to = false ->
  forall j,
    rd (board (applyMovePure s from to)) j = rd (doneBoard s p from to) j
    \/ (t p = P
        /\ rd (board (applyMovePure s from to)) j = Some (mkPiece (c p) Q)
        /\ rd (doneBoard s p from to) j = Some p).
Proof.
  intros Hwf Hp [Hto Hok] Hcf j. destruct (Hok p Hp) as [Hbl Hep].
  pose proof (rd_Some_inside _ _ _ Hp) as Hfrom.
  assert (Hft : from <> to).
  { intros ->. unfold blocked in Hbl. rewrite Hp in Hbl.
    by rewrite Color_eqb_refl in Hbl. }
  rewrite (applyMovePure_board s from to p Hp).
  unfold castleStage. rewrite Hcf.
  unfold movePieces, doneBoard, capturedIndexOf. cbn [board].
  rewrite (isEPFlag_isEPmove s p from to Hwf).
  assert (Hprom : isPromotionFlag p to = true -> t p = P).
  { unfold isPromotionFlag. destruct (t p); try done. }
  pose proof (epCaptureSquare_eq p to ltac:(lia)) as Hcap.
  fold (epCaptureSquare p to).
  destruct (isEPmove s p from to) eqn:Hisep.
  - destruct (Hep eq_refl) as [Hc _].
    replace (epCaptureSquare p to =? -1) with false
      by (symmetry; apply Z.eqb_neq; lia).
    cbn [negb].
    assert (epCaptureSquare p to <> to) by (destruct (c p); cbn in Hcap; lia).
    destruct (isPromotionFlag p to) eqn:Hpr; rewrite ?rd_wr;
      repeat match goal with
      | |- context [?a =? ?b] => destruct (Z.eqb_spec a b)
      | |- context [?a <=? ?b] => destruct (Z.leb_spec a b)
      end; cbn [andb]; subst; try lia; auto.
  - rewrite Z.eqb_refl. cbn [negb].
    destruct (isPromotionFlag p to) eqn:Hpr; rewrite ?rd_wr;
      repeat match goal with
      | |- context [?a =? ?b] => destruct (Z.eqb_spec a b)
      | |- context [?a <=? ?b] => destruct (Z.leb_spec a b)
      end; cbn [andb]; subst; try lia; auto.
Qed.

Lemma applyMovePure_safe_plain (s : State) (from to : Z) (p : Piece) :
  wf_state s -> one_king s (c p) ->
  rd (board s) from = Some p ->
  target_ok s from to ->
  isCastleFlag p from to = false ->
  fst (leavesKingInCheck s from to None) = false ->
  inCheck (applyMovePure s from to) (c p) = false.
Proof.
  intros Hwf Hone Hp Hok Hcf Hl.
  pose proof (moved_cells s from to p Hwf Hp Hok Hcf) as Hcells.
  rewrite (leavesKingInCheck_fst s from to p Hp) in Hl.
  destruct Hok as [Hto Hok]. destruct (Hok p Hp) as [Hbl _].
  pose proof (rd_Some_inside _ _ _ Hp) as Hfrom.
  unfold inCheck. destruct (_ =? -1); [done |].
  assert (Hking : findKing (applyMovePure s from to) (c p)
                  = if Kind_eqb (t p) K then to
                    else findKing (set_board s (doneBoard s p from to)) (c p)).
  { unfold findKing. cbn [board set_board].
    destruct (Kind_eqb (t p) K) eqn:Hk.
    - apply Kind_eqb_eq in Hk.
      assert (Hme : isPiece (Some p) (c p) K = true).
      { unfold isPiece. by rewrite Color_eqb_refl, Hk. }
      assert (Hdone : forall j,
        isPiece (rd (doneBoard s p from to) j) (c p) K = true -> j = to).
      { intros j. rewrite doneBoard_plain by (by rewrite Hk). rewrite !rd_wr.
        destruct (Z.eqb_spec from j) as [Hfj|Hfj];
          destruct (Z.leb_spec 0 from); cbn [andb]; try done;
          destruct (Z.eqb_spec to j) as [Htj|Htj];
          destruct (Z.leb_spec 0 to); cbn [andb]; try done; try lia.
        all: intros Hj; exfalso; apply Hfj; apply Hone; [by rewrite Hp | done]. }
      apply findKingIn_unique; [by apply In_squares | |].
      + intros j Hj. destruct (Hcells j) as [E | (Hpawn & _)]; [| congruence].
        rewrite E in Hj. by apply Hdone.
      + destruct (Hcells to) as [E | (Hpawn & _)]; [| congruence].
        rewrite E, doneBoard_plain by (by rewrite Hk). rewrite !rd_wr.
        destruct (Z.eqb_spec from to) as [->|Hft].
        * unfold blocked in Hbl. rewrite Hp in Hbl.
          by rewrite Color_eqb_refl in Hbl.
        * cbn [andb]. rewrite Z.eqb_refl.
          by replace (0 <=? to) with true by (symmetry; apply Z.leb_le; lia).
    - apply findKingIn_ext. intros j.
      destruct (Hcells j) as [-> | (Hpawn & -> & ->)]; [reflexivity |].
      rewrite (isPiece_king p) by (by rewrite Hpawn). by rewrite isPiece_king. }
  rewrite Hking.
  match goal with |- ?x = false => destruct x eqn:E; [| done] end.
  apply isSquareAttacked_covers with (s := set_board s (doneBoard s p from to)) in E;
    [congruence |].
  intros j. cbn [board set_board].
  destruct (Hcells j) as [-> | (_ & -> & _)]; [by left | right].
  eexists. split; [done |]. apply Color_eqb_own.
Qed.

Lemma stepMoves_file (s : State) (col : Color) (r f : Z)
  (deltas : list (Z * Z)) (to : Z) :
  In to (stepMoves s col r f deltas) ->
  exists d, In d deltas /\ fileOf to = f + snd d.
Proof.
  induction deltas as [|[dr df] rest IH]; simpl; [done |].
  destruct (onBoard (r + dr) (f + df)) eqn:Hob; simpl.
  - destruct (canLand s col (toIndex (r + dr) (f + df))).
    + intros [<- | Hin].
      * exists (dr, df). split; [by left |].
        apply onBoard_spec in Hob. cbn [snd]. apply file_toIndex; lia.
      * destruct (IH Hin) as (d & Hd & E). exists d. split; [by right | done].
    + intros Hin. destruct (IH Hin) as (d & Hd & E). exists d.
      split; [by right | done].
  - intros Hin. destruct (IH Hin) as (d & Hd & E). exists d.
    split; [by right | done].
Qed.

(** A king move over two files is one of the two castling moves of
    [kingMoves], from the king's home square, with the rook of the
    king's colour in its corner. *)
Lemma kingMoves_castle (s : State) (from to : Z) (p : Piece) :
  rd (board s) from = Some p -> t p = K ->
  In to (kingMoves s from) ->
  isCastleFlag p from to = true ->
  let rk := match c p with W => 7 | B => 0 end in
  from = toIndex rk 4
  /\ ((to = toIndex rk 6 /\ isPiece (rd (board s) (toIndex rk 7)) (c p) R = true)
      \/ (to = toIndex rk 2
          /\ isPiece (rd (board s) (toIndex rk 0)) (c p) R = true)).
Proof.
  intros Hp Hk Hin Hflag.
  pose proof (rd_Some_inside _ _ _ Hp) as Hfrom.
  unfold isCastleFlag in Hflag. rewrite Hk in Hflag. cbn [Kind_eqb andb] in Hflag.
  apply Z.eqb_eq in Hflag.
  assert (Hstep : ~ In to (stepMoves s (c p) (rankOf from) (fileOf from) queenDeltas)).
  { intros (d & Hd & E)%stepMoves_file.
    assert (-1 <= snd d <= 1).
    { simpl in Hd.
      repeat (destruct Hd as [<- | Hd]; [cbn; lia |]). done. }
    lia. }
  unfold kingMoves in Hin. rewrite Hp, Hk in Hin. cbn [Kind_eqb negb] in Hin.
  assert (Hhome : forall rk, (rankOf from =? rk) && (fileOf from =? 4) = true ->
                             from = toIndex rk 4).
  { intros rk [Hr Hf]%andb_true_iff. apply Z.eqb_eq in Hr, Hf.
    rewrite <- (toIndex_rank_file from) by lia. by rewrite Hr, Hf. }
  destruct (c p) eqn:Hc; cbn zeta.
  - destruct (_ && _) eqn:Hks in Hin; cbn [negb] in Hin; [| done].
    split; [by apply Hhome |].
    rewrite !in_app_iff in Hin. destruct Hin as [Hin | [Hin | Hin]]; [done | |].
    + destruct (_ && _) eqn:Hcond in Hin; [| done].
      destruct Hin as [<- | []]. left. split; [done |].
      by apply andb_true_iff in Hcond as [_ ?].
    + destruct (_ && _) eqn:Hcond in Hin; [| done].
      destruct Hin as [<- | []]. right. split; [done |].
      by apply andb_true_iff in Hcond as [_ ?].
  - destruct (_ && _) eqn:Hks in Hin; cbn [negb] in Hin; [| done].
    split; [by apply Hhome |].
    rewrite !in_app_iff in Hin. destruct Hin as [Hin | [Hin | Hin]]; [done | |].
    + destruct (_ && _) eqn:Hcond in Hin; [| done].
      destruct Hin as [<- | []]. left. split; [done |].
      by apply andb_true_iff in Hcond as [_ ?].
    + destruct (_ && _) eqn:Hcond in Hin; [| done].
      destruct Hin as [<- | []]. right. split; [done |].
      by apply andb_true_iff in Hcond as [_ ?].
Qed.

Lemma castled_board (s : State) (from to : Z) (p : Piece) :
  rd (board s) from = Some p -> t p = K ->
  isCastleFlag p from to = true ->
  let b := wr (wr (board s) to (Some p)) from None in
  board (applyMovePure s from to)
  = wr (wr b (fst (castleRook (c p) to)) (rd b (snd (castleRook (c p) to))))
       (snd (castleRook (c p) to)) None.
Proof.
  intros Hp Hk Hflag. rewrite (applyMovePure_board s from to p Hp).
  unfold castleStage. rewrite Hflag.
  assert (Hb : board (movePieces s p from to)
               = wr (wr (board s) to (Some p)) from None).
  { unfold movePieces, isEPFlag, isPromotionFlag. by rewrite Hk. }
  unfold castleRook.
  destruct (c p); destruct (to =? _);
    cbn [board removeCastleRight set_castle_rook set_board fst snd];
    by rewrite Hb.
Qed.

(** Castling: the rook leaves its corner and lands beside the king;
    this opens no attack on the king's new square. *)
Lemma castled_safe (s s' : State) (p : Piece) (col : Color)
  (from to rookTo corner : Z) :
  c p = col ->
  one_king s col ->
  rd (board s) from = Some p -> t p = K ->
  0 <= to < 64 -> 0 <= rookTo -> 0 <= corner ->
  from <> to -> corner <> to -> corner <> from -> rookTo <> to ->
  isPiece (rd (board s) corner) col R = true ->
  cornerRays corner to = true ->
  board s'
  = (let b := wr (wr (board s) to (Some p)) from None in
     wr (wr b rookTo (rd b corner)) corner None) ->
  isSquareAttacked (set_board s (wr (wr (board s) to (Some p)) from None)) to
    (opposite col) = false ->
  inCheck s' col = false.
Proof.
  intros <- Hone Hp Hk Hto Hrt Hcn Hft Hct Hcf Hrto Hrook Hrays Hb Hl.
  pose proof (rd_Some_inside _ _ _ Hp) as Hfrom.
  cbn zeta in Hb.
  assert (Hcorner : rd (wr (wr (board s) to (Some p)) from None) corner
                    = rd (board s) corner).
  { rewrite !rd_wr.
    destruct (Z.eqb_spec from corner); [lia |].
    destruct (Z.eqb_spec to corner); [lia | done]. }
  rewrite Hcorner in Hb.
  assert (Hme : isPiece (Some p) (c p) K = true).
  { unfold isPiece. by rewrite Color_eqb_refl, Hk. }
  unfold inCheck. destruct (_ =? -1); [done |].
  assert (Hking : findKing s' (c p) = to).
  { unfold findKing. rewrite Hb.
    apply findKingIn_unique; [by apply In_squares | |].
    - intros j. rewrite !rd_wr.
      destruct (Z.eqb_spec corner j); destruct (Z.leb_spec 0 corner);
        cbn [andb]; try done; try lia.
      destruct (Z.eqb_spec rookTo j); destruct (Z.leb_spec 0 rookTo);
        cbn [andb]; try lia.
      { by rewrite (isPiece_rook_king _ _ Hrook). }
      destruct (Z.eqb_spec from j); destruct (Z.leb_spec 0 from);
        cbn [andb]; try done; try lia.
      destruct (Z.eqb_spec to j); destruct (Z.leb_spec 0 to);
        cbn [andb]; try done; try lia.
      intros Hj. exfalso.
      match goal with H : from <> j |- _ => apply H end.
      apply Hone; [by rewrite Hp | done].
    - rewrite !rd_wr.
      destruct (Z.eqb_spec corner to); [lia |].
      destruct (Z.eqb_spec rookTo to); [lia |].
      destruct (Z.eqb_spec from to); [lia |].
      rewrite Z.eqb_refl. cbn [andb].
      by replace (0 <=? to) with true by (symmetry; apply Z.leb_le; lia). }
  rewrite Hking.
  match goal with |- ?x = false => destruct x eqn:E; [| done] end.
  apply isSquareAttacked_corner
    with (s := set_board s (wr (wr (board s) to (Some p)) from None))
         (corner := corner) in E; [congruence | | | done].
  - intros j Hj. cbn [board set_board]. rewrite Hb.
    rewrite (rd_wr _ corner).
    destruct (Z.eqb_spec corner j); [lia |]. cbn [andb].
    rewrite (rd_wr _ rookTo).
    destruct (Z.eqb_spec rookTo j); [| by left].
    replace (0 <=? rookTo) with true by (symmetry; apply Z.leb_le; lia).
    cbn [andb]. right.
    unfold isPiece in Hrook. destruct (rd (board s) corner) as [q|]; [| done].
    apply andb_true_iff in Hrook as [Hc _]. apply Color_eqb_eq in Hc.
    exists q. split; [done |]. rewrite Hc. apply Color_eqb_own.
  - rewrite Hb, rd_wr, Z.eqb_refl.
    by replace (0 <=? corner) with true by (symmetry; apply Z.leb_le; lia).
Qed.

Lemma applyMovePure_safe_castle (s : State) (from to : Z) (p : Piece) :
  one_king s (c p) ->
  rd (board s) from = Some p -> t p = K ->
  In to (kingMoves s from) ->
  isCastleFlag p from to = true ->
  fst (leavesKingInCheck s from to None) = false ->
  inCheck (applyMovePure s from to) (c p) = false.
Proof.
  intros Hone Hp Hk Hin Hflag Hl.
  rewrite (leavesKingInCheck_fst s from to p Hp) in Hl.
  rewrite doneBoard_plain in Hl by (by rewrite Hk).
  rewrite Hk in Hl. cbn [Kind_eqb] in Hl.
  pose proof (castled_board s from to p Hp Hk Hflag) as Hb. cbn zeta in Hb.
  destruct (kingMoves_castle s from to p Hp Hk Hin Hflag) as [Hfrom Hcase].
  destruct (c p) eqn:Hc; cbn iota in Hfrom, Hcase;
    destruct Hcase as [[Hto Hrook] | [Hto Hrook]]; subst from to.
  - change (castleRook W (toIndex 7 6)) with (toIndex 7 5, toIndex 7 7) in Hb.
    apply (castled_safe s _ p W (toIndex 7 4) (toIndex 7 6) (toIndex 7 5)
             (toIndex 7 7) Hc Hone Hp Hk);
      try (unfold toIndex; lia); try done.
  - change (castleRook W (toIndex 7 2)) with (toIndex 7 3, toIndex 7 0) in Hb.
    apply (castled_safe s _ p W (toIndex 7 4) (toIndex 7 2) (toIndex 7 3)
             (toIndex 7 0) Hc Hone Hp Hk);
      try (unfold toIndex; lia); try done.
  - change (castleRook B (toIndex 0 6)) with (toIndex 0 5, toIndex 0 7) in Hb.
    apply (castled_safe s _ p B (toIndex 0 4) (toIndex 0 6) (toIndex 0 5)
             (toIndex 0 7) Hc Hone Hp Hk);
      try (unfold toIndex; lia); try done.
  - change (castleRook B (toIndex 0 2)) with (toIndex 0 3, toIndex 0 0) in Hb.
    apply (castled_safe s _ p B (toIndex 0 4) (toIndex 0 2) (toIndex 0 3)
             (toIndex 0 0) Hc Hone Hp Hk);
      try (unfold toIndex; lia); try done.
Qed.

(** A move that passes the do/undo check leaves the mover's side out of
    check in the position [applyMovePure] makes of it. *)
Lemma applyMovePure_safe (s : State) (from to : Z) (p : Piece) :
  wf_state s -> one_king s (c p) ->
  rd (board s) from = Some p ->
  In to (generateMoves s from) ->
  fst (leavesKingInCheck s from to None) = false ->
  inCheck (applyMovePure s from to) (c p) = false.
Proof.
  intros Hwf Hone Hp Hin Hl.
  pose proof (rd_Some_inside _ _ _ Hp) as Hfrom. rewrite (proj1 Hwf) in Hfrom.
  destruct (isCastleFlag p from to) eqn:Hflag.
  - assert (Hk : t p = K).
    { unfold isCastleFlag in Hflag. by destruct (t p). }
    apply applyMovePure_safe_castle; try done.
    unfold generateMoves in Hin. by rewrite Hp, Hk in Hin.
  - apply applyMovePure_safe_plain; try done.
    apply generateMoves_targets; [done | lia | done].
Qed.

Lemma one_king_count (s : State) (col : Color) :
  length (board s) = 64%nat ->
  (length (kingSquares s col) <= 1)%nat ->
  one_king s col.
Proof.
  intros Hlen Hcnt i j Hi Hj.
  assert (Hin : forall k, isPiece (rd (board s) k) col K = true ->
                          In k (kingSquares s col)).
  { intros k Hk. apply filter_In. split; [| done].
    apply In_squares. unfold isPiece in Hk.
    destruct (rd (board s) k) as [q|] eqn:E; [| done].
    apply rd_Some_inside in E. lia. }
  apply Hin in Hi, Hj.
  destruct (kingSquares s col) as [|a [|b l]]; simpl in *; [done | | lia].
  destruct Hi as [<- | []]. by destruct Hj as [<- | []].
Qed.

(** C1.  Soundness of the legal-move generator: on every well-formed
    position, each move [from, to] in the list returned by
    [allLegalMoves(state, color)] has [leavesKingInCheck(state, from, to)]
    false, and, [color] having no more than one king, in the position
    that applying the move gives ([applyMovePure], with the rook of a
    castling move and the queen of a promotion in place) the square of
    [color]'s king is not attacked by the opposing side. *)
Theorem allLegalMoves_sound (s : State) (col : Color) (from to : Z) :
  wf_state s ->
  In (from, to) (allLegalMoves s col) ->
  fst (leavesKingInCheck s from to None) = false
  /\ (one_king s col -> inCheck (applyMovePure s from to) col = false).
Proof.
  intros Hwf Hin.
  destruct (allLegalMovesSt_spec s col Hwf) as [_ Hm].
  destruct (Hm _ Hin) as (Hk & Hfrom & (p & Hp & Hc) & Hgen & Hchk).
  cbn [fst snd] in *. subst col.
  assert (Hl : fst (leavesKingInCheck s from to None) = false).
  { rewrite <- (leavesKingInCheck_known s from to p Hp); [done |].
    by apply generateMoves_targets. }
  split; [done |]. intros Hone. by apply applyMovePure_safe.
Qed.

Lemma initialState_wf : wf_state initialState.
Proof. split; [reflexivity | intros e H; discriminate H]. Qed.

Lemma initialState_one_king : one_king initialState W.
Proof. apply one_king_count; [reflexivity | vm_compute; lia]. Qed.

Lemma allLegalMoves_sound_witness :
  wf_state initialState
  /\ In (52, 36) (allLegalMoves initialState W)
  /\ fst (leavesKingInCheck initialState 52 36 None) = false
  /\ inCheck (applyMovePure initialState 52 36) W = false.
Proof.
  split; [exact initialState_wf |].
  split; [vm_compute; tauto |].
  destruct (allLegalMoves_sound initialState W 52 36 initialState_wf) as [H1 H2].
  - vm_compute; tauto.
  - split; [exact H1 | exact (H2 initialState_one_king)].
Defined.

(** ** Transposition table: the probe contract *)

Lemma toInt32_id (z : Z) : int32 z -> toInt32 z = z.
Proof.
  unfold int32, toInt32. intros H.
  rewrite Z.mod_small by lia. lia.
Qed.

Lemma toInt32_range (z : Z) : int32 (toInt32 z).
Proof.
  unfold int32, toInt32.
  pose proof (Z.mod_pos_bound (z + 2147483648) 4294967296 ltac:(lia)). lia.
Qed.

Lemma ttInit_wf (p : Z) : table_wf (ttInit p).
Proof. intros i e H. cbn in H. by rewrite lookup_empty in H. Qed.

Lemma defaultTable_wf : table_wf defaultTable.
Proof. intros i e H. cbn in H. by rewrite lookup_empty in H. Qed.

Lemma ttClear_wf (tb : Table) : table_wf (ttClear tb).
Proof. intros i e H. cbn in H. by rewrite lookup_empty in H. Qed.

Lemma ttStore_wf (tb : Table) (k d : Z) (fl : TTFlag) (sc : Num)
  (bm : option Move) :
  table_wf tb -> table_wf (ttStore tb k d fl sc bm).
Proof.
  intros Hwf i e. unfold ttStore.
  destruct (negb _); [apply Hwf |].
  cbn [slots]. rewrite lookup_insert.
  case_decide.
  - intros [= <-]. apply toInt32_range.
  - apply Hwf.
Qed.

(** C6.  The probe contract: for a table filled by [ttStore] and a
    requested depth that is a 32-bit integer, [ttProbe] returns the
    stored entry exactly when the indexed slot holds an entry with the
    probe key and a stored depth at least the requested one; with the
    same key and a smaller stored depth it returns the best-move hint
    alone; with an empty slot or another key it returns nothing. *)
Theorem ttProbe_contract (tb : Table) (k d : Z) :
  table_wf tb -> int32 d ->
  (forall e, ttProbe tb k d = Full e <->
             slots tb !! _indexFor tb k = Some e /\ key e = k /\ d <= depth e)
  /\ (forall e, slots tb !! _indexFor tb k = Some e -> key e = k ->
                depth e < d -> ttProbe tb k d = HintOnly (bestMove e))
  /\ (slots tb !! _indexFor tb k = None \/
      (exists e, slots tb !! _indexFor tb k = Some e /\ key e <> k) ->
      ttProbe tb k d = Miss).
Proof.
  intros Hwf Hd. unfold ttProbe.
  destruct (slots tb !! _indexFor tb k) as [e0|] eqn:Hslot.
  - pose proof (Hwf _ _ Hslot) as He0.
    rewrite (toInt32_id d Hd), (toInt32_id _ He0).
    destruct (Z.eqb_spec (key e0) k) as [Hk|Hk]; cbn [negb].
    + destruct (Z.leb_spec d (depth e0)) as [Hle|Hgt].
      * split; [| split].
        -- intros e. split.
           ++ by intros [= <-].
           ++ by intros ([= <-] & _ & _).
        -- intros e [= <-] _ Hlt. lia.
        -- intros [Hn | (e & [= <-] & Hne)]; [done | by destruct Hne].
      * split; [| split].
        -- intros e. split; [done |]. intros ([= <-] & _ & Hle). lia.
        -- by intros e [= <-] _ _.
        -- intros [Hn | (e & [= <-] & Hne)]; [done | by destruct Hne].
    + split; [| split].
      * intros e. split; [done |]. by intros ([= <-] & Hke & _).
      * by intros e [= <-] Hke _.
      * done.
  - split; [| split].
    + intros e. split; [done |]. by intros (Hs & _ & _).
    + by intros e Hs.
    + done.
Qed.

Lemma ttProbe_contract_witness :
  table_wf sampleTable /\ int32 2
  /\ ttProbe sampleTable 12345 2
     = Full (mkEntry 12345 3 EXACT (Fin 10) (Some (52, 36))).
Proof.
  assert (Hwf : table_wf sampleTable) by (apply ttStore_wf, defaultTable_wf).
  assert (Hd : int32 2) by (unfold int32; lia).
  split; [exact Hwf | split; [exact Hd |]].
  apply (proj1 (ttProbe_contract sampleTable 12345 2 Hwf Hd)).
  split; [| split].
  - vm_compute. reflexivity.
  - reflexivity.
  - simpl. lia.
Defined.

(** ** Zobrist keys and stale en-passant squares *)

Lemma epFileIndexEffective_capturer (s : State) (e : Z) :
  ep s = Some e -> epFileIndexEffective s <> -1 -> ep_capturer s e.
Proof.
  intros He. unfold epFileIndexEffective. rewrite He.
  destruct (existsb _ _) eqn:Hex; [| done]. intros _.
  apply existsb_exists in Hex as (nf & Hin & Hnf).
  apply andb_true_iff in Hnf as [Hrange Hp].
  apply negb_true_iff, orb_false_iff in Hrange as [H0 H7]. zbool.
  exists nf. split; [| split; [lia | done]].
  destruct Hin as [<- | [<- | []]]; [by left | by right].
Qed.

Lemma epFileIndexEffective_stale (s : State) :
  (forall e, ep s = Some e -> ~ ep_capturer s e) ->
  epFileIndexEffective s = -1.
Proof.
  intros H. destruct (Z.eq_dec (epFileIndexEffective s) (-1)) as [|Hne]; [done |].
  destruct (ep s) as [e|] eqn:He.
  - destruct (H e eq_refl). by apply epFileIndexEffective_capturer.
  - unfold epFileIndexEffective in Hne. by rewrite He in Hne.
Qed.

Lemma computeKey_congr (zob : Zobrist) (s1 s2 : State) :
  board s1 = board s2 -> turn s1 = turn s2 ->
  castleRight s1 = castleRight s2 ->
  epFileIndexEffective s1 = epFileIndexEffective s2 ->
  computeKey zob s1 = computeKey zob s2.
Proof.
  intros Hb Ht Hc He. unfold computeKey. by rewrite Hb, Ht, Hc, He.
Qed.

Lemma epFileIndexEffective_no_ep (s : State) :
  epFileIndexEffective (with_ep s None) = -1.
Proof. reflexivity. Qed.

(** The key without the en-passant term. *)
Lemma computeKey_stale_ep (zob : Zobrist) (s : State) :
  (forall e, ep s = Some e -> ~ ep_capturer s e) ->
  computeKey zob s = computeKey zob (with_ep s None).
Proof.
  intros H. apply computeKey_congr; try reflexivity.
  by rewrite epFileIndexEffective_no_ep, (epFileIndexEffective_stale s H).
Qed.

(** The en-passant file enters the key only when a capturer stands
    ready. *)
Lemma computeKey_ep_only_when (zob : Zobrist) (s : State) :
  computeKey zob s <> computeKey zob (with_ep s None) ->
  exists e, ep s = Some e /\ ep_capturer s e.
Proof.
  intros Hne. destruct (ep s) as [e|] eqn:He.
  - exists e. split; [done |].
    apply epFileIndexEffective_capturer; [done |].
    intros Hm. apply Hne. apply computeKey_congr; try reflexivity.
    by rewrite epFileIndexEffective_no_ep.
  - destruct Hne. apply computeKey_congr; try reflexivity.
    rewrite epFileIndexEffective_no_ep. unfold epFileIndexEffective.
    by rewrite He.
Qed.

Lemma computeKey_range (zob : Zobrist) (s : State) :
  0 <= computeKey zob s < 2 ^ 64.
Proof.
  unfold computeKey. change MASK64 with (Z.ones 64).
  rewrite Z.land_ones by lia. apply Z.mod_pos_bound. lia.
Qed.

(** C7.  Zobrist en-passant neutrality.  Take two positions with the
    same board, side to move and castling rights, the second with no
    en-passant square or with one on which no pawn of the side to move
    stands ready to take.  If the same holds of the first, both get the
    same 64-bit key; and the keys differ only when the first has an
    en-passant square beside which, on the rank to take from, a pawn of
    the side to move stands: only then does the en-passant file enter
    the key. *)
Theorem computeKey_ep_neutral (zob : Zobrist) (s1 s2 : State) :
  board s1 = board s2 -> turn s1 = turn s2 ->
  castleRight s1 = castleRight s2 ->
  (forall e, ep s2 = Some e -> ~ ep_capturer s2 e) ->
  ((forall e, ep s1 = Some e -> ~ ep_capturer s1 e) ->
   computeKey zob s1 = computeKey zob s2)
  /\ (computeKey zob s1 <> computeKey zob s2 ->
      exists e, ep s1 = Some e /\ ep_capturer s1 e).
Proof.
  intros Hb Ht Hc H2.
  assert (E2 : computeKey zob s2 = computeKey zob (with_ep s1 None)).
  { rewrite (computeKey_stale_ep zob s2 H2).
    apply computeKey_congr; [by symmetry | by symmetry | by symmetry |].
    by rewrite !epFileIndexEffective_no_ep. }
  split.
  - intros H1. by rewrite (computeKey_stale_ep zob s1 H1), E2.
  - intros Hne. apply (computeKey_ep_only_when zob). by rewrite <- E2.
Qed.

Lemma computeKey_ep_neutral_witness :
  computeKey sampleZobrist afterE4
  = computeKey sampleZobrist (with_ep afterE4 None).
Proof.
  apply (computeKey_ep_neutral sampleZobrist afterE4 (with_ep afterE4 None)).
  - reflexivity.
  - reflexivity.
  - reflexivity.
  - intros e He. discriminate He.
  - intros e He. vm_compute in He. injection He as <-.
    intros (nf & [-> | ->] & _ & Hp); vm_compute in Hp; discriminate Hp.
Defined.

(** The capturer of the hashing rule is the pawn the move generator
    needs: when a pawn of the side to move has the en-passant capture
    among its moves, [ep_capturer] holds. *)
Lemma enpassant_move_needs_capturer (s : State) (i e : Z) (p : Piece) :
  wf_state s -> 0 <= i < 64 ->
  rd (board s) i = Some p -> t p = P -> c p = turn s ->
  ep s = Some e -> fileOf i <> fileOf e ->
  In e (pawnMoves s i) ->
  ep_capturer s e.
Proof.
  intros [Hlen Hwf] Hi Hp Hk Hc He Hfile.
  destruct (Hwf e He) as [Herange Heempty].
  destruct (rank_file_range i Hi) as [Hr Hf].
  unfold pawnMoves. rewrite Hp, Hk, He. cbn [Kind_eqb negb].
  assert (Hcapt : forall df,
    ~ In e (if onBoard (rankOf i + moveDir (c p)) (fileOf i + df)
            then match rd (board s)
                         (toIndex (rankOf i + moveDir (c p)) (fileOf i + df)) with
                 | Some q =>
                     if negb (Color_eqb (c q) (c p))
                     then [toIndex (rankOf i + moveDir (c p)) (fileOf i + df)]
                     else []
                 | None => []
                 end
            else [])).
  { intros df. destruct (onBoard _ _); [| intros []].
    destruct (rd (board s) (toIndex _ _)) as [q|] eqn:Hq; [| intros []].
    destruct (negb _); [| intros []].
    intros [Heq | []]. rewrite Heq in Hq. congruence. }
  rewrite !in_app_iff. intros [Hin | [Hin | [Hin | Hin]]].
  - destruct (onBoard _ _) eqn:Hob; [| done].
    apply onBoard_spec in Hob.
    destruct (isEmptyAt s _); [| done].
    destruct Hin as [Heq | Hin].
    + destruct Hfile. rewrite <- Heq. rewrite file_toIndex; [done | lia | lia].
    + destruct (rankOf i =? _) eqn:Hst; [| done]. apply Z.eqb_eq in Hst.
      destruct (isEmptyAt s _); [| done].
      destruct Hin as [Heq | []].
      destruct Hfile. rewrite <- Heq. rewrite file_toIndex; [done | | lia].
      destruct (c p); simpl in *; lia.
  - by destruct (Hcapt (-1)).
  - by destruct (Hcapt 1).
  - destruct ((rankOf e =? rankOf i + moveDir (c p))
              && (Z.abs (fileOf e - fileOf i) =? 1)) eqn:Hgeo; [| done].
    apply andb_true_iff in Hgeo as [Hrk Hfl]. zbool.
    exists (fileOf i). split; [lia | split; [lia |]].
    replace (rankOf e + match turn s with W => 1 | B => -1 end) with (rankOf i)
      by (rewrite <- Hc; destruct (c p); simpl in *; lia).
    rewrite toIndex_rank_file by lia. rewrite Hp. unfold isPiece.
    by rewrite Hc, Color_eqb_refl, Hk.
Qed.

(** ** Draw by material in the search *)

(** Counting with a predicate that is the disjunction of predicates no
    two of which hold together adds up. *)
Lemma countCells_fold (f : Piece -> bool) (s : State) (l : list Z) (n : Z) :
  fold_left (fun n i =>
    match rd (board s) i with
    | Some p => if f p then n + 1 else n
    | None => n
    end) l n
  = n + fold_left (fun n i =>
          match rd (board s) i with
          | Some p => if f p then n + 1 else n
          | None => n
          end) l 0.
Proof.
  revert n. induction l as [|i rest IH]; intros n; simpl; [lia |].
  rewrite IH. rewrite (IH (match rd (board s) i with
                            | Some p => if f p then 0 + 1 else 0
                            | None => 0
                            end)).
  destruct (rd (board s) i) as [p|]; [destruct (f p) |]; lia.
Qed.

Lemma countCells_split (f g h : Piece -> bool) (s : State) :
  (forall p, f p = g p || h p) -> (forall p, g p && h p = false) ->
  countCells f s = countCells g s + countCells h s.
Proof.
  intros Hf Hd. unfold countCells. generalize squares as l.
  induction l as [|i rest IH]; simpl; [lia |].
  rewrite (countCells_fold f), (countCells_fold g), (countCells_fold h), IH.
  destruct (rd (board s) i) as [p|]; [| lia].
  rewrite (Hf p). specialize (Hd p).
  destruct (g p), (h p); simpl in *; try discriminate; lia.
Qed.

Lemma countCells_nonneg (f : Piece -> bool) (s : State) : 0 <= countCells f s.
Proof.
  unfold countCells. generalize squares as l.
  induction l as [|i rest IH]; simpl; [lia |].
  rewrite countCells_fold.
  destruct (rd (board s) i) as [p|]; [destruct (f p) |]; lia.
Qed.

Lemma count_kind_colors (s : State) (k : Kind) :
  countCells (fun p => Kind_eqb (t p) k) s = countOf s W k + countOf s B k.
Proof.
  unfold countOf. apply countCells_split.
  - intros [[] kk]; simpl; by destruct (Kind_eqb kk k).
  - intros [[] kk]; simpl; by destruct (Kind_eqb kk k).
Qed.

Lemma countOf_nonneg (s : State) (col : Color) (k : Kind) : 0 <= countOf s col k.
Proof. apply countCells_nonneg. Qed.

(** Every position the specification lists is a draw for the search. *)
Lemma insufficientMaterial_listed (s : State) :
  listedDraw s = true -> insufficientMaterial s = true.
Proof.
  unfold listedDraw, insufficientMaterial.
  rewrite (countCells_split (fun p => Kind_eqb (t p) R || Kind_eqb (t p) Q)
             (fun p => Kind_eqb (t p) R) (fun p => Kind_eqb (t p) Q) s);
    [| intros; reflexivity | by intros [? []]].
  rewrite (countCells_split (fun p => Kind_eqb (t p) Bi || Kind_eqb (t p) N)
             (fun p => Kind_eqb (t p) Bi) (fun p => Kind_eqb (t p) N) s);
    [| intros; reflexivity | by intros [? []]].
  rewrite !count_kind_colors.
  pose proof (countOf_nonneg s W N). pose proof (countOf_nonneg s B N).
  pose proof (countOf_nonneg s W Bi). pose proof (countOf_nonneg s B Bi).
  generalize dependent (countOf s W N). intros wn ?.
  generalize dependent (countOf s B N). intros bn ?.
  generalize dependent (countOf s W Bi). intros wb ?.
  generalize dependent (countOf s B Bi). intros bb ?.
  generalize (countOf s W P) (countOf s B P) (countOf s W R) (countOf s B R)
             (countOf s W Q) (countOf s B Q).
  intros wp bp wr0 br wq bq.
  generalize (bishopSquareColors s W ++ bishopSquareColors s B). intros cols.
  rewrite !andb_true_iff, !orb_true_iff, !andb_true_iff.
  intros ((((((Hwp & Hbp) & Hwr) & Hbr) & Hwq) & Hbq) & Hm). zbool. subst.
  cbn [Z.add Z.ltb Z.compare]. apply Z.leb_le.
  destruct Hm as [[[[Hm | Hm] | Hm] | Hm] | Hm]; zbool; lia.
Qed.

(** ** Entry tests of alpha-beta *)

Section SearchFacts.

Variable evalFn : State -> Z.
Variable now : nat -> Z.
Variable zob : Zobrist.

Lemma alphaBeta_draw (fuel : nat) (s : State) (d : Z) (alpha beta : Num)
  (ply : Z) (w : World) :
  fiftyMoveDraw s || insufficientMaterial s = true ->
  alphaBeta evalFn now zob (S fuel) s d alpha beta ply w
  = Some (Fin (drawScore (turn s)), w).
Proof.
  intros H. cbn [alphaBeta]. unfold alphaBeta_body. by rewrite H.
Qed.

(** The positions the specification lists get the contempt-adjusted draw
    score from [alphaBeta], whatever the depth and the window. *)
Lemma alphaBeta_listed_draw (fuel : nat) (s : State) (d : Z)
  (alpha beta : Num) (ply : Z) (w : World) :
  listedDraw s = true ->
  alphaBeta evalFn now zob (S fuel) s d alpha beta ply w
  = Some (Fin (drawScore (turn s)), w).
Proof.
  intros H. apply alphaBeta_draw.
  by rewrite (insufficientMaterial_listed s H), orb_true_r.
Qed.

Lemma allLegalMovesSt_none (s : State) :
  wf_state s -> allLegalMoves s (turn s) = [] ->
  allLegalMovesSt s (turn s) = ([], s).
Proof.
  intros Hwf Hm. destruct (allLegalMovesSt_spec s (turn s) Hwf) as [Hs _].
  unfold allLegalMoves in Hm.
  destruct (allLegalMovesSt s (turn s)) as [ms s1]. simpl in *. by subst.
Qed.

(** C2, as the code has it.  When the side to move has no legal move and
    the node gets as far as the terminal test (no draw by the fifty-move
    rule or by material, fewer than two earlier visits on the path, the
    deadline not reached, a depth other than 0), [alphaBeta] returns
    [-(MATE - (100 - depth))] for White to move in check,
    [+(MATE - (100 - depth))] for Black to move in check, [depth] being
    the remaining depth of the node, and 0 when the side to move is not
    in check. *)
Theorem alphaBeta_terminal (fuel : nat) (s : State) (depth0 : Z)
  (alpha beta : Num) (ply : Z) (w : World) :
  wf_state s ->
  allLegalMoves s (turn s) = [] ->
  fiftyMoveDraw s = false ->
  insufficientMaterial s = false ->
  match rep w !! computeKey zob s with Some n => toInt32 n | None => 0 end < 2 ->
  num_ge (Fin (now (ticks w))) (deadline w) = false ->
  depth0 <> 0 ->
  option_map fst (alphaBeta evalFn now zob (S fuel) s depth0 alpha beta ply w)
  = Some (Fin (terminalScore s depth0)).
Proof.
  intros Hwf Hm H50 Him Hrep Hclk Hd.
  cbn [alphaBeta]. unfold alphaBeta_body. rewrite H50, Him. cbn [orb].
  unfold bind at 1. unfold repGet at 1.
  destruct (Z.leb_spec 2 (match rep w !! computeKey zob s with
                          | Some n => toInt32 n
                          | None => 0
                          end)) as [Hge|_]; [lia |].
  unfold bind at 1. unfold repSet at 1.
  unfold bind at 1. unfold timeExpired at 1, readClock.
  cbn [ticks deadline]. rewrite Hclk.
  destruct (Z.eqb_spec depth0 0) as [|_]; [done |].
  rewrite (allLegalMovesSt_none s Hwf Hm).
  unfold terminalScoreGivenMoves, terminalScore.
  destruct (inCheck s (turn s)); reflexivity.
Qed.

End SearchFacts.

Lemma mated_wf : wf_state mated.
Proof. split; [reflexivity | intros e H; discriminate H]. Qed.

Lemma alphaBeta_terminal_witness :
  option_map fst
    (alphaBeta zeroEval stillClock sampleZobrist 1 mated 1 NegInf PosInf 1 freshWorld)
  = Some (Fin (terminalScore mated 1)).
Proof.
  apply (alphaBeta_terminal zeroEval stillClock sampleZobrist 0 mated 1
           NegInf PosInf 1 freshWorld).
  - exact mated_wf.
  - vm_compute. reflexivity.
  - reflexivity.
  - vm_compute. reflexivity.
  - vm_compute. reflexivity.
  - reflexivity.
  - lia.
Defined.

(** The sentence of the specification fails twice.  At ply 1 with one ply of depth
    left the mated side gets -99901, not [-MATE + ply] = -99999; and a
    stalemated side in a position drawn by material gets the draw score
    -12, not 0, since the draw tests come before the terminal test. *)
Lemma alphaBeta_mate_score_counterexample :
  (allLegalMoves mated (turn mated) = []
   /\ inCheck mated (turn mated) = true
   /\ option_map fst
        (alphaBeta zeroEval stillClock sampleZobrist 1 mated 1 NegInf PosInf 1
           freshWorld)
      = Some (Fin (-99901))
   /\ Fin (-99901) <> Fin (- MATE + 1))
  /\ (allLegalMoves stalemated (turn stalemated) = []
      /\ inCheck stalemated (turn stalemated) = false
      /\ option_map fst
           (alphaBeta zeroEval stillClock sampleZobrist 1 stalemated 1 NegInf
              PosInf 1 freshWorld)
         = Some (Fin (-12))
      /\ Fin (-12) <> Fin 0).
Proof.
  split.
  - split; [vm_compute; reflexivity |].
    split; [vm_compute; reflexivity |].
    split; [vm_compute; reflexivity |].
    discriminate.
  - split; [vm_compute; reflexivity |].
    split; [vm_compute; reflexivity |].
    split; [vm_compute; reflexivity |].
    discriminate.
Qed.

(** ** Quiescence *)

Lemma mated_no_draw : fiftyMoveDraw mated || insufficientMaterial mated = false.
Proof. vm_compute. reflexivity. Qed.

Lemma mated_inCheck : inCheck mated (turn mated) = true.
Proof. vm_compute. reflexivity. Qed.

Lemma mated_no_moves : allLegalMovesSt mated (turn mated) = ([], mated).
Proof. vm_compute. reflexivity. Qed.

(** C3 fails on a mated side to move.  With the window (-Infinity,
    +Infinity), on the position 8/8/8/8/8/5k2/5q2/5K2 w - - 0 1 and
    before the deadline, [quiescence] returns -Infinity: the side to move
    is in check, so no stand-pat bound is taken, it has no move, so the
    loop never runs, and the untouched [alpha] is returned.  This holds
    for every evaluator, every clock and every state of the tables. *)
Theorem quiescence_mated_not_finite
  (evalFn : State -> Z) (now : nat -> Z) (fuel n : nat) (tb : Table)
  (ks : gmap Z (Z * Z)) (hs : gmap (Z * Z * Z) Z) (rp : gmap Z Z) :
  quiescence evalFn now (S fuel) mated NegInf PosInf
    (mkWorld n PosInf tb ks hs rp)
  = Some (NegInf, mkWorld (S n) PosInf tb ks hs rp).
Proof.
  cbn [quiescence]. unfold quiescence_body.
  rewrite mated_no_draw, mated_inCheck, mated_no_moves.
  reflexivity.
Qed.

(** What does hold: once the deadline has passed, [quiescence] returns a
    finite number, the draw score or the static evaluation. *)
Lemma quiescence_expired_finite
  (evalFn : State -> Z) (now : nat -> Z) (fuel : nat) (s : State)
  (alpha beta : Num) (w : World) :
  num_ge (Fin (now (ticks w))) (deadline w) = true ->
  exists z w',
    quiescence evalFn now (S fuel) s alpha beta w = Some (Fin z, w')
    /\ (z = drawScore (turn s) \/ z = evalFn s).
Proof.
  intros Hclk. cbn [quiescence]. unfold quiescence_body.
  destruct (fiftyMoveDraw s || insufficientMaterial s).
  - exists (drawScore (turn s)), w. split; [done | by left].
  - unfold standPat.
    destruct (inCheck s (turn s)); [| destruct (Color_eqb (turn s) W)];
      repeat match goal with
      | |- context [if ?b then _ else _] => destruct b
      end;
      try (exists (evalFn s), w; split; [done | by right]);
      (eexists (evalFn s), _; split; [| by right];
       unfold bind at 1; unfold timeExpired, readClock; rewrite Hclk;
       reflexivity).
Qed.

(** ** King, bishop and knight against the bare king *)

(** C5 fails on king, bishop and knight against king: the position is
    not among the listed draws, yet the material test of the search
    reports a draw (it only asks for at most two minor pieces) and
    [alphaBeta] returns the draw score -12 for it at every depth and
    window. *)
Theorem insufficientMaterial_bishop_knight
  (evalFn : State -> Z) (now : nat -> Z) (zob : Zobrist) (fuel : nat)
  (d : Z) (alpha beta : Num) (ply : Z) (w : World) :
  listedDraw kbnk = false
  /\ insufficientMaterial kbnk = true
  /\ alphaBeta evalFn now zob (S fuel) kbnk d alpha beta ply w
     = Some (Fin (-12), w).
Proof.
  split; [vm_compute; reflexivity |].
  split; [vm_compute; reflexivity |].
  apply (alphaBeta_draw evalFn now zob fuel kbnk d alpha beta ply w).
  vm_compute. reflexivity.
Qed.

(** ** The root loop searches one chunk of root moves *)

(** The root moves are kept as an ordering of the legal moves: the sort
    by ordering score and the move of the best one to the front permute
    them. *)
Lemma annotateLoop_moves (w : World) (moves : list Move) (ttBest : option Move)
  (sideIdx ply : Z) (light : bool) (enemyKingSq : Z) :
  forall s,
    map (fun m => (a_from m, a_to m))
      (fst (annotateLoop w s moves ttBest sideIdx ply light enemyKingSq))
    = moves.
Proof.
  induction moves as [|[from to] rest IH]; intros s; [done |].
  cbn [annotateLoop].
  match goal with
  | |- context [if ?b then givesCheckAfter ?a1 ?a2 ?a3 ?a4 else ?e] =>
      destruct (if b then givesCheckAfter a1 a2 a3 a4 else e) as [chk s1]
  end.
  destruct (killerAt w ply) as [k0 k1].
  specialize (IH s1).
  destruct (annotateLoop w s1 rest ttBest sideIdx ply light enemyKingSq)
    as [anns s2].
  cbn [fst map a_from a_to] in *. by rewrite IH.
Qed.

Lemma insertDesc_perm (x : Ann) (l : list Ann) :
  Permutation (insertDesc x l) (x :: l).
Proof.
  induction l as [|y rest IH]; [done |].
  cbn [insertDesc]. destruct (a_os x <? a_os y); [| done].
  rewrite IH. apply perm_swap.
Qed.

Lemma sortDesc_perm (l : list Ann) : Permutation (sortDesc l) l.
Proof.
  induction l as [|x rest IH]; [done |].
  cbn [sortDesc fold_right]. fold (sortDesc rest).
  rewrite insertDesc_perm. by apply perm_skip.
Qed.

Lemma annotateMoves_perm (w : World) (s : State) (moves : list Move)
  (ttBest : option Move) (sideIdx ply : Z) (light : bool) :
  Permutation
    (map (fun m => (a_from m, a_to m))
       (fst (annotateMoves w s moves ttBest sideIdx ply light)))
    moves.
Proof.
  unfold annotateMoves.
  pose proof (annotateLoop_moves w moves ttBest sideIdx ply light
                (findKing s (opposite (turn s))) s) as E.
  destruct (annotateLoop _ _ _ _ _ _ _ _) as [out s1]. cbn [fst] in *.
  rewrite <- E. apply Permutation_map, sortDesc_perm.
Qed.

Lemma bestToFront_perm (best : Move) (moves : list Move) :
  Permutation (bestToFront best moves) moves.
Proof.
  unfold bestToFront. induction moves as [|m rest IH]; [done |].
  cbn [List.filter]. destruct (sameMove best m); cbn [negb].
  - cbn [app]. by apply perm_skip.
  - rewrite <- Permutation_middle. by apply perm_skip.
Qed.

Section RootFacts.

Variable evalFn : State -> Z.
Variable now : nat -> Z.
Variable zob : Zobrist.



End RootFacts.


(** ** Choosing the evaluator *)

(** C9, as the code has it.  In mlp mode, when the weights cannot be
    obtained (the fetch rejects, the response is not OK, or the body is
    not JSON) [getEval] returns the classical evaluator, without an
    error; when an object is loaded whose [layers] field does not hold
    exactly two layers, [getEval] throws. *)
Theorem getEval_mlp_failures (acq : Acquisition) :
  (acquisitionFailed acq ->
     getEval "mlp" acq = Returned (ClassicEval, mkInfo "classic_fallback" "white"))
  /\ (forall blob, acq = Loaded blob -> layerCount blob <> 2%nat ->
        getEval "mlp" acq = Thrown "Expected layers=[L0,L1] for 1-hidden MLP").
Proof.
  split.
  - by destruct acq.
  - intros blob -> Hn. cbn. unfold buildMlpWhitePOV, layerCount in *.
    destruct (layers blob) as [[|L0 [|L1 [|L2 rest]]]|]; try done.
Qed.

Lemma getEval_mlp_failures_witness :
  acquisitionFailed (HttpNotOk 404)
  /\ getEval "mlp" (HttpNotOk 404)
     = Returned (ClassicEval, mkInfo "classic_fallback" "white")
  /\ layerCount oneLayerBlob <> 2%nat
  /\ getEval "mlp" (Loaded oneLayerBlob)
     = Thrown "Expected layers=[L0,L1] for 1-hidden MLP".
Proof.
  split; [exact I |].
  split; [exact (proj1 (getEval_mlp_failures (HttpNotOk 404)) I) |].
  assert (Hn : layerCount oneLayerBlob <> 2%nat) by (cbn; lia).
  split; [exact Hn |].
  exact (proj2 (getEval_mlp_failures (Loaded oneLayerBlob)) oneLayerBlob
           eq_refl Hn).
Defined.

(** The sentence of the specification fails: a weight object with a single layer does
    not make [getEval] fall back to the classical evaluator, the call
    throws. *)
Lemma getEval_wrong_shape_counterexample :
  layerCount oneLayerBlob <> 2%nat
  /\ getEval "mlp" (Loaded oneLayerBlob)
     <> Returned (ClassicEval, mkInfo "classic_fallback" "white")
  /\ getEval "mlp" (Loaded oneLayerBlob)
     = Thrown "Expected layers=[L0,L1] for 1-hidden MLP".
Proof.
  split; [cbn; lia |].
  split; [cbn; discriminate | reflexivity].
Qed.

(** ** Position codec: texts *)

Lemma append_cons (ch : ascii) (a b : string) :
  String.append (String ch a) b = String ch (String.append a b).
Proof. reflexivity. Qed.

Lemma append_nil_l (b : string) : String.append EmptyString b = b.
Proof. reflexivity. Qed.

Lemma append_nil_r (a : string) : String.append a EmptyString = a.
Proof.
  induction a as [|ch a IH]; [done |]. by rewrite append_cons, IH.
Qed.

Lemma allChars_append (f : ascii -> bool) (a b : string) :
  allChars f (String.append a b) = allChars f a && allChars f b.
Proof.
  induction a as [|ch a IH]; [done |].
  rewrite append_cons. cbn [allChars]. by rewrite IH, andb_assoc.
Qed.

Lemma allChars_weaken (f g : ascii -> bool) (a : string) :
  (forall ch, f ch = true -> g ch = true) ->
  allChars f a = true -> allChars g a = true.
Proof.
  intros Hfg. induction a as [|ch a IH]; simpl; [done |].
  intros [H1 H2]%andb_true_iff. by rewrite (Hfg _ H1), IH.
Qed.

Lemma splitBy_plain (isSep : ascii -> bool) (a : string) :
  allChars (fun ch => negb (isSep ch)) a = true -> splitBy isSep a = [a].
Proof.
  induction a as [|ch a IH]; simpl; [done |].
  intros [H1 H2]%andb_true_iff. apply negb_true_iff in H1.
  by rewrite H1, (IH H2).
Qed.

Lemma splitBy_append (isSep : ascii -> bool) (a b : string) (ch : ascii) :
  allChars (fun x => negb (isSep x)) a = true -> isSep ch = true ->
  splitBy isSep (String.append a (String ch b)) = a :: splitBy isSep b.
Proof.
  intros Ha Hch. induction a as [|x a IH].
  - rewrite append_nil_l. cbn [splitBy]. by rewrite Hch.
  - rewrite append_cons. cbn [splitBy].
    cbn [allChars] in Ha. apply andb_true_iff in Ha as [H1 H2].
    apply negb_true_iff in H1. by rewrite H1, (IH H2).
Qed.

Lemma nonEmpty_append (a b : string) (ch : ascii) :
  nonEmpty (String.append a (String ch b)) = true.
Proof. by destruct a. Qed.

(** Six fields without white space, joined by single spaces, are read
    back as the same six fields. *)
Lemma fields_six (t1 t2 t3 t4 t5 t6 : string) :
  allChars fieldChar t1 = true -> nonEmpty t1 = true ->
  allChars fieldChar t2 = true -> nonEmpty t2 = true ->
  allChars fieldChar t3 = true -> nonEmpty t3 = true ->
  allChars fieldChar t4 = true -> nonEmpty t4 = true ->
  allChars fieldChar t5 = true -> nonEmpty t5 = true ->
  allChars fieldChar t6 = true -> nonEmpty t6 = true ->
  fields (sp t1 (sp t2 (sp t3 (sp t4 (sp t5 t6))))) = [t1; t2; t3; t4; t5; t6].
Proof.
  intros H1 N1 H2 N2 H3 N3 H4 N4 H5 N5 H6 N6.
  unfold fields, sp.
  rewrite !splitBy_append by done.
  rewrite (splitBy_plain isSpace t6) by done.
  cbn [List.filter]. by rewrite N1, N2, N3, N4, N5, N6.
Qed.

(** ** Numbers in the text *)

Lemma uint_digits (d : Decimal.uint) :
  allChars isDigit (NilEmpty.string_of_uint d) = true.
Proof. induction d; simpl; by rewrite ?IHd. Qed.

Lemma numToString_digits (z : Z) :
  0 <= z ->
  allChars isDigit (numToString z) = true /\ nonEmpty (numToString z) = true.
Proof.
  intros Hz. unfold numToString.
  destruct z as [|p|p]; [done | | lia].
  simpl. unfold NilZero.string_of_uint.
  destruct (Pos.to_uint p) eqn:E; try (split; [apply (uint_digits (_ u)) | done]).
  done.
Qed.

Lemma isDigit_fieldChar (ch : ascii) : isDigit ch = true -> fieldChar ch = true.
Proof.
  unfold isDigit, fieldChar, isSpace.
  generalize (nat_of_ascii ch). intros n H.
  apply andb_true_iff in H as [H1 H2].
  apply Nat.leb_le in H1. apply Nat.leb_le in H2.
  apply negb_true_iff.
  repeat match goal with
  | |- context [(?a <=? ?b)%nat] => destruct (Nat.leb_spec a b)
  | |- context [(?a =? ?b)%nat] => destruct (Nat.eqb_spec a b)
  end; simpl; try done; lia.
Qed.

Lemma parseNumber_numToString (z : Z) : parseNumber (numToString z) = Some z.
Proof.
  unfold parseNumber, numToString.
  assert (H : NilZero.int_of_string (NilZero.string_of_int (Z.to_int z))
              = Some (Z.to_int z)).
  { apply NilZero.isi; destruct z as [|p|p]; try done;
      intros [= Hp]; by apply (DecimalPos.Unsigned.to_uint_nonnil p). }
  destruct (NilZero.string_of_int (Z.to_int z)) eqn:E; [done |].
  rewrite H. cbn [option_map]. by rewrite DecimalZ.of_to.
Qed.

Lemma small_count (k : Z) :
  1 <= k <= 8 ->
  exists ch, numToString k = String ch EmptyString
             /\ isDigit ch = true /\ digitVal ch = k /\ rankChar ch = true.
Proof.
  intros H.
  assert (Hk : k = 1 \/ k = 2 \/ k = 3 \/ k = 4 \/ k = 5 \/ k = 6 \/ k = 7 \/ k = 8)
    by lia.
  destruct Hk as [-> | [-> | [-> | [-> | [-> | [-> | [-> | ->]]]]]]];
    eexists; (split; [reflexivity | split; [reflexivity | split; reflexivity]]).
Qed.

(** ** One rank of the placement field *)

Lemma pieceToFenChar_decode (p : Piece) :
  isDigit (pieceToFenChar p) = false
  /\ kindOfLetter (upperChar (pieceToFenChar p)) = Some (t p)
  /\ (if Ascii.eqb (pieceToFenChar p) (upperChar (pieceToFenChar p))
      then W else B) = c p
  /\ rankChar (pieceToFenChar p) = true.
Proof. destruct p as [[] []]; repeat split; reflexivity. Qed.

Lemma rankPlacement_chars (cells : list Cell) :
  forall k, 0 <= k -> k + Z.of_nat (length cells) <= 8 ->
  allChars rankChar (rankPlacement cells k) = true.
Proof.
  induction cells as [|[p|] rest IH]; intros k Hk Hlen; cbn [rankPlacement].
  - destruct (Z.eqb_spec k 0); [done |].
    cbn [length] in Hlen.
    destruct (small_count k ltac:(lia)) as (ch & -> & _ & _ & Hch).
    cbn. by rewrite Hch.
  - cbn [length] in Hlen.
    rewrite allChars_append. cbn [allChars].
    destruct (pieceToFenChar_decode p) as (_ & _ & _ & ->).
    rewrite (IH 0) by lia. rewrite andb_true_r.
    destruct (Z.eqb_spec k 0); [done |].
    destruct (small_count k ltac:(lia)) as (ch & -> & _ & _ & Hch).
    cbn. by rewrite Hch.
  - cbn [length] in Hlen. apply IH; lia.
Qed.

Lemma loadRank_rankPlacement (r : Z) (cells : list Cell) :
  forall k f b, 0 <= k -> k + Z.of_nat (length cells) <= 8 ->
  loadRank r (rankPlacement cells k) (f - k) b = Some (writeCells r f cells b).
Proof.
  induction cells as [|[p|] rest IH]; intros k f b Hk Hlen;
    cbn [rankPlacement writeCells].
  - destruct (Z.eqb_spec k 0); [done |].
    cbn [length] in Hlen.
    destruct (small_count k ltac:(lia)) as (ch & -> & Hd & Hv & _).
    cbn [loadRank]. by rewrite Hd.
  - cbn [length] in Hlen.
    destruct (pieceToFenChar_decode p) as (Hnd & Hkind & Hcol & _).
    assert (Hpiece : loadRank r (String (pieceToFenChar p) (rankPlacement rest 0))
                       f b
                     = Some (writeCells r (f + 1) rest
                               (wr b (toIndex r f) (Some p)))).
    { cbn [loadRank]. rewrite Hnd, Hkind, Hcol.
      replace (mkPiece (c p) (t p)) with p by (by destruct p).
      replace (f + 1) with (f + 1 - 0) at 1 by lia.
      apply IH; lia. }
    destruct (Z.eqb_spec k 0) as [-> | Hk0].
    + rewrite append_nil_l. by replace (f - 0) with f by lia.
    + destruct (small_count k ltac:(lia)) as (ch & -> & Hd & Hv & _).
      rewrite append_cons, append_nil_l. cbn [loadRank]. rewrite Hd, Hv.
      by replace (f - k + k) with f by lia.
  - cbn [length] in Hlen.
    replace (f - k) with (f + 1 - (k + 1)) by lia.
    apply IH; lia.
Qed.

Lemma length_writeCells (r : Z) (cells : list Cell) :
  forall f b, 0 <= r < 8 -> 0 <= f -> f + Z.of_nat (length cells) <= 8 ->
  length b = 64%nat -> length (writeCells r f cells b) = 64%nat.
Proof.
  induction cells as [|[p|] rest IH]; intros f b Hr Hf Hlen Hb;
    cbn [writeCells length] in *; [done | |].
  - apply IH; [done | lia | lia |].
    apply length_wr_64; [unfold toIndex; lia | done].
  - apply IH; [done | lia | lia | done].
Qed.

(** What a square reads after a rank has been written. *)
Lemma rd_writeCells (r : Z) (cells : list Cell) :
  forall f b i, 0 <= toIndex r f ->
  rd (writeCells r f cells b) i
  = if (toIndex r f <=? i) && (i <? toIndex r f + Z.of_nat (length cells))
    then match nth (Z.to_nat (i - toIndex r f)) cells None with
         | Some p => Some p
         | None => rd b i
         end
    else rd b i.
Proof.
  induction cells as [|[p|] rest IH]; intros f b i Hidx;
    cbn [writeCells length].
  - destruct (toIndex r f <=? i) eqn:E1;
      destruct (i <? toIndex r f + Z.of_nat 0) eqn:E2; try done. zbool. lia.
  - rewrite IH by (unfold toIndex in *; lia).
    replace (toIndex r (f + 1)) with (toIndex r f + 1) by (unfold toIndex; lia).
    rewrite rd_wr.
    destruct (Z.eqb_spec (toIndex r f) i) as [<- | Hne].
    + replace (toIndex r f + 1 <=? toIndex r f) with false
        by (symmetry; apply Z.leb_gt; lia).
      replace (toIndex r f <=? toIndex r f) with true
        by (symmetry; apply Z.leb_le; lia).
      replace (toIndex r f <? toIndex r f + Z.of_nat (S (length rest))) with true
        by (symmetry; apply Z.ltb_lt; lia).
      replace (0 <=? toIndex r f) with true by (symmetry; apply Z.leb_le; lia).
      cbn [andb]. by rewrite Z.sub_diag.
    + cbn [andb].
      destruct (Z.leb_spec (toIndex r f + 1) i) as [H1|H1];
        destruct (Z.ltb_spec i (toIndex r f + 1 + Z.of_nat (length rest))) as [H2|H2];
        destruct (Z.leb_spec (toIndex r f) i) as [H3|H3];
        destruct (Z.ltb_spec i (toIndex r f + Z.of_nat (S (length rest)))) as [H4|H4];
        cbn [andb]; try lia; try done.
      replace (Z.to_nat (i - toIndex r f)) with (S (Z.to_nat (i - (toIndex r f + 1))))
        by lia.
      done.
  - rewrite IH by (unfold toIndex in *; lia).
    replace (toIndex r (f + 1)) with (toIndex r f + 1) by (unfold toIndex; lia).
    destruct (Z.leb_spec (toIndex r f + 1) i) as [H1|H1];
      destruct (Z.ltb_spec i (toIndex r f + 1 + Z.of_nat (length rest))) as [H2|H2];
      destruct (Z.leb_spec (toIndex r f) i) as [H3|H3];
      destruct (Z.ltb_spec i (toIndex r f + Z.of_nat (S (length rest)))) as [H4|H4];
      cbn [andb]; try lia; try done.
    + replace (Z.to_nat (i - toIndex r f)) with (S (Z.to_nat (i - (toIndex r f + 1))))
        by lia.
      done.
    + replace i with (toIndex r f) by lia. by rewrite Z.sub_diag.
Qed.

(** ** The placement field and the board *)

Lemma rankText_chars (b : Board) (r : Z) :
  allChars rankChar (rankText b r) = true.
Proof. apply rankPlacement_chars; [lia | cbn; lia]. Qed.

Lemma rankText_no_slash (b : Board) (r : Z) :
  allChars (fun x => negb (Ascii.eqb "/" x)) (rankText b r) = true.
Proof.
  apply (allChars_weaken rankChar); [| apply rankText_chars].
  intros ch H. unfold rankChar in H. by apply andb_true_iff in H as [_ H].
Qed.

Lemma rankText_field (b : Board) (r : Z) :
  allChars fieldChar (rankText b r) = true.
Proof.
  apply (allChars_weaken rankChar); [| apply rankText_chars].
  intros ch H. unfold rankChar in H. by apply andb_true_iff in H as [H _].
Qed.

Lemma placementFrom_eq (b : Board) :
  placementFrom b fileList
  = String.append (rankText b 0) (String "/"
     (String.append (rankText b 1) (String "/"
       (String.append (rankText b 2) (String "/"
         (String.append (rankText b 3) (String "/"
           (String.append (rankText b 4) (String "/"
             (String.append (rankText b 5) (String "/"
               (String.append (rankText b 6) (String "/"
                 (rankText b 7)))))))))))))).
Proof.
  unfold fileList. cbn [placementFrom]. fold (rankText b 0) (rankText b 1)
    (rankText b 2) (rankText b 3) (rankText b 4) (rankText b 5)
    (rankText b 6) (rankText b 7).
  change (0 =? 7) with false. change (1 =? 7) with false.
  change (2 =? 7) with false. change (3 =? 7) with false.
  change (4 =? 7) with false. change (5 =? 7) with false.
  change (6 =? 7) with false. change (7 =? 7) with true.
  cbn iota. rewrite !append_nil_l, append_nil_r.
  rewrite !append_cons, !append_nil_l. reflexivity.
Qed.

Lemma placement_ranks (b : Board) :
  splitBy (Ascii.eqb "/") (placementFrom b fileList)
  = map (rankText b) fileList.
Proof.
  rewrite placementFrom_eq.
  rewrite !splitBy_append by (apply rankText_no_slash || reflexivity).
  rewrite splitBy_plain by apply rankText_no_slash.
  reflexivity.
Qed.

Lemma placement_field (b : Board) :
  allChars fieldChar (placementFrom b fileList) = true
  /\ nonEmpty (placementFrom b fileList) = true.
Proof.
  rewrite placementFrom_eq. split; [| apply nonEmpty_append].
  repeat (rewrite allChars_append; cbn [allChars]).
  rewrite !rankText_field. reflexivity.
Qed.

Lemma loadRank_rankText (b b' : Board) (r : Z) :
  loadRank r (rankText b r) 0 b' = Some (writeCells r 0 (rankCells b r) b').
Proof.
  unfold rankText.
  change 0 with (0 - 0) at 2.
  apply loadRank_rankPlacement; [lia | cbn; lia].
Qed.

Lemma loadRanks_cons (r : Z) (rest : list Z) (ranks : list string)
  (b b' : Board) (chars : string) :
  nth_error ranks (Z.to_nat r) = Some chars ->
  loadRank r chars 0 b = Some b' ->
  loadRanks (r :: rest) ranks b = loadRanks rest ranks b'.
Proof. intros H1 H2. cbn [loadRanks]. by rewrite H1, H2. Qed.

Lemma loadRanks_placement (b : Board) :
  loadRanks fileList (map (rankText b) fileList) (repeat None 64)
  = Some (rebuilt b).
Proof.
  unfold rebuilt, fileList. cbn [map fold_left].
  repeat (erewrite loadRanks_cons;
          [| reflexivity | apply loadRank_rankText]).
  reflexivity.
Qed.

Lemma rd_empty_board (n : nat) (i : Z) : rd (repeat None n) i = None.
Proof.
  unfold rd. destruct (i <? 0); [done |].
  destruct (repeat None n !! Z.to_nat i) as [x|] eqn:E; [| done].
  apply list_elem_of_lookup_2, list_elem_of_In, repeat_spec in E. by subst.
Qed.

Lemma nth_rankCells (b : Board) (r j : Z) :
  0 <= j < 8 -> nth (Z.to_nat j) (rankCells b r) None = rd b (toIndex r j).
Proof.
  intros H.
  assert (Hj : j = 0 \/ j = 1 \/ j = 2 \/ j = 3 \/ j = 4 \/ j = 5 \/ j = 6 \/ j = 7)
    by lia.
  destruct Hj as [-> | [-> | [-> | [-> | [-> | [-> | [-> | ->]]]]]]]; reflexivity.
Qed.

Lemma rd_writeRank (b0 b : Board) (r i : Z) :
  0 <= r < 8 ->
  rd (writeCells r 0 (rankCells b0 r) b) i
  = if (8 * r <=? i) && (i <? 8 * r + 8)
    then match rd b0 i with Some p => Some p | None => rd b i end
    else rd b i.
Proof.
  intros Hr. rewrite rd_writeCells by (unfold toIndex; lia).
  replace (toIndex r 0) with (8 * r) by (unfold toIndex; lia).
  change (Z.of_nat (length (rankCells b0 r))) with 8.
  destruct (Z.leb_spec (8 * r) i) as [H1|H1];
    destruct (Z.ltb_spec i (8 * r + 8)) as [H2|H2]; cbn [andb]; try done.
  rewrite nth_rankCells by lia.
  by replace (toIndex r (i - 8 * r)) with i by (unfold toIndex; lia).
Qed.

Lemma rebuilt_step (b0 b : Board) (r : Z) :
  0 <= r < 8 ->
  (forall i, rd b i = if (0 <=? i) && (i <? 8 * r) then rd b0 i else None) ->
  forall i, rd (writeCells r 0 (rankCells b0 r) b) i
            = if (0 <=? i) && (i <? 8 * (r + 1)) then rd b0 i else None.
Proof.
  intros Hr Hb i. rewrite rd_writeRank, Hb by done.
  destruct (Z.leb_spec (8 * r) i); destruct (Z.ltb_spec i (8 * r + 8));
    destruct (Z.leb_spec 0 i); destruct (Z.ltb_spec i (8 * r));
    destruct (Z.ltb_spec i (8 * (r + 1))); cbn [andb]; try lia;
    try done; by destruct (rd b0 i).
Qed.

Lemma rebuilt_eq (b : Board) : length b = 64%nat -> rebuilt b = b.
Proof.
  intros Hlen. apply board_ext.
  - rewrite Hlen. unfold rebuilt, fileList. cbn [fold_left].
    repeat (apply length_writeCells; [lia | lia | cbn; lia |]).
    apply repeat_length.
  - unfold rebuilt, fileList. cbn [fold_left].
    assert (H0 : forall i, rd (repeat None 64) i
                 = if (0 <=? i) && (i <? 8 * 0) then rd b i else None).
    { intros i. rewrite rd_empty_board.
      destruct (Z.leb_spec 0 i); destruct (Z.ltb_spec i (8 * 0));
        cbn [andb]; try done; lia. }
    pose proof (rebuilt_step b _ 0 ltac:(lia) H0) as H1.
    pose proof (rebuilt_step b _ 1 ltac:(lia) H1) as H2.
    pose proof (rebuilt_step b _ 2 ltac:(lia) H2) as H3.
    pose proof (rebuilt_step b _ 3 ltac:(lia) H3) as H4.
    pose proof (rebuilt_step b _ 4 ltac:(lia) H4) as H5.
    pose proof (rebuilt_step b _ 5 ltac:(lia) H5) as H6.
    pose proof (rebuilt_step b _ 6 ltac:(lia) H6) as H7.
    pose proof (rebuilt_step b _ 7 ltac:(lia) H7) as H8.
    intros i. rewrite (H8 i).
    destruct (Z.leb_spec 0 i); destruct (Z.ltb_spec i (8 * (7 + 1)));
      cbn [andb]; try done; rewrite rd_outside; try done; lia.
Qed.

(** ** The round trip through the text *)

Lemma isRight_facts (ch : ascii) :
  isRight ch = true -> fieldChar ch = true /\ Ascii.eqb ch "-" = false.
Proof.
  unfold isRight, castleOrder. cbn [existsb]. rewrite !orb_true_iff.
  intros [H | [H | [H | [H | H]]]]; try done;
    apply Ascii.eqb_eq in H; subst; by split.
Qed.

Lemma number_field (z : Z) :
  0 <= z ->
  allChars fieldChar (numToString z) = true /\ nonEmpty (numToString z) = true.
Proof.
  intros Hz. destruct (numToString_digits z Hz) as [Hd Hn]. split; [| done].
  apply (allChars_weaken isDigit); [apply isDigit_fieldChar | done].
Qed.

Lemma file_letter (f : Z) :
  0 <= f < 8 ->
  exists ch, String.get (Z.to_nat f) files = Some ch
             /\ fieldChar ch = true /\ Ascii.eqb ch "-" = false
             /\ indexOfChar ch files 0 = f.
Proof.
  intros H.
  assert (Hj : f = 0 \/ f = 1 \/ f = 2 \/ f = 3 \/ f = 4 \/ f = 5 \/ f = 6 \/ f = 7)
    by lia.
  destruct Hj as [-> | [-> | [-> | [-> | [-> | [-> | [-> | ->]]]]]]];
    eexists; (split; [reflexivity | split; [reflexivity | split; reflexivity]]).
Qed.

Lemma algebraic_facts (e : Z) :
  0 < e < 64 ->
  allChars fieldChar (algebraic e) = true
  /\ nonEmpty (algebraic e) = true
  /\ isDash (algebraic e) = false
  /\ algebraicToIndex (algebraic e) = Some e.
Proof.
  intros He.
  destruct (rank_file_range e ltac:(lia)) as [Hr Hf].
  pose proof (toIndex_rank_file e ltac:(lia)) as Hidx.
  destruct (number_field (8 - rankOf e) ltac:(lia)) as [Hnum _].
  destruct (file_letter (fileOf e) Hf) as (ch & Hget & Hfc & Hnd & Hix).
  unfold algebraic, algebraicToIndex. rewrite Hget.
  replace (fileOf e <? 0) with false by (symmetry; apply Z.ltb_ge; lia).
  rewrite parseNumber_numToString, Hix. cbn [allChars nonEmpty].
  rewrite Hfc, Hnum. unfold isDash. cbn [String.eqb]. rewrite Hnd.
  split; [reflexivity | split; [reflexivity | split; [reflexivity |]]].
  f_equal. transitivity (toIndex (rankOf e) (fileOf e)); [f_equal; lia | exact Hidx].
Qed.

(** The codec round trip on a position that meets [codec_ok]. *)
Lemma loadFEN_toFEN (s0 s : State) :
  codec_ok s -> loadFEN s0 (toFEN s) = Some s.
Proof.
  intros (Hlen & Hep & Hcr & Hhalf & Hfull).
  destruct (placement_field (board s)) as [Hp1 Hp2].
  destruct (number_field (halfmove s) Hhalf) as [Hh1 Hh2].
  destruct (number_field (fullmove s) ltac:(lia)) as [Hf1 Hf2].
  assert (Hturn : allChars fieldChar (turnLetter (turn s)) = true
                  /\ nonEmpty (turnLetter (turn s)) = true)
    by (by destruct (turn s)).
  destruct Hturn as [Ht1 Ht2].
  set (castle := match castleRight s with
                 | EmptyString => "-"%string
                 | cr => cr
                 end).
  assert (Hcastle : allChars fieldChar castle = true /\ nonEmpty castle = true
                    /\ (if isDash castle then EmptyString else castle)
                       = castleRight s).
  { unfold castle. destruct (castleRight s) as [|ch rest] eqn:E; [done |].
    cbn [allChars] in Hcr. apply andb_true_iff in Hcr as [Hch Hrest].
    destruct (isRight_facts ch Hch) as [Hfc Hnd].
    split; [| split; [done |]].
    - cbn [allChars]. rewrite Hfc. cbn [andb].
      apply (allChars_weaken isRight); [| done].
      intros x Hx. by destruct (isRight_facts x Hx).
    - unfold isDash. cbn [String.eqb]. by rewrite Hnd. }
  destruct Hcastle as (Hc1 & Hc2 & Hc3).
  set (epText := match ep s with
                 | None => "-"%string
                 | Some e => if e =? 0 then "-"%string else algebraic e
                 end).
  assert (Hept : allChars fieldChar epText = true /\ nonEmpty epText = true
                 /\ (if isDash epText then Some None
                     else option_map Some (algebraicToIndex epText))
                    = Some (ep s)).
  { unfold epText. destruct (ep s) as [e|] eqn:E; [| done].
    specialize (Hep e eq_refl).
    replace (e =? 0) with false by (symmetry; apply Z.eqb_neq; lia).
    destruct (algebraic_facts e Hep) as (Ha1 & Ha2 & Ha3 & Ha4).
    by rewrite Ha3, Ha4. }
  destruct Hept as (He1 & He2 & He3).
  unfold loadFEN, toFEN. fold castle. fold epText.
  rewrite fields_six by done.
  rewrite placement_ranks, loadRanks_placement, (rebuilt_eq _ Hlen).
  rewrite He3, Hc3, !parseNumber_numToString.
  replace (fullmove s =? 0) with false by (symmetry; apply Z.eqb_neq; lia).
  destruct s as [b tn cr e h fl]. cbn [turn turnLetter].
  by destruct tn.
Qed.

(** ** Positions of a game *)

Lemma game_inv_wf (s : State) : game_inv s -> wf_state s.
Proof.
  intros (Hlen & Hep & _). split; [done |].
  intros e He. destruct (Hep e He). split; [lia | done].
Qed.

Lemma game_inv_codec (s : State) : game_inv s -> codec_ok s.
Proof.
  intros (Hlen & Hep & Hcr & Hh & Hf). repeat split; try done;
    destruct (Hep e H); lia.
Qed.

Lemma initialState_inv : game_inv initialState.
Proof.
  split; [reflexivity |]. split; [intros e H; discriminate H |].
  split; [reflexivity |]. cbn. lia.
Qed.

Lemma castle_ok_remove (s : State) (codes : list ascii) :
  allChars isRight (castleRight (removeCastleRight s codes)) = true.
Proof.
  unfold removeCastleRight, castleOrder. cbn [castleRight List.filter].
  repeat match goal with
  | |- context [if ?b then _ else _] => destruct b
  end; reflexivity.
Qed.

Lemma castle_ok_drop (sq : Z) (s : State) :
  allChars isRight (castleRight s) = true ->
  allChars isRight (castleRight (dropRightAt sq s)) = true.
Proof.
  intros H. unfold dropRightAt.
  repeat match goal with
  | |- context [if ?b then _ else _] => destruct b
  end; try done; apply castle_ok_remove.
Qed.

Lemma revokeRights_fields (s : State) (mover : Piece) (captured : Cell)
  (from to : Z) :
  let s' := revokeRights s mover captured from to in
  board s' = board s /\ turn s' = turn s /\ ep s' = ep s
  /\ halfmove s' = halfmove s /\ fullmove s' = fullmove s
  /\ (allChars isRight (castleRight s) = true ->
      allChars isRight (castleRight s') = true).
Proof.
  unfold revokeRights.
  set (s7 := if Kind_eqb (t mover) K then _ else s).
  assert (H7 : board s7 = board s /\ turn s7 = turn s /\ ep s7 = ep s
               /\ halfmove s7 = halfmove s /\ fullmove s7 = fullmove s
               /\ (allChars isRight (castleRight s) = true ->
                   allChars isRight (castleRight s7) = true)).
  { unfold s7. destruct (Kind_eqb (t mover) K); [| done].
    destruct (c mover);
      (split; [reflexivity | split; [reflexivity | split; [reflexivity |
        split; [reflexivity | split; [reflexivity |]]]]]);
      intros; apply castle_ok_remove. }
  destruct H7 as (Hb7 & Ht7 & He7 & Hh7 & Hf7 & Hc7).
  set (s8 := if Kind_eqb (t mover) R then dropRightAt from s7 else s7).
  assert (H8 : board s8 = board s /\ turn s8 = turn s /\ ep s8 = ep s
               /\ halfmove s8 = halfmove s /\ fullmove s8 = fullmove s
               /\ (allChars isRight (castleRight s) = true ->
                   allChars isRight (castleRight s8) = true)).
  { unfold s8. destruct (Kind_eqb (t mover) R); [| done].
    destruct (dropRightAt_fields from s7) as (-> & -> & -> & -> & ->).
    repeat split; try done. intros H. by apply castle_ok_drop, Hc7. }
  destruct H8 as (Hb8 & Ht8 & He8 & Hh8 & Hf8 & Hc8).
  cbn zeta.
  destruct captured as [cp|]; [| done].
  destruct (Kind_eqb (t cp) R); [| done].
  destruct (dropRightAt_fields to s8) as (-> & -> & -> & -> & ->).
  repeat split; try done. intros H. by apply castle_ok_drop, Hc8.
Qed.

Lemma set_castle_rook_inv (s : State) (a b : Z) :
  0 <= a < 64 -> 0 <= b < 64 -> length (board s) = 64%nat ->
  length (board (set_castle_rook s a b)) = 64%nat
  /\ castleRight (set_castle_rook s a b) = castleRight s
  /\ halfmove (set_castle_rook s a b) = halfmove s
  /\ fullmove (set_castle_rook s a b) = fullmove s
  /\ turn (set_castle_rook s a b) = turn s.
Proof.
  intros Ha Hb Hlen. unfold set_castle_rook. cbn.
  repeat split. by repeat (apply length_wr_64; [lia |]).
Qed.

Lemma castleStage_inv (s : State) (mover : Piece) (from to : Z) :
  length (board s) = 64%nat ->
  let s' := castleStage s mover from to in
  length (board s') = 64%nat
  /\ halfmove s' = halfmove s /\ fullmove s' = fullmove s /\ turn s' = turn s
  /\ (allChars isRight (castleRight s) = true ->
      allChars isRight (castleRight s') = true)
  /\ (isCastleFlag mover from to = false -> s' = s).
Proof.
  intros Hlen. unfold castleStage.
  destruct (isCastleFlag mover from to); [| done].
  assert (Hsq : forall a b, (a = 7 \/ a = 0) -> 0 <= b < 8 -> 0 <= toIndex a b < 64)
    by (intros; unfold toIndex; lia).
  destruct (c mover); destruct (to =? _);
    match goal with
    | |- context [set_castle_rook s ?a ?b] =>
        destruct (set_castle_rook_inv s a b) as (H1 & H2 & H3 & H4 & H5);
        [apply Hsq; lia | apply Hsq; lia | done |]
    end;
    (split; [exact H1 | split; [exact H3 | split; [exact H4 | split; [exact H5 |
       split; [intros; apply castle_ok_remove | done]]]]]).
Qed.

Lemma movePieces_inv (s : State) (mover : Piece) (from to : Z) :
  game_inv s -> 0 <= from < 64 -> 0 <= to < 64 ->
  let s' := movePieces s mover from to in
  length (board s') = 64%nat /\ 0 <= halfmove s'
  /\ castleRight s' = castleRight s /\ fullmove s' = fullmove s
  /\ turn s' = turn s.
Proof.
  intros (Hlen & Hep & _ & Hh & _) Hfrom Hto. unfold movePieces.
  cbn [board halfmove castleRight fullmove turn].
  split; [| split; [| done]].
  - assert (Hcap : isEPFlag s mover from to = true ->
                   0 <= capturedIndexOf s mover from to < 64).
    { intros Hf. unfold capturedIndexOf. rewrite Hf.
      unfold isEPFlag in Hf. rewrite !andb_true_iff in Hf.
      destruct Hf as [[_ He] _].
      destruct (ep s) as [e|] eqn:E; [| done]. apply Z.eqb_eq in He. subst e.
      destruct (Hep to eq_refl) as [Hrange _].
      destruct (rank_file_range to ltac:(lia)) as [Hr Hfl].
      assert (1 <= rankOf to <= 6)
        by (unfold rankOf in *; Z.div_mod_to_equations; lia).
      unfold toIndex. destruct (c mover); simpl; lia. }
    destruct (isPromotionFlag mover to); destruct (isEPFlag s mover from to);
      repeat (apply length_wr_64; [lia || (apply Hcap; reflexivity) |]); done.
  - destruct (_ || _); lia.
Qed.

(** A pawn move that spans two ranks is the double push from the
    starting rank over an empty square. *)
Lemma pawn_double_push (s : State) (i to : Z) (p : Piece) :
  wf_state s -> 0 <= i < 64 ->
  rd (board s) i = Some p -> t p = P ->
  In to (pawnMoves s i) -> Z.abs (rankOf to - rankOf i) = 2 ->
  fileOf to = fileOf i
  /\ rankOf to = rankOf i + 2 * moveDir (c p)
  /\ (1 <= rankOf i + moveDir (c p) <= 6 /\ 3 <= rankOf to <= 4)
  /\ rd (board s) (toIndex (rankOf i + moveDir (c p)) (fileOf i)) = None.
Proof.
  intros [Hlen Hwf] Hi Hp Hk Hin Habs.
  destruct (rank_file_range i Hi) as [Hr Hf].
  unfold pawnMoves in Hin. rewrite Hp, Hk in Hin. cbn [Kind_eqb negb] in Hin.
  assert (Hdir : moveDir (c p) = 1 \/ moveDir (c p) = -1)
    by (destruct (c p); simpl; lia).
  assert (Hcapt : forall df,
    ~ In to (if onBoard (rankOf i + moveDir (c p)) (fileOf i + df)
             then match rd (board s)
                          (toIndex (rankOf i + moveDir (c p)) (fileOf i + df)) with
                  | Some q =>
                      if negb (Color_eqb (c q) (c p))
                      then [toIndex (rankOf i + moveDir (c p)) (fileOf i + df)]
                      else []
                  | None => []
                  end
             else [])).
  { intros df.
    destruct (onBoard (rankOf i + moveDir (c p)) (fileOf i + df)) eqn:Hob;
      [| simpl; tauto].
    apply onBoard_spec in Hob.
    destruct (rd (board s) (toIndex (rankOf i + moveDir (c p)) (fileOf i + df)))
      as [q|]; [| simpl; tauto].
    destruct (negb (Color_eqb (c q) (c p))); [| simpl; tauto].
    intros [Heq | []]. rewrite <- Heq in Habs.
    rewrite rank_toIndex in Habs by lia. lia. }
  rewrite !in_app_iff in Hin. destruct Hin as [Hin | [Hin | [Hin | Hin]]].
  - destruct (onBoard _ _) eqn:Hob; [| done].
    apply onBoard_spec in Hob.
    destruct (isEmptyAt s (toIndex (rankOf i + moveDir (c p)) (fileOf i))) eqn:He;
      [| done].
    destruct Hin as [Heq | Hin].
    + rewrite <- Heq in Habs. rewrite rank_toIndex in Habs by lia. lia.
    + destruct (rankOf i =? _) eqn:Hst; [| done]. apply Z.eqb_eq in Hst.
      destruct (isEmptyAt s (toIndex (rankOf i + 2 * moveDir (c p)) (fileOf i)));
        [| done].
      destruct Hin as [<- | []].
      assert (0 <= rankOf i + 2 * moveDir (c p))
        by (destruct (c p); simpl in *; lia).
      rewrite file_toIndex, rank_toIndex by lia.
      split; [done | split; [done | split;
        [clear -Hst; destruct (c p); simpl in *; lia |]]].
      unfold isEmptyAt in He.
      destruct (rd (board s) (toIndex (rankOf i + moveDir (c p)) (fileOf i)));
        [discriminate He | reflexivity].
  - by destruct (Hcapt (-1)).
  - by destruct (Hcapt 1).
  - destruct (ep s) as [e|] eqn:He; [| done].
    destruct ((rankOf e =? rankOf i + moveDir (c p))
              && (Z.abs (fileOf e - fileOf i) =? 1)) eqn:Hgeo; [| done].
    apply andb_true_iff in Hgeo as [Hrk _]. apply Z.eqb_eq in Hrk.
    destruct (rd (board s) (toIndex (rankOf i) (fileOf e))) as [adj|]; [| done].
    destruct (Kind_eqb (t adj) P && negb (Color_eqb (c adj) (c p))); [| done].
    destruct Hin as [<- | []]. lia.
Qed.

Lemma generateMoves_pawn (s : State) (i : Z) (p : Piece) :
  rd (board s) i = Some p -> t p = P -> generateMoves s i = pawnMoves s i.
Proof. intros Hp Hk. unfold generateMoves. by rewrite Hp, Hk. Qed.

(** A legal move keeps the invariant. *)
Lemma applyMovePure_inv (s : State) (from to : Z) :
  game_inv s -> In (from, to) (allLegalMoves s (turn s)) ->
  game_inv (applyMovePure s from to).
Proof.
  intros Hinv Hin.
  pose proof (game_inv_wf s Hinv) as Hwf.
  destruct (allLegalMovesSt_spec s (turn s) Hwf) as [_ Hm].
  destruct (Hm _ Hin) as (_ & Hfrom & (p & Hp & Hc) & Hgen & _).
  cbn [fst snd] in *.
  destruct (generateMoves_targets s from to Hwf Hfrom Hgen) as [Hto _].
  unfold applyMovePure. rewrite Hp.
  destruct (movePieces_inv s p from to Hinv Hfrom Hto) as (L4 & H4 & C4 & F4 & T4).
  destruct (castleStage_inv (movePieces s p from to) p from to L4)
    as (L5 & H5 & F5 & T5 & C5 & E5).
  match goal with
  | |- game_inv (flipTurn (revokeRights ?s6 p ?cap from to)) =>
      destruct (revokeRights_fields s6 p cap from to)
        as (B9 & T9 & E9 & H9 & F9 & C9)
  end.
  destruct Hinv as (Hlen & Hep & Hcr & Hh & Hf).
  unfold game_inv, flipTurn. cbn [board ep castleRight halfmove fullmove].
  rewrite B9, E9, H9, F9. cbn [publishEp board ep halfmove fullmove].
  split; [exact L5 |]. split; [| split; [| split]].
  - intros e He.
    destruct (Kind_eqb (t p) P) eqn:Hk; [| done].
    apply Kind_eqb_eq in Hk.
    destruct (Z.abs (rankOf to - rankOf from) =? 2) eqn:Habs; [| done].
    apply Z.eqb_eq in Habs. cbn [andb] in He. injection He as <-.
    rewrite (generateMoves_pawn s from p Hp Hk) in Hgen.
    destruct (pawn_double_push s from to p Hwf Hfrom Hp Hk Hgen Habs)
      as (Hfile & Hrank & [Hmid Hland] & Hempty).
    destruct (rank_file_range from Hfrom) as [Hr Hfl].
    replace ((rankOf to + rankOf from) / 2) with (rankOf from + moveDir (c p))
      by (rewrite Hrank;
          replace (rankOf from + 2 * moveDir (c p) + rankOf from)
            with ((rankOf from + moveDir (c p)) * 2) by lia;
          by rewrite Z.div_mul).
    split; [unfold toIndex; lia |].
    rewrite E5 by (unfold isCastleFlag; by rewrite Hk).
    unfold movePieces. cbn [board].
    replace (isEPFlag s p from to) with false
      by (unfold isEPFlag; rewrite Hfile, Z.eqb_refl; cbn;
          by rewrite andb_false_r).
    replace (isPromotionFlag p to) with false
      by (unfold isPromotionFlag;
          replace (rankOf to =? 0) with false by (symmetry; apply Z.eqb_neq; lia);
          replace (rankOf to =? 7) with false by (symmetry; apply Z.eqb_neq; lia);
          by rewrite andb_false_r).
    rewrite !rd_wr.
    pose proof (toIndex_rank_file from ltac:(lia)) as Hfi.
    pose proof (toIndex_rank_file to ltac:(lia)) as Hti.
    replace (from =? toIndex (rankOf from + moveDir (c p)) (fileOf from)) with false
      by (symmetry; apply Z.eqb_neq; unfold toIndex in *; lia).
    replace (to =? toIndex (rankOf from + moveDir (c p)) (fileOf from)) with false
      by (symmetry; apply Z.eqb_neq; unfold toIndex in *; lia).
    done.
  - apply C9. cbn [publishEp castleRight]. apply C5. by rewrite C4.
  - cbn [publishEp halfmove]. lia.
  - rewrite T9. cbn [publishEp turn fullmove]. rewrite T5, T4, F5, F4.
    destruct (opposite (turn s)); lia.
Qed.

Lemma reachable_inv (s : State) : reachable s -> game_inv s.
Proof.
  induction 1 as [|s from to _ IH Hin].
  - exact initialState_inv.
  - by apply applyMovePure_inv.
Qed.

(** C8.  The round trip through FEN: for every position of a game (the
    initial position followed by legal moves), loading the text emitted
    for it gives back the position, with the same board, side to move,
    castling rights, en-passant square, halfmove clock and fullmove
    number; the state loaded into does not matter. *)
Theorem fen_round_trip (s0 s : State) :
  reachable s -> loadFEN s0 (toFEN s) = Some s.
Proof.
  intros H. by apply loadFEN_toFEN, game_inv_codec, reachable_inv.
Qed.

Lemma afterE4_reachable : reachable afterE4.
Proof.
  apply (reach_move initialState 52 36 reach_initial).
  vm_compute. tauto.
Qed.

Lemma fen_round_trip_witness :
  reachable afterE4 /\ loadFEN initialState (toFEN afterE4) = Some afterE4.
Proof.
  split; [exact afterE4_reachable |].
  exact (fen_round_trip initialState afterE4 afterE4_reachable).
Defined.

(** ** The legal-move loop: checks and pins *)

Lemma filterLegal_eq (s : State) (i kingSq : Z) (keep : Z -> bool)
  (pseudo : list Z) :
  wf_state s ->
  (forall to, In to pseudo -> target_ok s i to) ->
  filterLegal s i kingSq keep pseudo
  = (map (pair i)
       (List.filter
          (fun to => keep to
                     && negb (fst (leavesKingInCheck s i to (Some kingSq))))
          pseudo), s).
Proof.
  intros Hwf. induction pseudo as [|x rest IH]; intros Hok; [done |].
  assert (Hrest : forall to, In to rest -> target_ok s i to)
    by (intros; apply Hok; by right).
  cbn [filterLegal List.filter].
  destruct (keep x); cbn [negb andb]; [| by apply IH].
  pose proof (target_ok_restores s i x (Some kingSq) Hwf (Hok x (or_introl eq_refl)))
    as Hres.
  destruct (leavesKingInCheck s i x (Some kingSq)) as [ill s1].
  cbn [fst snd] in *. subst s1. rewrite (IH Hrest).
  by destruct ill.
Qed.

Lemma scanMoves_eq (s : State) (col : Color) (kingSq : Z) (n : nat)
  (checkerSq : Z) (blockSquares : option (list Z)) (pins : gmap Z (Z * Z))
  (idxs : list Z) :
  wf_state s ->
  (forall i, In i idxs -> 0 <= i < 64) ->
  scanMoves s col kingSq n checkerSq blockSquares pins idxs
  = (flat_map (movesFrom s col kingSq (keepTarget n checkerSq blockSquares pins))
       idxs, s).
Proof.
  intros Hwf. induction idxs as [|i rest IH]; intros Hidx; [done |].
  assert (Hrest : forall j, In j rest -> 0 <= j < 64)
    by (intros; apply Hidx; by right).
  cbn [scanMoves flat_map]. unfold movesFrom at 1.
  destruct (rd (board s) i) as [p|] eqn:Hp; [| by rewrite (IH Hrest)].
  destruct (Color_eqb (c p) col) eqn:Hc; cbn [negb]; [| by rewrite (IH Hrest)].
  rewrite filterLegal_eq; [| done |].
  - rewrite (IH Hrest). reflexivity.
  - intros to Hin. apply generateMoves_targets; [done | apply Hidx; by left | done].
Qed.

Lemma isPiece_Some (p : Piece) (col : Color) (k : Kind) :
  isPiece (Some p) col k = true <-> c p = col /\ t p = k.
Proof.
  unfold isPiece. rewrite andb_true_iff, Color_eqb_eq, Kind_eqb_eq. done.
Qed.

Lemma kingOnlyMoves_king (s : State) (col : Color) (kingSq : Z) (idxs : list Z) :
  wf_state s ->
  (forall i, In i idxs -> 0 <= i < 64) ->
  forall from to, In (from, to) (fst (kingOnlyMoves s col kingSq idxs)) ->
    isPiece (rd (board s) from) col K = true.
Proof.
  intros Hwf. induction idxs as [|i rest IH]; intros Hidx from to; [done |].
  assert (Hrest : forall j, In j rest -> 0 <= j < 64)
    by (intros; apply Hidx; by right).
  cbn [kingOnlyMoves].
  destruct (isPiece (rd (board s) i) col K) eqn:Hk; [| by apply IH].
  destruct (generateMoves_king s i col Hk) as [Hg _].
  rewrite filterLegal_eq; [| done |].
  - cbn [fst]. intros (x & [= <- <-] & _)%in_map_iff. done.
  - intros x Hin. apply generateMoves_targets;
      [done | apply Hidx; by left | by rewrite Hg].
Qed.

(** X1.  In double check only the king moves: every move returned by
    [allLegalMoves] when two or more pieces attack the king starts on
    the king's square. *)
Theorem allLegalMoves_double_check (s : State) (col : Color) (from to : Z) :
  wf_state s ->
  (2 <= length (checkers s col))%nat ->
  In (from, to) (allLegalMoves s col) ->
  isPiece (rd (board s) from) col K = true.
Proof.
  intros Hwf Hn. unfold allLegalMoves, allLegalMovesSt, checkers in *.
  destruct (findKing s col =? -1); [done |].
  replace (2 <=? length _)%nat with true by (symmetry; by apply Nat.leb_le).
  by apply kingOnlyMoves_king; [| apply squares_range].
Qed.

Lemma doubleChecked_wf : wf_state doubleChecked.
Proof. split; [reflexivity | intros e H; discriminate H]. Qed.

Lemma rookChecked_wf : wf_state rookChecked.
Proof. split; [reflexivity | intros e H; discriminate H]. Qed.

Lemma rookPinned_wf : wf_state rookPinned.
Proof. split; [reflexivity | intros e H; discriminate H]. Qed.

Lemma allLegalMoves_double_check_witness :
  (2 <= length (checkers doubleChecked W))%nat
  /\ In (60, 61) (allLegalMoves doubleChecked W)
  /\ isPiece (rd (board doubleChecked) 60) W K = true.
Proof.
  assert (H1 : (2 <= length (checkers doubleChecked W))%nat)
    by (vm_compute; lia).
  assert (H2 : In (60, 61) (allLegalMoves doubleChecked W))
    by (vm_compute; tauto).
  split; [exact H1 |]. split; [exact H2 |].
  exact (allLegalMoves_double_check doubleChecked W 60 61
           doubleChecked_wf H1 H2).
Defined.

Lemma allLegalMoves_scan (s : State) (col : Color) (from to : Z) :
  wf_state s ->
  (length (checkers s col) < 2)%nat ->
  In (from, to) (allLegalMoves s col) <->
  findKing s col <> -1
  /\ In (from, to)
       (flat_map
          (movesFrom s col (findKing s col)
             (keepTarget (length (checkers s col))
                (match checkers s col with (a, _) :: _ => a | [] => -1 end)
                (match checkers s col with
                 | (_, Some between) :: _ =>
                     if (0 <? length between)%nat then Some between else None
                 | _ => None
                 end)
                (computePins s col (findKing s col))))
          squares).
Proof.
  intros Hwf Hn. unfold allLegalMoves, allLegalMovesSt, checkers in *.
  destruct (Z.eqb_spec (findKing s col) (-1)) as [E|E].
  - cbn [fst In]. split; [intros [] | by intros [? _]].
  - replace (2 <=? length _)%nat with false by (symmetry; apply Nat.leb_gt; lia).
    rewrite scanMoves_eq by (done || apply squares_range). cbn [fst]. tauto.
Qed.

Lemma movesFrom_In (s : State) (col : Color) (kingSq : Z)
  (keep : Piece -> Z -> Z -> bool) (idxs : list Z) (from to : Z) :
  In (from, to) (flat_map (movesFrom s col kingSq keep) idxs) <->
  In from idxs
  /\ exists p, rd (board s) from = Some p /\ c p = col
       /\ In to (generateMoves s from)
       /\ keep p from to = true
       /\ fst (leavesKingInCheck s from to (Some kingSq)) = false.
Proof.
  rewrite in_flat_map. unfold movesFrom. split.
  - intros (i & Hi & Hin).
    destruct (rd (board s) i) as [p|] eqn:Hp; [| done].
    destruct (Color_eqb (c p) col) eqn:Hc; [| done].
    apply in_map_iff in Hin as (x & [= <- <-] & Hx).
    apply filter_In in Hx as [Hg [Hk Hl]%andb_true_iff].
    split; [done |]. exists p. rewrite Hp.
    apply Color_eqb_eq in Hc. apply negb_true_iff in Hl. done.
  - intros (Hi & p & Hp & Hc & Hg & Hk & Hl).
    exists from. split; [done |]. rewrite Hp.
    apply Color_eqb_eq in Hc. rewrite Hc.
    apply in_map_iff. exists to. split; [done |].
    apply filter_In. split; [done |]. by rewrite Hk, Hl.
Qed.

Lemma single_check_targets (s : State) (col : Color) (from to : Z)
  (checkerSq : Z) (between : option (list Z)) :
  wf_state s ->
  checkers s col = [(checkerSq, between)] ->
  In (from, to) (allLegalMoves s col) ->
  isPiece (rd (board s) from) col K = true
  \/ to = checkerSq
  \/ exists l, between = Some l /\ In to l.
Proof.
  intros Hwf Hchk Hin.
  apply allLegalMoves_scan in Hin; [| done | rewrite Hchk; cbn; lia].
  destruct Hin as [_ Hin]. rewrite Hchk in Hin. cbn [length] in Hin.
  apply movesFrom_In in Hin as (_ & p & Hp & Hc & _ & Hk & _).
  unfold keepTarget in Hk. apply andb_true_iff in Hk as [Hk _].
  rewrite Hp. unfold isPiece. rewrite Hc, Color_eqb_refl. cbn [andb].
  destruct (Kind_eqb (t p) K); [by left | right].
  cbn [Nat.eqb negb andb] in Hk.
  destruct (Z.eqb_spec to checkerSq) as [|_]; [by left | right].
  cbn [negb andb] in Hk. apply negb_true_iff, negb_false_iff in Hk.
  destruct between as [l|]; [| done].
  destruct (0 <? length l)%nat; [| done].
  exists l. split; [done |]. cbn in Hk.
  apply existsb_exists in Hk as (x & Hx & ->%Z.eqb_eq). done.
Qed.

(** X2.  In check from one piece, a piece other than the king may only
    take the checking piece or step onto a square between it and the
    king: every move returned is a king move, or lands on the square of
    the checker, or on one of the squares [attackersToSquare] lists
    between a sliding checker and the king. *)
Theorem allLegalMoves_single_check (s : State) (col : Color) (from to : Z)
  (checkerSq : Z) (between : option (list Z)) :
  wf_state s ->
  checkers s col = [(checkerSq, between)] ->
  In (from, to) (allLegalMoves s col) ->
  isPiece (rd (board s) from) col K = true
  \/ to = checkerSq
  \/ exists l, between = Some l /\ In to l.
Proof. exact (single_check_targets s col from to checkerSq between). Qed.

Lemma allLegalMoves_single_check_witness :
  checkers rookChecked W = [(4, Some [52; 44; 36; 28; 20; 12])]
  /\ In (48, 52) (allLegalMoves rookChecked W)
  /\ (isPiece (rd (board rookChecked) 48) W K = true
      \/ 52 = 4
      \/ exists l, Some [52; 44; 36; 28; 20; 12] = Some l /\ In 52 l).
Proof.
  assert (H1 : checkers rookChecked W = [(4, Some [52; 44; 36; 28; 20; 12])])
    by (vm_compute; reflexivity).
  assert (H2 : In (48, 52) (allLegalMoves rookChecked W))
    by (vm_compute; tauto).
  split; [exact H1 |]. split; [exact H2 |].
  exact (allLegalMoves_single_check rookChecked W 48 52 4 _
           rookChecked_wf H1 H2).
Defined.

(** X3.  In check from a pawn, a knight or a king (a checker with no
    squares between), a piece other than the king is given no move but
    onto the checker's square.  The en-passant capture of a pawn that
    checks, which lands behind the pawn, is therefore never returned,
    even where the do/undo check accepts it. *)
Theorem allLegalMoves_check_en_passant (s : State) (col : Color)
  (from to : Z) (checkerSq : Z) (p : Piece) :
  wf_state s ->
  checkers s col = [(checkerSq, None)] ->
  rd (board s) from = Some p -> t p <> K ->
  to <> checkerSq ->
  ~ In (from, to) (allLegalMoves s col).
Proof.
  intros Hwf Hchk Hp Hk Hto Hin.
  destruct (single_check_targets s col from to checkerSq None Hwf Hchk Hin)
    as [H | [H | (l & H & _)]].
  - rewrite Hp in H. apply isPiece_Some in H as [_ H]. contradiction.
  - contradiction.
  - discriminate H.
Qed.

Lemma epChecked_wf : wf_state epChecked.
Proof.
  split; [reflexivity |]. intros e [= <-].
  split; [lia | vm_compute; reflexivity].
Qed.

Lemma allLegalMoves_check_en_passant_witness :
  checkers epChecked W = [(27, None)]
  /\ In 19 (generateMoves epChecked 28)
  /\ fst (leavesKingInCheck epChecked 28 19 None) = false
  /\ ~ In (28, 19) (allLegalMoves epChecked W).
Proof.
  assert (H1 : checkers epChecked W = [(27, None)])
    by (vm_compute; reflexivity).
  split; [exact H1 |].
  split; [vm_compute; tauto |].
  split; [vm_compute; reflexivity |].
  assert (H2 : rd (board epChecked) 28 = Some (mkPiece W P))
    by (vm_compute; reflexivity).
  assert (H3 : t (mkPiece W P) <> K) by discriminate.
  assert (H4 : 19 <> 27) by lia.
  exact (allLegalMoves_check_en_passant epChecked W 28 19 27 (mkPiece W P)
           epChecked_wf H1 H2 H3 H4).
Defined.

(** X4.  A pinned piece stays on the line of the pin: when
    [computePins] records a direction for the square of a piece other
    than the king, every move returned for that piece runs along that
    direction, towards the king or away from it. *)
Theorem allLegalMoves_pinned (s : State) (col : Color) (from to : Z)
  (p : Piece) (d : Z * Z) :
  wf_state s ->
  (length (checkers s col) < 2)%nat ->
  rd (board s) from = Some p -> t p <> K ->
  computePins s col (findKing s col) !! from = Some d ->
  In (from, to) (allLegalMoves s col) ->
  alongRay from to (fst d) (snd d) = true.
Proof.
  intros Hwf Hn Hp Hk Hpin Hin.
  apply allLegalMoves_scan in Hin as [_ Hin]; [| done | done].
  apply movesFrom_In in Hin as (_ & p' & Hp' & _ & _ & Hkeep & _).
  rewrite Hp in Hp'. injection Hp' as <-.
  unfold keepTarget in Hkeep. apply andb_true_iff in Hkeep as [_ Hkeep].
  rewrite Hpin in Hkeep.
  destruct (Kind_eqb (t p) K) eqn:E; [by apply Kind_eqb_eq in E |].
  cbn [negb andb] in Hkeep. by apply negb_true_iff, negb_false_iff in Hkeep.
Qed.

Lemma allLegalMoves_pinned_witness :
  computePins rookPinned W (findKing rookPinned W) !! 52 = Some (-1, 0)
  /\ In (52, 4) (allLegalMoves rookPinned W)
  /\ alongRay 52 4 (-1) 0 = true.
Proof.
  assert (H1 : computePins rookPinned W (findKing rookPinned W) !! 52
               = Some (-1, 0)) by (vm_compute; reflexivity).
  assert (H2 : In (52, 4) (allLegalMoves rookPinned W))
    by (vm_compute; tauto).
  assert (H3 : (length (checkers rookPinned W) < 2)%nat)
    by (vm_compute; lia).
  assert (H4 : rd (board rookPinned) 52 = Some (mkPiece W R))
    by (vm_compute; reflexivity).
  assert (H5 : t (mkPiece W R) <> K) by discriminate.
  split; [exact H1 |]. split; [exact H2 |].
  exact (allLegalMoves_pinned rookPinned W 52 4 (mkPiece W R) (-1, 0)
           rookPinned_wf H3 H4 H5 H1 H2).
Defined.

(** X5.  Out of check nothing legal is left out for the king and for the
    pieces that either are not pinned or move along their pin: such a
    pseudo-move that passes the do/undo check is returned by
    [allLegalMoves]. *)
Theorem allLegalMoves_complete_quiet (s : State) (col : Color) (from to : Z)
  (p : Piece) :
  wf_state s ->
  findKing s col <> -1 ->
  checkers s col = [] ->
  rd (board s) from = Some p -> c p = col ->
  t p = K
  \/ match computePins s col (findKing s col) !! from with
     | None => True
     | Some d => alongRay from to (fst d) (snd d) = true
     end ->
  In to (generateMoves s from) ->
  fst (leavesKingInCheck s from to None) = false ->
  In (from, to) (allLegalMoves s col).
Proof.
  intros Hwf Hking Hchk Hp Hc Hfree Hg Hl.
  pose proof (rd_Some_inside _ _ _ Hp) as Hfrom. rewrite (proj1 Hwf) in Hfrom.
  apply allLegalMoves_scan; [done | rewrite Hchk; cbn; lia |].
  split; [done |]. rewrite Hchk. cbn [length].
  apply movesFrom_In. split; [apply In_squares; lia |].
  exists p. split; [done |]. split; [done |]. split; [done |]. split.
  - unfold keepTarget. cbn [Nat.eqb andb negb].
    destruct Hfree as [-> | Hpin]; [done |].
    destruct (computePins s col (findKing s col) !! from) as [d|].
    + rewrite Hpin. cbn [negb]. by rewrite andb_false_r.
    + by rewrite andb_false_r.
  - subst col. rewrite (leavesKingInCheck_known s from to p Hp); [done |].
    apply generateMoves_targets; [done | lia | done].
Qed.

Lemma allLegalMoves_complete_quiet_witness :
  In 44 (generateMoves rookPinned 52)
  /\ fst (leavesKingInCheck rookPinned 52 44 None) = false
  /\ In (52, 44) (allLegalMoves rookPinned W).
Proof.
  assert (H1 : In 44 (generateMoves rookPinned 52)) by (vm_compute; tauto).
  assert (H2 : fst (leavesKingInCheck rookPinned 52 44 None) = false)
    by (vm_compute; reflexivity).
  assert (H3 : findKing rookPinned W <> -1) by (vm_compute; discriminate).
  assert (H4 : checkers rookPinned W = []) by (vm_compute; reflexivity).
  assert (H5 : rd (board rookPinned) 52 = Some (mkPiece W R))
    by (vm_compute; reflexivity).
  assert (H6 : t (mkPiece W R) = K
               \/ match computePins rookPinned W (findKing rookPinned W) !! 52 with
                  | None => True
                  | Some d => alongRay 52 44 (fst d) (snd d) = true
                  end) by (right; vm_compute; reflexivity).
  split; [exact H1 |]. split; [exact H2 |].
  exact (allLegalMoves_complete_quiet rookPinned W 52 44 (mkPiece W R)
           rookPinned_wf H3 H4 H5 eq_refl H6 H1 H2).
Defined.

(** ** The two attack routines *)

Lemma stepAttackers_nil (b : Board) (col : Color) (k : Kind) (r f : Z)
  (deltas : list (Z * Z)) :
  stepAttackers b col k r f deltas = [] <-> stepAttack b col k r f deltas = false.
Proof.
  unfold stepAttack. induction deltas as [|[dr df] rest IH]; [done |].
  cbn [stepAttackers existsb fst snd].
  destruct (onBoard (r + dr) (f + df)); cbn [negb andb orb]; [| exact IH].
  destruct (isPiece (rd b (toIndex (r + dr) (f + df))) col k); cbn [orb];
    [split; discriminate | exact IH].
Qed.

Lemma rayAttacker_nil (b : Board) (col : Color) (k : Kind) (r f dr df : Z)
  (steps : list Z) :
  forall between,
    rayAttacker b col k r f dr df steps between = []
    <-> rayAttack b col k r f dr df steps = false.
Proof.
  induction steps as [|n rest IH]; intros between; [done |].
  cbn [rayAttacker rayAttack].
  destruct (onBoard (r + dr * n) (f + df * n)); cbn [negb]; [| done].
  destruct (rd b (toIndex (r + dr * n) (f + df * n))) as [q|]; [| apply IH].
  destruct (Color_eqb (c q) col); cbn [negb]; [| done].
  destruct (Kind_eqb (t q) k || Kind_eqb (t q) Q); [split; discriminate | done].
Qed.

Lemma app_nil_iff {A : Type} (l1 l2 : list A) :
  l1 ++ l2 = [] <-> l1 = [] /\ l2 = [].
Proof. destruct l1; simpl; split; [done | by intros [_ ?] | done | by intros [? _]]. Qed.

Lemma flat_map_nil {A B : Type} (g : A -> list B) (l : list A) :
  flat_map g l = [] <-> forall x, In x l -> g x = [].
Proof.
  induction l as [|a rest IH]; cbn [flat_map]; [by split |].
  rewrite app_nil_iff, IH. split.
  - intros [Ha Hr] x [<- | Hx]; [done | by apply Hr].
  - intros H. split; [apply H; by left | intros x Hx; apply H; by right].
Qed.

Lemma existsb_false {A : Type} (g : A -> bool) (l : list A) :
  existsb g l = false <-> forall x, In x l -> g x = false.
Proof.
  induction l as [|a rest IH]; cbn [existsb]; [by split |].
  rewrite orb_false_iff, IH. split.
  - intros [Ha Hr] x [<- | Hx]; [done | by apply Hr].
  - intros H. split; [apply H; by left | intros x Hx; apply H; by right].
Qed.

Lemma stepAttack_app (b : Board) (col : Color) (k : Kind) (r f : Z)
  (l1 l2 : list (Z * Z)) :
  stepAttack b col k r f (l1 ++ l2)
  = stepAttack b col k r f l1 || stepAttack b col k r f l2.
Proof. unfold stepAttack. apply existsb_app. Qed.

(** X7.  The two attack routines agree: [isSquareAttacked] says that a
    square is attacked by a colour exactly when [attackersToSquare]
    lists at least one attacker of that colour. *)
Theorem isSquareAttacked_attackers (s : State) (sq : Z) (col : Color) :
  isSquareAttacked s sq col = true <-> attackersToSquare s sq col <> [].
Proof.
  assert (H : attackersToSquare s sq col = []
              <-> isSquareAttacked s sq col = false).
  { unfold attackersToSquare, isSquareAttacked.
    rewrite !app_nil_iff, !orb_false_iff, !stepAttackers_nil.
    rewrite flat_map_nil, !existsb_false.
    unfold queenDeltas. rewrite !stepAttack_app, !orb_false_iff.
    assert (Hrays :
      (forall d, In d rayDirs ->
         (let '(dr, df, kind) := d in
          rayAttacker (board s) col kind (rankOf sq) (fileOf sq) dr df steps17 [])
         = [])
      <-> (forall d, In d diagDeltas ->
             rayAttack (board s) col Bi (rankOf sq) (fileOf sq) (fst d) (snd d)
               steps17 = false)
          /\ (forall d, In d orthoDeltas ->
             rayAttack (board s) col R (rankOf sq) (fileOf sq) (fst d) (snd d)
               steps17 = false)).
    { split.
      - intros Hall. split; intros [dr df] Hd; cbn [fst snd].
        + apply (rayAttacker_nil _ _ _ _ _ _ _ _ []).
          apply (Hall (dr, df, Bi)). cbn in Hd |- *.
          repeat (destruct Hd as [[= <- <-] | Hd]; [tauto |]). done.
        + apply (rayAttacker_nil _ _ _ _ _ _ _ _ []).
          apply (Hall (dr, df, R)). cbn in Hd |- *.
          repeat (destruct Hd as [[= <- <-] | Hd]; [tauto |]). done.
      - intros [Hd Ho] [[dr df] kind] Hin.
        apply rayAttacker_nil. cbn in Hin.
        repeat (destruct Hin as [[= <- <- <-] | Hin];
                [first [apply (Ho (_, _)) | apply (Hd (_, _))]; cbn; tauto |]).
        done. }
    rewrite Hrays. tauto. }
  destruct (isSquareAttacked s sq col).
  - split; [| done]. intros _ E. apply H in E. discriminate E.
  - split; [done |]. intros Hne. destruct Hne. by apply H.
Qed.

Lemma stepAttackers_sound (b : Board) (col : Color) (k : Kind) (r f : Z)
  (deltas : list (Z * Z)) (a : Z) (bt : option (list Z)) :
  In (a, bt) (stepAttackers b col k r f deltas) ->
  0 <= a < 64 /\ isPiece (rd b a) col k = true /\ bt = None.
Proof.
  induction deltas as [|[dr df] rest IH]; [done |].
  cbn [stepAttackers].
  destruct (onBoard (r + dr) (f + df)) eqn:Hon; cbn [negb]; [| exact IH].
  destruct (isPiece (rd b (toIndex (r + dr) (f + df))) col k) eqn:Hp;
    [| exact IH].
  intros [[= <- <-] | Hin]; [| by apply IH].
  split; [by apply onBoard_toIndex | done].
Qed.

Lemma rayAttacker_sound (b : Board) (col : Color) (slider : Kind)
  (r f dr df : Z) (steps : list Z) :
  forall (between : list Z) (a : Z) (bt : option (list Z)),
  (forall x, In x between -> 0 <= x < 64 /\ rd b x = None) ->
  In (a, bt) (rayAttacker b col slider r f dr df steps between) ->
  0 <= a < 64
  /\ (exists q, rd b a = Some q /\ c q = col
                /\ (t q = slider \/ t q = Q))
  /\ exists l, bt = Some l /\ forall x, In x l -> 0 <= x < 64 /\ rd b x = None.
Proof.
  induction steps as [|k rest IH]; intros between a bt Hbt; [done |].
  cbn [rayAttacker].
  destruct (onBoard (r + dr * k) (f + df * k)) eqn:Hon; cbn [negb]; [| done].
  pose proof (onBoard_toIndex _ _ Hon) as Hidx.
  destruct (rd b (toIndex (r + dr * k) (f + df * k))) as [q|] eqn:Hq.
  - destruct (Color_eqb (c q) col) eqn:Hc; cbn [negb]; [| done].
    destruct (Kind_eqb (t q) slider || Kind_eqb (t q) Q) eqn:Hk; [| done].
    intros [[= <- <-] | []]. split; [done |]. split.
    + exists q. split; [done |]. split; [by apply Color_eqb_eq |].
      apply orb_true_iff in Hk as [Hk | Hk]; apply Kind_eqb_eq in Hk; tauto.
    + by exists between.
  - apply IH. intros x [Hx | [<- | []]]%in_app_iff; [by apply Hbt | done].
Qed.

(** X8.  What [attackersToSquare] reports: every attacker is a square of
    the board holding a piece of the attacking colour, and the squares
    listed between a sliding attacker and the target are empty squares
    of the board. *)
Theorem attackersToSquare_sound (s : State) (sq : Z) (col : Color) (a : Z)
  (bt : option (list Z)) :
  In (a, bt) (attackersToSquare s sq col) ->
  0 <= a < 64
  /\ (exists q, rd (board s) a = Some q /\ c q = col)
  /\ forall l x, bt = Some l -> In x l ->
       0 <= x < 64 /\ rd (board s) x = None.
Proof.
  assert (Hstep : forall k deltas,
    In (a, bt) (stepAttackers (board s) col k (rankOf sq) (fileOf sq) deltas) ->
    0 <= a < 64
    /\ (exists q, rd (board s) a = Some q /\ c q = col)
    /\ forall l x, bt = Some l -> In x l ->
         0 <= x < 64 /\ rd (board s) x = None).
  { intros k deltas (Ha & Hp & ->)%stepAttackers_sound.
    split; [done |]. split; [| done].
    unfold isPiece in Hp. destruct (rd (board s) a) as [q|]; [| done].
    exists q. split; [done |].
    apply andb_true_iff in Hp as [Hc _]. by apply Color_eqb_eq. }
  unfold attackersToSquare. cbv zeta.
  intros [H | [H | [H | H]%in_app_iff]%in_app_iff]%in_app_iff;
    [by eapply Hstep | by eapply Hstep | | by eapply Hstep].
  apply in_flat_map in H as ([[dr df] kind] & _ & H).
  apply rayAttacker_sound in H as (Ha & (q & Hq & Hc & _) & (l & -> & Hl));
    [| done].
  split; [done |]. split; [by exists q |].
  intros l' x [= <-]. apply Hl.
Qed.

Lemma attackersToSquare_sound_witness :
  In (4, Some [52; 44; 36; 28; 20; 12]) (attackersToSquare rookChecked 60 B)
  /\ (exists q, rd (board rookChecked) 4 = Some q /\ c q = B)
  /\ rd (board rookChecked) 36 = None.
Proof.
  assert (H : In (4, Some [52; 44; 36; 28; 20; 12])
                (attackersToSquare rookChecked 60 B)) by (vm_compute; tauto).
  split; [exact H |].
  destruct (attackersToSquare_sound rookChecked 60 B 4 _ H) as (_ & Hq & Hb).
  split; [exact Hq |].
  apply (Hb [52; 44; 36; 28; 20; 12] 36 eq_refl). cbn [In]. tauto.
Defined.

(** X24.  The key of a move tells moves apart: on the squares of the
    board it is 64 * from + to. *)
Theorem moveKey_injective (from to from' to' : Z) :
  0 <= from < 64 -> 0 <= to < 64 -> 0 <= from' < 64 -> 0 <= to' < 64 ->
  moveKey from to = moveKey from' to' -> from = from' /\ to = to'.
Proof.
  assert (H : forall f t0, 0 <= f < 64 -> 0 <= t0 < 64 ->
                           moveKey f t0 = 64 * f + t0).
  { intros f t0 Hf Ht.
    assert (Hall : forallb (fun f => forallb (fun t0 =>
              moveKey f t0 =? 64 * f + t0) squares) squares = true)
      by (vm_compute; reflexivity).
    rewrite forallb_forall in Hall.
    specialize (Hall f (In_squares f Hf)).
    rewrite forallb_forall in Hall.
    apply Z.eqb_eq, Hall, In_squares, Ht. }
  intros Hf Ht Hf' Ht' E. rewrite !H in E by done. lia.
Qed.

Lemma moveKey_injective_witness :
  0 <= 52 < 64 /\ 0 <= 36 < 64 /\ moveKey 52 36 = moveKey 52 36
  /\ 52 = 52 /\ 36 = 36.
Proof.
  split; [lia |]. split; [lia |]. split; [reflexivity |].
  apply (moveKey_injective 52 36 52 36); (lia || reflexivity).
Defined.

(** ** The two versions of moves.js *)

Lemma Legacy_slide_eq (s : State) (col : Color) (r f dr df : Z) (steps : list Z) :
  Legacy.slide s col r f dr df steps = slide s col r f dr df steps.
Proof.
  induction steps as [|k rest IH]; [done |].
  cbn [Legacy.slide slide].
  destruct (onBoard (r + dr * k) (f + df * k)); cbn [negb orb]; [| done].
  unfold canLand, blocked.
  destruct (rd (board s) (toIndex (r + dr * k) (f + df * k))) as [q|] eqn:E;
    cbn [occupied].
  - destruct (Color_eqb (c q) col); [done |]. cbn [negb]. done.
  - by rewrite IH.
Qed.

Lemma Legacy_generateMoves_same (s : State) (i : Z) :
  Legacy.generateMoves s i = generateMoves s i.
Proof.
  assert (Hs : forall col r f deltas,
            Legacy.slideMoves s col r f deltas = slideMoves s col r f deltas).
  { intros col r f deltas. unfold Legacy.slideMoves, slideMoves.
    induction deltas as [|d rest IH]; [done |].
    cbn [flat_map]. by rewrite Legacy_slide_eq, IH. }
  unfold Legacy.generateMoves, generateMoves.
  destruct (rd (board s) i) as [p|] eqn:Hp; [| done].
  destruct (t p) eqn:Hk; try done.
  - unfold Legacy.bishopMoves, bishopMoves. rewrite Hp. by rewrite Hs.
  - unfold Legacy.rookMoves, rookMoves. rewrite Hp. by rewrite Hs.
  - unfold Legacy.queenMoves, queenMoves. rewrite Hp. by rewrite Hs.
Qed.

(** X10.  The pseudo-move generators of the two versions of moves.js
    produce the same targets, in the same order, on every position and
    square. *)
Theorem Legacy_generateMoves_eq (s : State) (i : Z) :
  Legacy.generateMoves s i = generateMoves s i.
Proof. exact (Legacy_generateMoves_same s i). Qed.

Lemma covers_refl (e : Color) (x : Cell) : covers e x x.
Proof. by left. Qed.

Lemma isSquareAttacked_ext (s1 s2 : State) (i : Z) (e : Color) :
  (forall j, rd (board s1) j = rd (board s2) j) ->
  isSquareAttacked s1 i e = isSquareAttacked s2 i e.
Proof.
  intros H.
  destruct (isSquareAttacked s1 i e) eqn:E1, (isSquareAttacked s2 i e) eqn:E2;
    try done.
  - apply (isSquareAttacked_covers s1 s2) in E1; [congruence |].
    intros j. rewrite H. apply covers_refl.
  - apply (isSquareAttacked_covers s2 s1) in E2; [congruence |].
    intros j. rewrite H. apply covers_refl.
Qed.

Lemma findKingIn_found (b : Board) (col : Color) (idxs : list Z) (k : Z) :
  (forall i, In i idxs -> 0 <= i) ->
  In k idxs -> isPiece (rd b k) col K = true ->
  findKingIn b col idxs <> -1.
Proof.
  induction idxs as [|i rest IH]; intros Hpos Hin Hk; [done |].
  cbn [findKingIn]. destruct (isPiece (rd b i) col K) eqn:E.
  - specialize (Hpos i (or_introl eq_refl)). lia.
  - destruct Hin as [-> | Hin]; [congruence |].
    apply IH; [intros; apply Hpos; by right | done | done].
Qed.

Lemma findKingIn_is_king (b : Board) (col : Color) (idxs : list Z) :
  findKingIn b col idxs <> -1 ->
  isPiece (rd b (findKingIn b col idxs)) col K = true.
Proof.
  induction idxs as [|i rest IH]; [done |].
  cbn [findKingIn]. destruct (isPiece (rd b i) col K) eqn:E; [done | exact IH].
Qed.

(** The board the earlier check looks at reads as the one of the do/undo
    check. *)
Lemma Legacy_board (s : State) (from to : Z) (p : Piece) :
  rd (board s) from = Some p ->
  target_ok s from to ->
  forall j,
    rd (wr (wr (wr (board s)
                  (if isEPmove s p from to
                   then toIndex (rankOf to - moveDir (c p)) (fileOf to) else to)
                  None) to (Some p)) from None) j
    = rd (doneBoard s p from to) j.
Proof.
  intros Hp [Hto Hok] j. destruct (Hok p Hp) as [_ Hep].
  unfold doneBoard. fold (epCaptureSquare p to).
  destruct (isEPmove s p from to).
  - destruct (Hep eq_refl) as [Hc _].
    replace (epCaptureSquare p to =? -1) with false
      by (symmetry; apply Z.eqb_neq; lia).
    done.
  - rewrite Z.eqb_refl. cbn [negb]. rewrite !rd_wr.
    destruct (Z.eqb_spec from j); destruct (0 <=? from); cbn [andb]; try done;
      destruct (Z.eqb_spec to j); destruct (0 <=? to); cbn [andb]; done.
Qed.

(** A move of a piece other than the king leaves the king where it
    was. *)
Lemma findKing_doneBoard (s : State) (from to : Z) (p : Piece) :
  rd (board s) from = Some p ->
  target_ok s from to ->
  t p <> K ->
  findKing (set_board s (doneBoard s p from to)) (c p) = findKing s (c p).
Proof.
  intros Hp [Hto Hok] Hk. destruct (Hok p Hp) as [Hbl Hep].
  pose proof (rd_Some_inside _ _ _ Hp) as Hfrom.
  unfold findKing. cbn [board set_board]. apply findKingIn_ext. intros i.
  assert (Hmover : forall col, isPiece (Some p) col K = false)
    by (intros col; by apply isPiece_king).
  unfold doneBoard.
  destruct (isEPmove s p from to) eqn:Hisep.
  - destruct (Hep eq_refl) as [Hcap Hpawn].
    apply isPiece_other with (k := K) in Hpawn.
    destruct (epCaptureSquare p to =? -1) eqn:Hc1; cbn [negb];
      rewrite ?rd_wr;
      repeat match goal with
      | |- context [?a =? ?b] => destruct (a =? b) eqn:?
      | |- context [?a <=? ?b] => destruct (a <=? b) eqn:?
      end; cbn [andb]; zbool; subst;
      rewrite ?Hmover, ?Hp, ?Hmover, ?Hpawn, ?(isPiece_blocked s _ K _ Hbl);
      try done; try lia.
  - rewrite Z.eqb_refl. cbn [negb]. rewrite ?rd_wr.
    repeat match goal with
    | |- context [?a =? ?b] => destruct (a =? b) eqn:?
    | |- context [?a <=? ?b] => destruct (a <=? b) eqn:?
    end; cbn [andb]; zbool; subst;
    rewrite ?Hmover, ?Hp, ?Hmover, ?(isPiece_blocked s _ K _ Hbl);
    try done; try lia.
Qed.

(** With one king of its colour on the board, the square of a king that
    has moved is the one [findKing] finds. *)
Lemma findKing_moved_king (s : State) (from to : Z) (p : Piece) :
  rd (board s) from = Some p ->
  target_ok s from to ->
  one_king s (c p) ->
  t p = K ->
  findKing (set_board s (doneBoard s p from to)) (c p) = to.
Proof.
  intros Hp [Hto Hok] Hone Hk. destruct (Hok p Hp) as [Hbl _].
  pose proof (rd_Some_inside _ _ _ Hp) as Hfrom.
  assert (Hft : from <> to).
  { intros ->. unfold blocked in Hbl. rewrite Hp in Hbl.
    by rewrite Color_eqb_refl in Hbl. }
  assert (Hme : isPiece (Some p) (c p) K = true).
  { unfold isPiece. by rewrite Color_eqb_refl, Hk. }
  unfold findKing. cbn [board set_board].
  rewrite doneBoard_plain by (by rewrite Hk).
  apply findKingIn_unique; [apply In_squares; lia | |].
  - intros j. rewrite !rd_wr.
    destruct (Z.eqb_spec from j); destruct (Z.leb_spec 0 from);
      cbn [andb]; try done; try lia;
      destruct (Z.eqb_spec to j); destruct (Z.leb_spec 0 to);
      cbn [andb]; try done; try lia.
    intros Hj. exfalso.
    match goal with H : from <> j |- _ => apply H end.
    apply Hone; [by rewrite Hp | done].
  - rewrite !rd_wr.
    destruct (Z.eqb_spec from to); [lia |]. cbn [andb].
    rewrite Z.eqb_refl.
    by replace (0 <=? to) with true by (symmetry; apply Z.leb_le; lia).
Qed.

Lemma leavesKingInCheck_Legacy_same (s : State) (from to : Z) (p : Piece) :
  rd (board s) from = Some p ->
  target_ok s from to ->
  one_king s (c p) ->
  findKing s (c p) <> -1 ->
  fst (leavesKingInCheck s from to None) = Legacy.leavesKingInCheck s from to.
Proof.
  intros Hp Hok Hone Hking.
  pose proof (Legacy_board s from to p Hp Hok) as Hb.
  rewrite (leavesKingInCheck_fst s from to p Hp).
  unfold Legacy.leavesKingInCheck. rewrite Hp. cbn zeta.
  remember (set_board s (doneBoard s p from to)) as s3 eqn:Es3.
  remember (set_board s
              (wr (wr (wr (board s)
                         (if isEPmove s p from to
                          then toIndex (rankOf to - moveDir (c p)) (fileOf to)
                          else to) None) to (Some p)) from None)) as tmp eqn:Etmp.
  assert (Hrd : forall j, rd (board tmp) j = rd (board s3) j).
  { intros j. subst tmp s3. cbn [board set_board]. apply Hb. }
  assert (Hfk : findKing tmp (c p) = findKing s3 (c p)).
  { unfold findKing. apply findKingIn_ext. intros i. by rewrite Hrd. }
  unfold inCheck. rewrite Hfk.
  rewrite (isSquareAttacked_ext tmp s3 _ _ Hrd).
  destruct (Kind_eqb (t p) K) eqn:Hk.
  - apply Kind_eqb_eq in Hk.
    assert (E : findKing s3 (c p) = to)
      by (subst s3; by apply findKing_moved_king).
    rewrite E. destruct Hok as [Hto _].
    destruct (Z.eqb_spec to (-1)); [lia | reflexivity].
  - assert (Hk' : t p <> K) by (intros E; by rewrite E in Hk).
    assert (E : findKing s3 (c p) = findKing s (c p))
      by (subst s3; by apply findKing_doneBoard).
    rewrite E.
    destruct (Z.eqb_spec (findKing s (c p)) (-1)); [contradiction | reflexivity].
Qed.

(** X11.  The do/undo check answers as the copying check of the earlier
    file: for a piece on the origin square, an acceptable target and a
    side that has its one king, [leavesKingInCheck] on the position
    itself and the earlier [leavesKingInCheck] on a copy of the board
    agree. *)
Theorem leavesKingInCheck_Legacy (s : State) (from to : Z) (p : Piece) :
  rd (board s) from = Some p ->
  target_ok s from to ->
  one_king s (c p) ->
  findKing s (c p) <> -1 ->
  fst (leavesKingInCheck s from to None) = Legacy.leavesKingInCheck s from to.
Proof. exact (leavesKingInCheck_Legacy_same s from to p). Qed.

Lemma leavesKingInCheck_Legacy_witness :
  fst (leavesKingInCheck initialState 52 36 None)
  = Legacy.leavesKingInCheck initialState 52 36.
Proof.
  assert (H1 : rd (board initialState) 52 = Some (mkPiece W P))
    by (vm_compute; reflexivity).
  assert (H2 : target_ok initialState 52 36).
  { apply generateMoves_targets; [exact initialState_wf | lia |].
    vm_compute. tauto. }
  assert (H3 : findKing initialState W <> -1) by (vm_compute; discriminate).
  exact (leavesKingInCheck_Legacy initialState 52 36 (mkPiece W P) H1 H2
           initialState_one_king H3).
Defined.

Lemma sublist_map {A B : Type} (g : A -> B) (l1 l2 : list A) :
  sublist l1 l2 -> sublist (map g l1) (map g l2).
Proof. induction 1; cbn [map]; by constructor. Qed.

Lemma sublist_filter_and {A : Type} (p q q' : A -> bool) (l : list A) :
  (forall x, In x l -> q x = q' x) ->
  sublist (List.filter (fun x => p x && q x) l) (List.filter q' l).
Proof.
  induction l as [|a rest IH]; intros H; [constructor |].
  assert (Hr : forall x, In x rest -> q x = q' x)
    by (intros; apply H; by right).
  cbn [List.filter]. rewrite <- (H a (or_introl eq_refl)).
  destruct (p a), (q a); cbn [andb];
    [constructor; by apply IH | by apply IH | constructor; by apply IH
    | by apply IH].
Qed.

Lemma sublist_flat_map {A B : Type} (g1 g2 : A -> list B) (l : list A) :
  (forall x, In x l -> sublist (g1 x) (g2 x)) ->
  sublist (flat_map g1 l) (flat_map g2 l).
Proof.
  induction l as [|a rest IH]; intros H; [constructor |].
  cbn [flat_map]. apply sublist_app; [apply H; by left |].
  apply IH. intros; apply H; by right.
Qed.

(** For one square: the targets the later file keeps are among those the
    earlier one keeps, in the same order. *)
Lemma movesFrom_Legacy (s : State) (col : Color) (i : Z) (p : Piece)
  (keep : Z -> bool) :
  wf_state s -> one_king s col -> findKing s col <> -1 ->
  rd (board s) i = Some p -> c p = col ->
  sublist
    (map (pair i)
       (List.filter
          (fun to => keep to
                     && negb (fst (leavesKingInCheck s i to (Some (findKing s col)))))
          (generateMoves s i)))
    (map (pair i)
       (List.filter (fun to => negb (Legacy.leavesKingInCheck s i to))
          (Legacy.generateMoves s i))).
Proof.
  intros Hwf Hone Hking Hp Hc. subst col.
  pose proof (rd_Some_inside _ _ _ Hp) as Hi. rewrite (proj1 Hwf) in Hi.
  rewrite Legacy_generateMoves_same.
  apply sublist_map, sublist_filter_and. intros to Hto.
  assert (Hok : target_ok s i to)
    by (apply generateMoves_targets; [done | lia | done]).
  rewrite (leavesKingInCheck_known s i to p Hp Hok).
  by rewrite (leavesKingInCheck_Legacy_same s i to p Hp Hok Hone Hking).
Qed.

Lemma kingOnlyMoves_Legacy (s : State) (col : Color) (idxs : list Z) :
  wf_state s -> one_king s col -> findKing s col <> -1 ->
  (forall i, In i idxs -> 0 <= i < 64) ->
  sublist (fst (kingOnlyMoves s col (findKing s col) idxs))
    (flat_map (fun i =>
       match rd (board s) i with
       | None => []
       | Some p =>
           if negb (Color_eqb (c p) col) then []
           else map (pair i)
                  (List.filter (fun to => negb (Legacy.leavesKingInCheck s i to))
                     (Legacy.generateMoves s i))
       end) idxs).
Proof.
  intros Hwf Hone Hking. induction idxs as [|i rest IH]; intros Hidx;
    [constructor |].
  assert (Hrest : forall j, In j rest -> 0 <= j < 64)
    by (intros; apply Hidx; by right).
  cbn [kingOnlyMoves flat_map].
  destruct (isPiece (rd (board s) i) col K) eqn:Hk.
  - destruct (generateMoves_king s i col Hk) as [Hg (p & Hp & Hc)].
    rewrite filterLegal_eq; [| done |].
    + cbn [fst]. rewrite Hp. rewrite <- Hc at 1. rewrite Color_eqb_refl.
      cbn [negb]. apply sublist_inserts_r. rewrite <- Hg.
      by apply (movesFrom_Legacy s col i p (fun _ => true)).
    + intros x Hin. apply generateMoves_targets;
        [done | apply Hidx; by left | by rewrite Hg].
  - apply sublist_inserts_l. by apply IH.
Qed.

(** X12.  The pruning by checks and pins only leaves moves out: on a
    position whose side has at most one king, the moves returned by
    [allLegalMoves] are, in the same order, among the moves returned by
    the plain filter of the earlier file. *)
Theorem allLegalMoves_Legacy (s : State) (col : Color) :
  wf_state s -> one_king s col ->
  sublist (allLegalMoves s col) (Legacy.allLegalMoves s col).
Proof.
  intros Hwf Hone. unfold allLegalMoves, allLegalMovesSt, Legacy.allLegalMoves.
  destruct (Z.eqb_spec (findKing s col) (-1)) as [E|Hking];
    [apply sublist_nil_l |].
  destruct (2 <=? length _)%nat.
  - apply kingOnlyMoves_Legacy; [done | done | done | apply squares_range].
  - rewrite scanMoves_eq by (done || apply squares_range). cbn [fst].
    apply sublist_flat_map. intros i Hi. unfold movesFrom.
    destruct (rd (board s) i) as [p|] eqn:Hp; [| constructor].
    destruct (Color_eqb (c p) col) eqn:Hc; cbn [negb]; [| constructor].
    apply Color_eqb_eq in Hc.
    by apply (movesFrom_Legacy s col i p).
Qed.

Lemma allLegalMoves_Legacy_witness :
  sublist (allLegalMoves initialState W) (Legacy.allLegalMoves initialState W).
Proof.
  exact (allLegalMoves_Legacy initialState W initialState_wf
           initialState_one_king).
Defined.

(** ** Castling rights *)

Lemma includes_of_list (l : list ascii) (x : ascii) :
  includes (string_of_list_ascii l) x = existsb (fun y => Ascii.eqb y x) l.
Proof. induction l as [|a rest IH]; [done |]. cbn. by rewrite IH. Qed.

Lemma existsb_filter {A : Type} (g h : A -> bool) (l : list A) :
  existsb g (List.filter h l) = existsb (fun y => h y && g y) l.
Proof.
  induction l as [|a rest IH]; [done |].
  cbn [List.filter existsb]. destruct (h a); cbn [existsb andb]; by rewrite IH.
Qed.

Lemma existsb_pick (h : ascii -> bool) (l : list ascii) (x : ascii) :
  existsb (fun y => h y && Ascii.eqb y x) l = existsb (Ascii.eqb x) l && h x.
Proof.
  induction l as [|a rest IH]; [done |].
  cbn [existsb]. rewrite IH, (Ascii.eqb_sym x a).
  destruct (Ascii.eqb_spec a x) as [-> | _]; cbn [orb andb].
  - destruct (h x); [done | by rewrite andb_false_r].
  - by rewrite andb_false_r.
Qed.

Lemma removeCastleRight_mem (s : State) (codes : list ascii) (x : ascii) :
  includes (castleRight (removeCastleRight s codes)) x
  = isRight x && includes (castleRight s) x
    && negb (existsb (Ascii.eqb x) codes).
Proof.
  unfold removeCastleRight. cbn [castleRight].
  rewrite includes_of_list, existsb_filter, existsb_pick.
  unfold isRight. by rewrite andb_assoc.
Qed.

(** X13.  [removeCastleRight(s, ...codes)] keeps exactly the rights among
    K, Q, k, q that the position had and that are not among the codes;
    whatever else the text held is dropped. *)
Theorem removeCastleRight_includes (s : State) (codes : list ascii) (x : ascii) :
  includes (castleRight (removeCastleRight s codes)) x
  = isRight x && includes (castleRight s) x
    && negb (existsb (Ascii.eqb x) codes).
Proof. exact (removeCastleRight_mem s codes x). Qed.

Lemma rightHome_cases (ch : ascii) (col : Color) (k r : Z) :
  rightHome ch = Some (col, k, r) ->
  (ch = "K"%char /\ col = W /\ k = 60 /\ r = 63)
  \/ (ch = "Q"%char /\ col = W /\ k = 60 /\ r = 56)
  \/ (ch = "k"%char /\ col = B /\ k = 4 /\ r = 7)
  \/ (ch = "q"%char /\ col = B /\ k = 4 /\ r = 0).
Proof.
  unfold rightHome.
  destruct (Ascii.eqb_spec ch "K"); [intros [= <- <- <-]; tauto |].
  destruct (Ascii.eqb_spec ch "Q"); [intros [= <- <- <-]; tauto |].
  destruct (Ascii.eqb_spec ch "k"); [intros [= <- <- <-]; tauto |].
  destruct (Ascii.eqb_spec ch "q"); [intros [= <- <- <-]; tauto | done].
Qed.

Lemma removeCastleRight_kept (s : State) (codes : list ascii) (ch : ascii) :
  includes (castleRight (removeCastleRight s codes)) ch = true ->
  includes (castleRight s) ch = true /\ ~ In ch codes.
Proof.
  rewrite removeCastleRight_mem.
  intros [[_ Hi]%andb_true_iff Hn]%andb_true_iff. split; [done |].
  intros Hin. apply negb_true_iff in Hn.
  assert (existsb (Ascii.eqb ch) codes = true); [| congruence].
  apply existsb_exists. exists ch. split; [done | apply Ascii.eqb_refl].
Qed.

Lemma dropRightAt_kept (sq : Z) (s : State) (ch : ascii) (col : Color) (k r : Z) :
  includes (castleRight (dropRightAt sq s)) ch = true ->
  rightHome ch = Some (col, k, r) ->
  includes (castleRight s) ch = true /\ sq <> r.
Proof.
  intros Hinc Hhome. unfold dropRightAt in Hinc.
  change (toIndex 7 0) with 56 in Hinc. change (toIndex 7 7) with 63 in Hinc.
  change (toIndex 0 0) with 0 in Hinc. change (toIndex 0 7) with 7 in Hinc.
  destruct (Z.eqb_spec sq 56), (Z.eqb_spec sq 63), (Z.eqb_spec sq 0),
    (Z.eqb_spec sq 7); try lia;
    repeat match type of Hinc with
    | includes (castleRight (removeCastleRight _ _)) _ = true =>
        apply removeCastleRight_kept in Hinc as [Hinc ?]
    end;
    (split; [done |]);
    apply rightHome_cases in Hhome
      as [(-> & -> & -> & ->) | [(-> & -> & -> & ->) | [(-> & -> & -> & ->)
         | (-> & -> & -> & ->)]]];
    try lia;
    match goal with H : ~ In _ _ |- _ => intros _; apply H; by left end.
Qed.

(** What is known of a castling right that is still held after
    [applyMovePure]. *)
Lemma applyMovePure_right (s : State) (from to : Z) (p : Piece) (ch : ascii)
  (col : Color) (k r : Z) :
  rd (board s) from = Some p ->
  includes (castleRight (applyMovePure s from to)) ch = true ->
  rightHome ch = Some (col, k, r) ->
  includes (castleRight s) ch = true
  /\ (t p = K -> col <> c p)
  /\ (t p = R -> from <> r)
  /\ (forall cp, rd (board s) (capturedIndexOf s p from to) = Some cp ->
                 t cp = R -> to <> r).
Proof.
  intros Hp Hinc Hhome. unfold applyMovePure in Hinc. rewrite Hp in Hinc.
  cbn [flipTurn castleRight] in Hinc.
  unfold revokeRights in Hinc.
  set (s6 := publishEp (castleStage (movePieces s p from to) p from to) p from to)
    in Hinc.
  assert (H6 : includes (castleRight s6) ch = true ->
               includes (castleRight s) ch = true).
  { unfold s6, publishEp. cbn [castleRight]. unfold castleStage.
    destruct (isCastleFlag p from to); [| done].
    destruct (c p); intros [H _]%removeCastleRight_kept;
      by destruct (_ =? _). }
  set (s7 := if Kind_eqb (t p) K then _ else s6) in Hinc.
  assert (H7 : includes (castleRight s7) ch = true ->
               includes (castleRight s6) ch = true /\ (t p = K -> col <> c p)).
  { unfold s7. destruct (Kind_eqb (t p) K) eqn:Hk.
    - destruct (c p) eqn:Hc; intros [H Hn]%removeCastleRight_kept;
        (split; [done |]); intros _ ->;
        apply rightHome_cases in Hhome
          as [(-> & ? & _) | [(-> & ? & _) | [(-> & ? & _) | (-> & ? & _)]]];
        try done; apply Hn; cbn; tauto.
    - intros H. split; [done |]. intros E. by rewrite E in Hk. }
  set (s8 := if Kind_eqb (t p) R then dropRightAt from s7 else s7) in Hinc.
  assert (H8 : includes (castleRight s8) ch = true ->
               includes (castleRight s7) ch = true /\ (t p = R -> from <> r)).
  { unfold s8. destruct (Kind_eqb (t p) R) eqn:Hk.
    - intros H. destruct (dropRightAt_kept _ _ _ _ _ _ H Hhome). by split.
    - intros H. split; [done |]. intros E. by rewrite E in Hk. }
  assert (H9 : includes (castleRight s8) ch = true
               /\ (forall cp,
                     rd (board s) (capturedIndexOf s p from to) = Some cp ->
                     t cp = R -> to <> r)).
  { destruct (rd (board s) (capturedIndexOf s p from to)) as [cp|]; [| by split].
    destruct (Kind_eqb (t cp) R) eqn:Hk.
    - destruct (dropRightAt_kept _ _ _ _ _ _ Hinc Hhome) as [H Hne].
      split; [done |]. by intros ? [= <-] _.
    - split; [done |]. intros ? [= <-] E. by rewrite E in Hk. }
  destruct H9 as [Hi8 Hcap]. destruct (H8 Hi8) as [Hi7 Hrook].
  destruct (H7 Hi7) as [Hi6 Hking]. auto.
Qed.

Lemma isPiece_inj (x : Cell) (col col' : Color) (k k' : Kind) :
  isPiece x col k = true -> isPiece x col' k' = true -> col = col' /\ k = k'.
Proof.
  unfold isPiece. destruct x as [q|]; [| done].
  intros [H1 H2]%andb_true_iff [H3 H4]%andb_true_iff.
  apply Color_eqb_eq in H1, H3. apply Kind_eqb_eq in H2, H4.
  split; congruence.
Qed.

(** Away from the squares of the move, a piece other than a pawn stands
    after the move where it stood. *)
Lemma piece_kept (s : State) (from to : Z) (p : Piece) (j : Z)
  (col : Color) (k : Kind) :
  wf_state s ->
  rd (board s) from = Some p ->
  target_ok s from to ->
  isCastleFlag p from to = false ->
  isPiece (rd (board s) j) col k = true -> k <> P ->
  j <> from -> j <> to ->
  isPiece (rd (board (applyMovePure s from to)) j) col k = true.
Proof.
  intros Hwf Hp Hok Hflag Hj Hk Hjf Hjt.
  assert (Hd : rd (doneBoard s p from to) j = rd (board s) j).
  { destruct Hok as [Hto Hok]. destruct (Hok p Hp) as [_ Hep].
    unfold doneBoard.
    destruct (isEPmove s p from to).
    - destruct (Hep eq_refl) as [Hc Hpawn].
      replace (epCaptureSquare p to =? -1) with false
        by (symmetry; apply Z.eqb_neq; lia).
      cbn [negb]. rewrite !rd_wr.
      destruct (Z.eqb_spec from j); [by subst |].
      destruct (Z.eqb_spec to j); [by subst |]. cbn [andb].
      destruct (Z.eqb_spec (epCaptureSquare p to) j) as [E|]; [| done].
      rewrite E in Hpawn.
      destruct (isPiece_inj _ _ _ _ _ Hj Hpawn) as [_ ->]. done.
    - rewrite Z.eqb_refl. cbn [negb]. rewrite !rd_wr.
      destruct (Z.eqb_spec from j); [by subst |].
      destruct (Z.eqb_spec to j); [by subst | done]. }
  destruct (moved_cells s from to p Hwf Hp Hok Hflag j) as [-> | (Hpawn & _ & Hd')].
  - by rewrite Hd.
  - rewrite Hd in Hd'. rewrite Hd' in Hj.
    apply isPiece_Some in Hj as [_ Hj]. congruence.
Qed.

(** Castling leaves the other side's home rank alone. *)
Lemma castle_other_rank (s : State) (from to : Z) (p : Piece) (j : Z) :
  rd (board s) from = Some p -> t p = K ->
  In to (kingMoves s from) ->
  isCastleFlag p from to = true ->
  match c p with W => 0 <= j < 8 | B => 56 <= j < 64 end ->
  rd (board (applyMovePure s from to)) j = rd (board s) j.
Proof.
  intros Hp Hk Hin Hflag Hj.
  rewrite (castled_board s from to p Hp Hk Hflag). cbn zeta.
  destruct (kingMoves_castle s from to p Hp Hk Hin Hflag) as [Hf Hcase].
  destruct (c p) eqn:Hc; cbn iota in Hf, Hcase;
    destruct Hcase as [[Hto _] | [Hto _]]; subst from to;
    unfold castleRook; cbn [fst snd];
    rewrite ?Z.eqb_refl; cbn [fst snd];
    change (toIndex 7 2 =? toIndex 7 6) with false;
    change (toIndex 0 2 =? toIndex 0 6) with false; cbn [fst snd];
    rewrite !rd_wr;
    repeat match goal with
    | |- context [(?a =? j) && _] =>
        destruct (Z.eqb_spec a j) as [E | _];
        [exfalso; unfold toIndex in E; lia | cbn [andb]]
    end; reflexivity.
Qed.

Lemma castle_inv_step (s : State) (from to : Z) (p : Piece) :
  wf_state s -> castle_inv s ->
  rd (board s) from = Some p ->
  In to (generateMoves s from) ->
  isPiece (rd (board s) to) (opposite (c p)) K = false ->
  castle_inv (applyMovePure s from to).
Proof.
  intros Hwf Hinv Hp Hgen Hnk ch col hk hr Hhome Hinc.
  pose proof (rd_Some_inside _ _ _ Hp) as Hfrom. rewrite (proj1 Hwf) in Hfrom.
  assert (Hok : target_ok s from to)
    by (apply generateMoves_targets; [done | lia | done]).
  destruct (applyMovePure_right s from to p ch col hk hr Hp Hinc Hhome)
    as (Hinc0 & Hking & Hrook & Hcap).
  destruct (Hinv ch col hk hr Hhome Hinc0) as [HK HR].
  destruct (isCastleFlag p from to) eqn:Hflag.
  - assert (Hk : t p = K) by (unfold isCastleFlag in Hflag; by destruct (t p)).
    assert (Hin : In to (kingMoves s from))
      by (unfold generateMoves in Hgen; by rewrite Hp, Hk in Hgen).
    specialize (Hking Hk).
    rewrite !(castle_other_rank s from to p _ Hp Hk Hin Hflag); [done | |];
      apply rightHome_cases in Hhome
        as [(_ & -> & -> & ->) | [(_ & -> & -> & ->) | [(_ & -> & -> & ->)
           | (_ & -> & -> & ->)]]];
      destruct (c p); try done; lia.
  - (* the squares of the move are not home squares of a right still held *)
    pose proof Hok as [Hto Hok']. destruct (Hok' p Hp) as [Hbl Hep].
    assert (Hne : forall j k, isPiece (rd (board s) j) col k = true ->
                    (k = K \/ (k = R /\ j = hr)) -> j <> from /\ j <> to).
    { intros j k Hj Hjk. split.
      - intros E; subst j. rewrite Hp in Hj.
        apply isPiece_Some in Hj as [Hc Ht].
        destruct Hjk as [-> | [-> ->]].
        + by apply Hking.
        + by apply Hrook.
      - intros E; subst j.
        destruct (Color_eqb (c p) col) eqn:Hcol.
        + apply Color_eqb_eq in Hcol. subst col.
          unfold blocked in Hbl. unfold isPiece in Hj.
          destruct (rd (board s) to) as [q|]; [| done].
          apply andb_true_iff in Hj as [Hj _]. congruence.
        + assert (col = opposite (c p)) by (destruct (c p), col; done).
          subst col.
          destruct Hjk as [-> | [-> E']]; [congruence |].
          unfold isPiece in Hj.
          destruct (rd (board s) to) as [q|] eqn:Hq; [| done].
          apply andb_true_iff in Hj as [_ Hj]. apply Kind_eqb_eq in Hj.
          apply (Hcap q); [| done | exact E'].
          unfold capturedIndexOf.
          rewrite (isEPFlag_isEPmove s p from to Hwf).
          rewrite isEPmove_occupied; [done |]. by rewrite Hq. }
    destruct (Hne hk K HK (or_introl eq_refl)) as [? ?].
    destruct (Hne hr R HR (or_intror (conj eq_refl eq_refl))) as [? ?].
    split; apply (piece_kept s from to p); done.
Qed.

(** X15.  [applyMovePure] keeps castling rights honest: if every right
    held is held with king and rook on their original squares, the same
    is true after any pseudo-move that takes no king. *)
Theorem applyMovePure_castle_inv (s : State) (from to : Z) (p : Piece) :
  wf_state s -> castle_inv s ->
  rd (board s) from = Some p ->
  In to (generateMoves s from) ->
  isPiece (rd (board s) to) (opposite (c p)) K = false ->
  castle_inv (applyMovePure s from to).
Proof. exact (castle_inv_step s from to p). Qed.

Lemma initialState_castle_inv : castle_inv initialState.
Proof.
  intros ch col k r Hhome Hinc.
  apply rightHome_cases in Hhome
    as [(-> & -> & -> & ->) | [(-> & -> & -> & ->) | [(-> & -> & -> & ->)
       | (-> & -> & -> & ->)]]]; split; reflexivity.
Qed.

Lemma applyMovePure_castle_inv_witness :
  castle_inv (applyMovePure initialState 52 36).
Proof.
  assert (H1 : rd (board initialState) 52 = Some (mkPiece W P))
    by (vm_compute; reflexivity).
  assert (H2 : In 36 (generateMoves initialState 52)) by (vm_compute; tauto).
  assert (H3 : isPiece (rd (board initialState) 36) (opposite W) K = false)
    by (vm_compute; reflexivity).
  exact (applyMovePure_castle_inv initialState 52 36 (mkPiece W P)
           initialState_wf initialState_castle_inv H1 H2 H3).
Defined.

(** ** A capture is an attack *)

Lemma stepMoves_In (s : State) (col : Color) (r f : Z)
  (deltas : list (Z * Z)) (to : Z) :
  In to (stepMoves s col r f deltas) ->
  exists d, In d deltas /\ onBoard (r + fst d) (f + snd d) = true
            /\ to = toIndex (r + fst d) (f + snd d).
Proof.
  induction deltas as [|[dr df] rest IH]; [done |].
  cbn [stepMoves].
  destruct (onBoard (r + dr) (f + df)) eqn:Hon; cbn [negb].
  - destruct (canLand s col (toIndex (r + dr) (f + df))).
    + intros [<- | Hin].
      * exists (dr, df). split; [by left | done].
      * destruct (IH Hin) as (d & Hd & H). exists d. split; [by right | done].
    + intros Hin. destruct (IH Hin) as (d & Hd & H).
      exists d. split; [by right | done].
  - intros Hin. destruct (IH Hin) as (d & Hd & H).
    exists d. split; [by right | done].
Qed.

Lemma stepAttack_intro (b : Board) (col : Color) (k : Kind) (r f : Z)
  (deltas : list (Z * Z)) (d : Z * Z) :
  In d deltas ->
  onBoard (r + fst d) (f + snd d) = true ->
  isPiece (rd b (toIndex (r + fst d) (f + snd d))) col k = true ->
  stepAttack b col k r f deltas = true.
Proof.
  intros Hd Hon Hp. unfold stepAttack. apply existsb_exists.
  exists d. split; [done |]. cbv zeta. by rewrite Hon, Hp.
Qed.

Lemma slide_In (s : State) (col : Color) (r f dr df : Z) (steps : list Z)
  (to : Z) :
  In to (slide s col r f dr df steps) ->
  exists pre k post,
    steps = pre ++ k :: post
    /\ to = toIndex (r + dr * k) (f + df * k)
    /\ onBoard (r + dr * k) (f + df * k) = true
    /\ forall j, In j pre ->
         onBoard (r + dr * j) (f + df * j) = true
         /\ rd (board s) (toIndex (r + dr * j) (f + df * j)) = None.
Proof.
  induction steps as [|k0 rest IH]; [done |].
  cbn [slide].
  destruct (onBoard (r + dr * k0) (f + df * k0)) eqn:Hon; cbn [negb]; [| done].
  destruct (blocked s col (toIndex (r + dr * k0) (f + df * k0))); [done |].
  intros [<- | Hin].
  - exists [], k0, rest. split; [done |]. split; [done |]. split; [done |].
    by intros j [].
  - destruct (rd (board s) (toIndex (r + dr * k0) (f + df * k0))) as [q|] eqn:Hq;
      cbn [occupied] in Hin; [done |].
    destruct (IH Hin) as (pre & k & post & -> & Hto & Hk & Hpre).
    exists (k0 :: pre), k, post. split; [done |]. split; [done |].
    split; [done |]. intros j [<- | Hj]; [done | by apply Hpre].
Qed.

Lemma rayAttack_hit (b : Board) (col : Color) (slider : Kind)
  (r f dr df : Z) (pre : list Z) (k : Z) (post : list Z) (q : Piece) :
  (forall j, In j pre ->
     onBoard (r + dr * j) (f + df * j) = true
     /\ rd b (toIndex (r + dr * j) (f + df * j)) = None) ->
  onBoard (r + dr * k) (f + df * k) = true ->
  rd b (toIndex (r + dr * k) (f + df * k)) = Some q ->
  c q = col -> t q = slider \/ t q = Q ->
  rayAttack b col slider r f dr df (pre ++ k :: post) = true.
Proof.
  intros Hpre Hon Hq Hc Hk.
  induction pre as [|j rest IH]; cbn [app rayAttack].
  - rewrite Hon, Hq. cbn [negb]. rewrite Hc, Color_eqb_refl. cbn [negb].
    destruct Hk as [-> | ->]; rewrite Kind_eqb_refl; [done | apply orb_true_r].
  - destruct (Hpre j (or_introl eq_refl)) as [Hj1 Hj2].
    rewrite Hj1, Hj2. cbn [negb]. apply IH.
    intros j' Hj'. apply Hpre. by right.
Qed.

Lemma steps17_split (pre : list Z) (k : Z) (post : list Z) :
  steps17 = pre ++ k :: post ->
  1 <= k <= 7 /\ forall j, In j pre <-> 1 <= j < k.
Proof.
  unfold steps17. intros H.
  do 7 (destruct pre as [|? pre];
        [cbn in H; injection H as <- <-; split; [lia |];
         intros j; cbn [In]; lia
        | cbn in H; injection H as <- H]).
  destruct pre; discriminate H.
Qed.

(** A slide that reaches an occupied square is answered by the ray of
    [isSquareAttacked] that runs back from that square. *)
Lemma slide_rayAttack (s : State) (i to : Z) (p : Piece) (slider : Kind)
  (d : Z * Z) :
  0 <= i < 64 ->
  rd (board s) i = Some p ->
  t p = slider \/ t p = Q ->
  In to (slide s (c p) (rankOf i) (fileOf i) (fst d) (snd d) steps17) ->
  rayAttack (board s) (c p) slider (rankOf to) (fileOf to)
    (- fst d) (- snd d) steps17 = true.
Proof.
  intros Hi Hp Hk Hin. destruct d as [dr df]. cbn [fst snd] in *.
  destruct (rank_file_range i Hi) as [Hr Hf].
  set (r := rankOf i) in *. set (f := fileOf i) in *.
  apply slide_In in Hin as (pre & k & post & Hsplit & -> & Hon & Hpre).
  destruct (steps17_split pre k post Hsplit) as [Hk17 Hj].
  apply onBoard_spec in Hon as Hon'.
  rewrite rank_toIndex, file_toIndex by lia.
  rewrite Hsplit.
  apply (rayAttack_hit _ _ _ _ _ _ _ pre k post p).
  - intros j Hjin. apply Hj in Hjin.
    assert (Hkj : In (k - j) pre) by (apply Hj; lia).
    destruct (Hpre _ Hkj) as [H1 H2].
    replace (r + dr * k + - dr * j) with (r + dr * (k - j)) by lia.
    replace (f + df * k + - df * j) with (f + df * (k - j)) by lia.
    done.
  - replace (r + dr * k + - dr * k) with r by lia.
    replace (f + df * k + - df * k) with f by lia.
    apply onBoard_spec. lia.
  - replace (r + dr * k + - dr * k) with r by lia.
    replace (f + df * k + - df * k) with f by lia.
    subst r f. by rewrite toIndex_rank_file by lia.
  - done.
  - done.
Qed.

Lemma stepMoves_stepAttack (s : State) (i to : Z) (p : Piece) (k : Kind)
  (deltas deltas' : list (Z * Z)) :
  0 <= i < 64 ->
  rd (board s) i = Some p -> t p = k ->
  (forall d, In d deltas -> In (- fst d, - snd d) deltas') ->
  In to (stepMoves s (c p) (rankOf i) (fileOf i) deltas) ->
  stepAttack (board s) (c p) k (rankOf to) (fileOf to) deltas' = true.
Proof.
  intros Hi Hp Hk Hsym Hin.
  destruct (rank_file_range i Hi) as [Hr Hf].
  apply stepMoves_In in Hin as ([dr df] & Hd & Hon & ->).
  cbn [fst snd] in *. apply onBoard_spec in Hon as Hon'.
  rewrite rank_toIndex, file_toIndex by lia.
  apply (stepAttack_intro _ _ _ _ _ _ (- dr, - df)); cbn [fst snd].
  - by apply (Hsym (dr, df)).
  - replace (rankOf i + dr + - dr) with (rankOf i) by lia.
    replace (fileOf i + df + - df) with (fileOf i) by lia.
    apply onBoard_spec. lia.
  - replace (rankOf i + dr + - dr) with (rankOf i) by lia.
    replace (fileOf i + df + - df) with (fileOf i) by lia.
    rewrite toIndex_rank_file by lia. rewrite Hp.
    unfold isPiece. by rewrite Color_eqb_refl, Hk, Kind_eqb_refl.
Qed.

Lemma isSquareAttacked_intro (s : State) (i : Z) (col : Color) :
  stepAttack (board s) col P (rankOf i) (fileOf i)
    [(pawnDir col, -1); (pawnDir col, 1)] = true
  \/ stepAttack (board s) col N (rankOf i) (fileOf i) knightDeltas = true
  \/ (exists d, In d diagDeltas
        /\ rayAttack (board s) col Bi (rankOf i) (fileOf i) (fst d) (snd d)
             steps17 = true)
  \/ (exists d, In d orthoDeltas
        /\ rayAttack (board s) col R (rankOf i) (fileOf i) (fst d) (snd d)
             steps17 = true)
  \/ stepAttack (board s) col K (rankOf i) (fileOf i)
       (diagDeltas ++ orthoDeltas) = true ->
  isSquareAttacked s i col = true.
Proof.
  unfold isSquareAttacked. cbv zeta. rewrite !orb_true_iff.
  intros [H | [H | [(d & Hd & H) | [(d & Hd & H) | H]]]].
  - tauto.
  - tauto.
  - left. left. right. apply existsb_exists. by exists d.
  - left. right. apply existsb_exists. by exists d.
  - tauto.
Qed.

Lemma slideMoves_attack (s : State) (i to : Z) (p : Piece) (slider : Kind)
  (deltas : list (Z * Z)) :
  0 <= i < 64 ->
  rd (board s) i = Some p ->
  t p = slider \/ t p = Q ->
  In to (slideMoves s (c p) (rankOf i) (fileOf i) deltas) ->
  exists d, In d deltas
    /\ rayAttack (board s) (c p) slider (rankOf to) (fileOf to)
         (- fst d) (- snd d) steps17 = true.
Proof.
  intros Hi Hp Hk Hin. unfold slideMoves in Hin.
  apply in_flat_map in Hin as (d & Hd & Hin).
  exists d. split; [done |]. by apply (slide_rayAttack s i to p slider d).
Qed.

Lemma diag_neg (d : Z * Z) :
  In d diagDeltas -> In (- fst d, - snd d) diagDeltas.
Proof.
  unfold diagDeltas. cbn [In].
  intros [<- | [<- | [<- | [<- | []]]]]; cbn [fst snd Z.opp]; tauto.
Qed.

Lemma ortho_neg (d : Z * Z) :
  In d orthoDeltas -> In (- fst d, - snd d) orthoDeltas.
Proof.
  unfold orthoDeltas. cbn [In].
  intros [<- | [<- | [<- | [<- | []]]]]; cbn [fst snd Z.opp]; tauto.
Qed.

Lemma knight_neg (d : Z * Z) :
  In d knightDeltas -> In (- fst d, - snd d) knightDeltas.
Proof.
  unfold knightDeltas. cbn [In].
  intros [<- | [<- | [<- | [<- | [<- | [<- | [<- | [<- | []]]]]]]]];
    cbn [fst snd Z.opp]; tauto.
Qed.

Lemma queen_neg (d : Z * Z) :
  In d queenDeltas -> In (- fst d, - snd d) (diagDeltas ++ orthoDeltas).
Proof.
  unfold queenDeltas. rewrite !in_app_iff.
  intros [H | H]; [right; by apply ortho_neg | left; by apply diag_neg].
Qed.

Lemma isEmptyAt_occupied (s : State) (i : Z) :
  isEmptyAt s i = true -> occupied (rd (board s) i) = true -> False.
Proof. unfold isEmptyAt. by intros ->%negb_true_iff. Qed.

Lemma pawn_capture_attack (s : State) (i to : Z) (p : Piece) :
  wf_state s -> 0 <= i < 64 ->
  rd (board s) i = Some p -> t p = P ->
  In to (pawnMoves s i) -> occupied (rd (board s) to) = true ->
  stepAttack (board s) (c p) P (rankOf to) (fileOf to)
    [(pawnDir (c p), -1); (pawnDir (c p), 1)] = true.
Proof.
  intros [Hlen Hep] Hi Hp Hk Hin Hocc.
  destruct (rank_file_range i Hi) as [Hr Hf].
  unfold pawnMoves in Hin. rewrite Hp, Hk in Hin.
  cbn [Kind_eqb negb] in Hin. cbv zeta in Hin.
  assert (Hcap : forall df, (df = -1 \/ df = 1) ->
    In to (if onBoard (rankOf i + moveDir (c p)) (fileOf i + df)
           then match rd (board s)
                        (toIndex (rankOf i + moveDir (c p)) (fileOf i + df)) with
                | Some q => if negb (Color_eqb (c q) (c p))
                            then [toIndex (rankOf i + moveDir (c p))
                                    (fileOf i + df)]
                            else []
                | None => []
                end
           else []) ->
    stepAttack (board s) (c p) P (rankOf to) (fileOf to)
      [(pawnDir (c p), -1); (pawnDir (c p), 1)] = true).
  { intros df Hdf Hto.
    destruct (onBoard _ _) eqn:Hon in Hto; [| done].
    destruct (rd (board s) _) as [q|] in Hto; [| done].
    destruct (negb _) in Hto; [| done].
    destruct Hto as [<- | []].
    apply onBoard_spec in Hon as Hon'.
    rewrite rank_toIndex, file_toIndex by lia.
    assert (Hdir : moveDir (c p) + pawnDir (c p) = 0) by (by destruct (c p)).
    apply (stepAttack_intro _ _ _ _ _ _ (pawnDir (c p), - df)); cbn [fst snd].
    - cbn [In]. destruct Hdf as [-> | ->]; cbn [Z.opp]; tauto.
    - apply onBoard_spec. lia.
    - replace (rankOf i + moveDir (c p) + pawnDir (c p)) with (rankOf i) by lia.
      replace (fileOf i + df + - df) with (fileOf i) by lia.
      rewrite toIndex_rank_file by lia. rewrite Hp.
      unfold isPiece. by rewrite Color_eqb_refl, Hk. }
  apply in_app_iff in Hin as [Hin | Hin].
  { exfalso.
    destruct (onBoard _ _) in Hin; [| done].
    destruct (isEmptyAt s (toIndex (rankOf i + moveDir (c p)) (fileOf i)))
      eqn:He1 in Hin; [| done].
    destruct Hin as [<- | Hin]; [by eapply isEmptyAt_occupied |].
    destruct (rankOf i =? _) in Hin; [| done].
    destruct (isEmptyAt s (toIndex (rankOf i + 2 * moveDir (c p)) (fileOf i)))
      eqn:He2 in Hin; [| done].
    destruct Hin as [<- | []]. by eapply isEmptyAt_occupied. }
  apply in_app_iff in Hin as [Hin | Hin]; [apply (Hcap (-1)); [lia | done] |].
  apply in_app_iff in Hin as [Hin | Hin]; [apply (Hcap 1); [lia | done] |].
  exfalso. destruct (ep s) as [e|] eqn:He; [| done].
  destruct (Hep e eq_refl) as [_ Hnone].
  destruct (_ && _) in Hin; [| done].
  destruct (rd (board s) (toIndex (rankOf i) (fileOf e))) as [adj|] in Hin;
    [| done].
  destruct (_ && _) in Hin; [| done].
  destruct Hin as [<- | []]. by rewrite Hnone in Hocc.
Qed.

Lemma kingMoves_In (s : State) (i to : Z) (p : Piece) :
  rd (board s) i = Some p -> t p = K ->
  In to (kingMoves s i) ->
  In to (stepMoves s (c p) (rankOf i) (fileOf i) queenDeltas)
  \/ isEmptyAt s to = true.
Proof.
  intros Hp Hk. unfold kingMoves. rewrite Hp, Hk. cbn [Kind_eqb negb].
  assert (Hside : forall rk ks qs me r,
    In to
      ((if includes (castleRight s) ks
           && isEmptyAt s (toIndex rk 5) && isEmptyAt s (toIndex rk 6)
           && negb (isSquareAttacked s (toIndex r 4) (opposite (c p)))
           && negb (isSquareAttacked s (toIndex rk 5) (opposite (c p)))
           && negb (isSquareAttacked s (toIndex rk 6) (opposite (c p)))
           && isPiece (rd (board s) (toIndex rk 7)) me R
        then [toIndex rk 6] else [])
       ++
       (if includes (castleRight s) qs
           && isEmptyAt s (toIndex rk 3) && isEmptyAt s (toIndex rk 2)
           && isEmptyAt s (toIndex rk 1)
           && negb (isSquareAttacked s (toIndex r 4) (opposite (c p)))
           && negb (isSquareAttacked s (toIndex rk 3) (opposite (c p)))
           && negb (isSquareAttacked s (toIndex rk 2) (opposite (c p)))
           && isPiece (rd (board s) (toIndex rk 0)) me R
        then [toIndex rk 2] else [])) ->
    isEmptyAt s to = true).
  { intros rk ks qs me r. rewrite in_app_iff.
    intros [Hin | Hin].
    - destruct (_ && _) eqn:Hc in Hin; [| done].
      destruct Hin as [<- | []].
      rewrite !andb_true_iff in Hc.
      by destruct Hc as ((((((_ & _) & He) & _) & _) & _) & _).
    - destruct (_ && _) eqn:Hc in Hin; [| done].
      destruct Hin as [<- | []].
      rewrite !andb_true_iff in Hc.
      by destruct Hc as (((((((_ & _) & He) & _) & _) & _) & _) & _). }
  destruct (c p) eqn:Hc;
    (destruct (_ && _); cbn [negb];
     [ rewrite in_app_iff; intros [Hin | Hin];
       [ by left | right; eapply Hside; exact Hin ]
     | by left ]).
Qed.

Lemma king_capture_attack (s : State) (i to : Z) (p : Piece) :
  0 <= i < 64 ->
  rd (board s) i = Some p -> t p = K ->
  In to (kingMoves s i) -> occupied (rd (board s) to) = true ->
  stepAttack (board s) (c p) K (rankOf to) (fileOf to)
    (diagDeltas ++ orthoDeltas) = true.
Proof.
  intros Hi Hp Hk Hin Hocc.
  destruct (kingMoves_In s i to p Hp Hk Hin) as [Hstep | He].
  - by apply (stepMoves_stepAttack s i to p K queenDeltas);
      [| | | apply queen_neg |].
  - exfalso. by eapply isEmptyAt_occupied.
Qed.

(** A pseudo-move onto an occupied square is an attack on that square,
    as [isSquareAttacked] sees it. *)
Lemma generateMoves_attacks (s : State) (i to : Z) (p : Piece) :
  wf_state s -> 0 <= i < 64 ->
  rd (board s) i = Some p ->
  In to (generateMoves s i) ->
  occupied (rd (board s) to) = true ->
  isSquareAttacked s to (c p) = true.
Proof.
  intros Hwf Hi Hp Hin Hocc. apply isSquareAttacked_intro.
  unfold generateMoves in Hin. rewrite Hp in Hin.
  destruct (t p) eqn:Hk.
  - left. by apply (pawn_capture_attack s i to p).
  - right. left. unfold knightMoves in Hin. rewrite Hp, Hk in Hin.
    cbn [Kind_eqb] in Hin.
    by apply (stepMoves_stepAttack s i to p N knightDeltas);
      [| | | apply knight_neg |].
  - right. right. left. unfold bishopMoves in Hin. rewrite Hp, Hk in Hin.
    cbn [Kind_eqb] in Hin.
    destruct (slideMoves_attack s i to p Bi diagDeltas Hi Hp
                (or_introl Hk) Hin) as (d & Hd & Hray).
    exists (- fst d, - snd d). split; [by apply diag_neg | done].
  - right. right. right. left. unfold rookMoves in Hin. rewrite Hp, Hk in Hin.
    cbn [Kind_eqb] in Hin.
    destruct (slideMoves_attack s i to p R orthoDeltas Hi Hp
                (or_introl Hk) Hin) as (d & Hd & Hray).
    exists (- fst d, - snd d). split; [by apply ortho_neg | done].
  - unfold queenMoves in Hin. rewrite Hp, Hk in Hin. cbn [Kind_eqb] in Hin.
    unfold queenDeltas, slideMoves in Hin. rewrite flat_map_app in Hin.
    apply in_app_iff in Hin as [Hin | Hin].
    + right. right. right. left.
      destruct (slideMoves_attack s i to p R orthoDeltas Hi Hp
                  (or_intror Hk) Hin) as (d & Hd & Hray).
      exists (- fst d, - snd d). split; [by apply ortho_neg | done].
    + right. right. left.
      destruct (slideMoves_attack s i to p Bi diagDeltas Hi Hp
                  (or_intror Hk) Hin) as (d & Hd & Hray).
      exists (- fst d, - snd d). split; [by apply diag_neg | done].
  - right. right. right. right. by apply (king_capture_attack s i to p).
Qed.

(** ** The positions of a game *)

(** Where the kings stand after a move. *)

Lemma kingMoves_castle_empty (s : State) (from to : Z) (p : Piece) :
  rd (board s) from = Some p -> t p = K ->
  In to (kingMoves s from) ->
  isCastleFlag p from to = true ->
  isEmptyAt s (fst (castleRook (c p) to)) = true.
Proof.
  intros Hp Hk Hin Hflag.
  pose proof (rd_Some_inside _ _ _ Hp) as Hfrom.
  unfold isCastleFlag in Hflag. rewrite Hk in Hflag. cbn [Kind_eqb andb] in Hflag.
  apply Z.eqb_eq in Hflag.
  assert (Hstep : ~ In to (stepMoves s (c p) (rankOf from) (fileOf from) queenDeltas)).
  { intros (d & Hd & E)%stepMoves_file.
    assert (-1 <= snd d <= 1).
    { simpl in Hd.
      repeat (destruct Hd as [<- | Hd]; [cbn; lia |]). done. }
    lia. }
  unfold kingMoves in Hin. rewrite Hp, Hk in Hin. cbn [Kind_eqb negb] in Hin.
  unfold castleRook.
  destruct (c p) eqn:Hc; cbn zeta in Hin.
  - destruct (_ && _) eqn:Hks in Hin; cbn [negb] in Hin; [| done].
    rewrite !in_app_iff in Hin. destruct Hin as [Hin | [Hin | Hin]]; [done | |].
    + destruct (_ && _) eqn:Hcond in Hin; [| done].
      destruct Hin as [<- | []]. rewrite Z.eqb_refl. cbn [fst].
      rewrite !andb_true_iff in Hcond.
      by destruct Hcond as ((((((_ & He) & _) & _) & _) & _) & _).
    + destruct (_ && _) eqn:Hcond in Hin; [| done].
      destruct Hin as [<- | []].
      change (toIndex 7 2 =? toIndex 7 6) with false. cbn [fst].
      rewrite !andb_true_iff in Hcond.
      by destruct Hcond as (((((((_ & He) & _) & _) & _) & _) & _) & _).
  - destruct (_ && _) eqn:Hks in Hin; cbn [negb] in Hin; [| done].
    rewrite !in_app_iff in Hin. destruct Hin as [Hin | [Hin | Hin]]; [done | |].
    + destruct (_ && _) eqn:Hcond in Hin; [| done].
      destruct Hin as [<- | []]. rewrite Z.eqb_refl. cbn [fst].
      rewrite !andb_true_iff in Hcond.
      by destruct Hcond as ((((((_ & He) & _) & _) & _) & _) & _).
    + destruct (_ && _) eqn:Hcond in Hin; [| done].
      destruct Hin as [<- | []].
      change (toIndex 0 2 =? toIndex 0 6) with false. cbn [fst].
      rewrite !andb_true_iff in Hcond.
      by destruct Hcond as (((((((_ & He) & _) & _) & _) & _) & _) & _).
Qed.

Lemma isPiece_empty (s : State) (i : Z) (col : Color) (k : Kind) :
  isEmptyAt s i = true -> isPiece (rd (board s) i) col k = false.
Proof.
  unfold isEmptyAt. destruct (rd (board s) i); [done | done].
Qed.

(** The squares that hold a king after [applyMovePure]: the square a
    king has moved to, and the squares that held a king and were not
    touched. *)
Lemma kings_after (s : State) (from to : Z) (p : Piece) (j : Z) (col : Color) :
  wf_state s ->
  rd (board s) from = Some p ->
  In to (generateMoves s from) ->
  isPiece (rd (board (applyMovePure s from to)) j) col K
  = if j =? to then isPiece (Some p) col K
    else if j =? from then false
    else isPiece (rd (board s) j) col K.
Proof.
  intros Hwf Hp Hgen.
  pose proof (rd_Some_inside _ _ _ Hp) as Hfrom. rewrite (proj1 Hwf) in Hfrom.
  assert (Hok : target_ok s from to)
    by (apply generateMoves_targets; [done | lia | done]).
  pose proof Hok as [Hto Hok']. destruct (Hok' p Hp) as [Hbl Hep].
  assert (Hft : from <> to).
  { intros ->. unfold blocked in Hbl. rewrite Hp in Hbl.
    by rewrite Color_eqb_refl in Hbl. }
  destruct (isCastleFlag p from to) eqn:Hflag.
  - assert (Hk : t p = K) by (unfold isCastleFlag in Hflag; by destruct (t p)).
    assert (Hin : In to (kingMoves s from))
      by (unfold generateMoves in Hgen; by rewrite Hp, Hk in Hgen).
    rewrite (castled_board s from to p Hp Hk Hflag). cbv zeta.
    pose proof (kingMoves_castle_empty s from to p Hp Hk Hin Hflag) as Hempty.
    destruct (kingMoves_castle s from to p Hp Hk Hin Hflag) as [Hf Hcase].
    cbv zeta in Hf, Hcase.
    assert (Hrook : isPiece (rd (board s) (snd (castleRook (c p) to))) (c p) R = true
                    /\ fst (castleRook (c p) to) <> from
                    /\ fst (castleRook (c p) to) <> to
                    /\ snd (castleRook (c p) to) <> from
                    /\ snd (castleRook (c p) to) <> to
                    /\ 0 <= fst (castleRook (c p) to)
                    /\ 0 <= snd (castleRook (c p) to)).
    { unfold castleRook.
      destruct (c p); destruct Hcase as [[-> Hr] | [-> Hr]]; subst from;
        rewrite ?Z.eqb_refl;
        change (toIndex 7 2 =? toIndex 7 6) with false;
        change (toIndex 0 2 =? toIndex 0 6) with false;
        cbn [fst snd]; unfold toIndex; (split; [exact Hr | lia]). }
    destruct Hrook as (Hr & H1 & H2 & H3 & H4 & H5 & H6).
    generalize dependent (fst (castleRook (c p) to)). intros rookTo Hempty H1 H2 H5.
    generalize dependent (snd (castleRook (c p) to)). intros rookFrom Hr H3 H4 H6.
    pose proof (isPiece_empty s rookTo col K Hempty) as Hk1.
    pose proof (isPiece_rook_king _ _ Hr) as Hk2.
    assert (Hk3 : isPiece (rd (board s) rookFrom) col K = false).
    { unfold isPiece in Hr |- *. destruct (rd (board s) rookFrom) as [q|]; [| done].
      apply andb_true_iff in Hr as [_ Hr]. apply Kind_eqb_eq in Hr.
      rewrite Hr. by rewrite andb_false_r. }
    rewrite !rd_wr.
    replace (0 <=? rookFrom) with true by (symmetry; apply Z.leb_le; lia).
    replace (0 <=? rookTo) with true by (symmetry; apply Z.leb_le; lia).
    replace (0 <=? from) with true by (symmetry; apply Z.leb_le; lia).
    replace (0 <=? to) with true by (symmetry; apply Z.leb_le; lia).
    rewrite !andb_true_r.
    destruct (Z.eqb_spec rookFrom j) as [<-|Hj1].
    { destruct (Z.eqb_spec rookFrom to); [lia |].
      destruct (Z.eqb_spec rookFrom from); [lia |]. by rewrite Hk3. }
    destruct (Z.eqb_spec rookTo j) as [<-|Hj2].
    { destruct (Z.eqb_spec rookTo to); [lia |].
      destruct (Z.eqb_spec rookTo from); [lia |].
      destruct (Z.eqb_spec from rookFrom); [lia |].
      destruct (Z.eqb_spec to rookFrom); [lia |].
      rewrite Hk1. unfold isPiece in Hr |- *.
      destruct (rd (board s) rookFrom) as [q|]; [| done].
      apply andb_true_iff in Hr as [_ Hr]. apply Kind_eqb_eq in Hr.
      rewrite Hr. by rewrite andb_false_r. }
    destruct (Z.eqb_spec from j) as [<-|Hj3].
    { destruct (Z.eqb_spec from to); [lia |]. by rewrite Z.eqb_refl. }
    destruct (Z.eqb_spec to j) as [<-|Hj4].
    { by rewrite Z.eqb_refl. }
    destruct (Z.eqb_spec j to); [lia |].
    destruct (Z.eqb_spec j from); [lia | done].
  - assert (E : isPiece (rd (board (applyMovePure s from to)) j) col K
                = isPiece (rd (doneBoard s p from to) j) col K).
    { destruct (moved_cells s from to p Hwf Hp Hok Hflag j)
        as [-> | (Hpawn & -> & ->)]; [done |].
      unfold isPiece. cbn [c t]. rewrite Hpawn. cbn [Kind_eqb].
      by rewrite !andb_false_r. }
    rewrite E. unfold doneBoard.
    destruct (isEPmove s p from to) eqn:Hisep.
    + destruct (Hep eq_refl) as [Hcap Hpawn].
      replace (epCaptureSquare p to =? -1) with false
        by (symmetry; apply Z.eqb_neq; lia).
      cbn [negb]. rewrite !rd_wr.
      replace (0 <=? from) with true by (symmetry; apply Z.leb_le; lia).
      replace (0 <=? to) with true by (symmetry; apply Z.leb_le; lia).
      replace (0 <=? epCaptureSquare p to) with true
        by (symmetry; apply Z.leb_le; lia).
      rewrite !andb_true_r.
      destruct (Z.eqb_spec from j) as [<-|Hj3].
      { destruct (Z.eqb_spec from to); [lia |]. by rewrite Z.eqb_refl. }
      destruct (Z.eqb_spec to j) as [<-|Hj4]; [by rewrite Z.eqb_refl |].
      destruct (Z.eqb_spec j to); [lia |].
      destruct (Z.eqb_spec j from); [lia |].
      destruct (Z.eqb_spec (epCaptureSquare p to) j) as [<-|Hj5]; [| done].
      unfold isPiece in Hpawn |- *.
      destruct (rd (board s) (epCaptureSquare p to)) as [q|]; [| done].
      apply andb_true_iff in Hpawn as [_ Hq]. apply Kind_eqb_eq in Hq.
      rewrite Hq. by rewrite andb_false_r.
    + rewrite Z.eqb_refl. cbn [negb]. rewrite !rd_wr.
      replace (0 <=? from) with true by (symmetry; apply Z.leb_le; lia).
      replace (0 <=? to) with true by (symmetry; apply Z.leb_le; lia).
      rewrite !andb_true_r.
      destruct (Z.eqb_spec from j) as [<-|Hj3].
      { destruct (Z.eqb_spec from to); [lia |]. by rewrite Z.eqb_refl. }
      destruct (Z.eqb_spec to j) as [<-|Hj4]; [by rewrite Z.eqb_refl |].
      destruct (Z.eqb_spec j to); [lia |].
      destruct (Z.eqb_spec j from); [lia | done].
Qed.

Lemma castleStage_turn (s : State) (mover : Piece) (from to : Z) :
  turn (castleStage s mover from to) = turn s.
Proof.
  unfold castleStage. destruct (isCastleFlag mover from to); [| done].
  destruct (c mover); destruct (to =? _); reflexivity.
Qed.

Lemma applyMovePure_turn (s : State) (from to : Z) (p : Piece) :
  rd (board s) from = Some p ->
  turn (applyMovePure s from to) = opposite (turn s).
Proof.
  intros Hp. unfold applyMovePure. rewrite Hp.
  cbn [flipTurn turn].
  destruct (revokeRights_fields
              (publishEp (castleStage (movePieces s p from to) p from to) p from to)
              p (rd (board s) (capturedIndexOf s p from to)) from to)
    as (_ & -> & _).
  cbn [publishEp turn]. by rewrite castleStage_turn.
Qed.

Lemma opposite_involutive (col : Color) : opposite (opposite col) = col.
Proof. by destruct col. Qed.

Lemma findKingIn_In (b : Board) (col : Color) (idxs : list Z) :
  findKingIn b col idxs <> -1 -> In (findKingIn b col idxs) idxs.
Proof.
  induction idxs as [|i rest IH]; [done |].
  cbn [findKingIn]. destruct (isPiece (rd b i) col K); [by left |].
  intros H. right. by apply IH.
Qed.

(** The king of a side that has one stands on the square [findKing]
    answers. *)
Lemma findKing_king (s : State) (col : Color) :
  findKing s col <> -1 ->
  0 <= findKing s col < 64
  /\ isPiece (rd (board s) (findKing s col)) col K = true.
Proof.
  intros H. split.
  - apply squares_range. by apply findKingIn_In.
  - by apply findKingIn_is_king.
Qed.

(** A legal move in a position where the side that has just moved is
    not in check does not take a king. *)
Lemma no_king_capture (s : State) (from to : Z) (p : Piece) :
  wf_state s ->
  one_king s (opposite (c p)) ->
  inCheck s (opposite (c p)) = false ->
  rd (board s) from = Some p ->
  In to (generateMoves s from) ->
  isPiece (rd (board s) to) (opposite (c p)) K = false.
Proof.
  intros Hwf Hone Hchk Hp Hgen.
  pose proof (rd_Some_inside _ _ _ Hp) as Hfrom. rewrite (proj1 Hwf) in Hfrom.
  destruct (isPiece (rd (board s) to) (opposite (c p)) K) eqn:Hk; [| done].
  exfalso.
  assert (Hocc : occupied (rd (board s) to) = true).
  { unfold isPiece in Hk. by destruct (rd (board s) to). }
  pose proof (generateMoves_attacks s from to p Hwf Hfrom Hp Hgen Hocc) as Hatt.
  assert (Hto : 0 <= to < 64).
  { by destruct (generateMoves_targets s from to Hwf Hfrom Hgen). }
  assert (Hfk : findKing s (opposite (c p)) = to).
  { apply findKingIn_unique; [by apply In_squares | | done].
    intros j Hj. by apply Hone. }
  unfold inCheck in Hchk. rewrite Hfk in Hchk.
  destruct (Z.eqb_spec to (-1)); [lia |].
  rewrite opposite_involutive in Hchk. congruence.
Qed.

(** Each side keeps its one king through a move that takes no king. *)
Lemma kings_kept (s : State) (from to : Z) (p : Piece) (col : Color) :
  wf_state s ->
  rd (board s) from = Some p ->
  In to (generateMoves s from) ->
  isPiece (rd (board s) to) (opposite (c p)) K = false ->
  one_king s col -> findKing s col <> -1 ->
  one_king (applyMovePure s from to) col
  /\ findKing (applyMovePure s from to) col <> -1.
Proof.
  intros Hwf Hp Hgen Hnk Hone Hfk.
  pose proof (rd_Some_inside _ _ _ Hp) as Hfrom. rewrite (proj1 Hwf) in Hfrom.
  assert (Hok : target_ok s from to)
    by (apply generateMoves_targets; [done | lia | done]).
  pose proof Hok as [Hto Hok']. destruct (Hok' p Hp) as [Hbl _].
  assert (Hft : from <> to).
  { intros ->. unfold blocked in Hbl. rewrite Hp in Hbl.
    by rewrite Color_eqb_refl in Hbl. }
  pose proof (fun j => kings_after s from to p j col Hwf Hp Hgen) as Hafter.
  destruct (findKing_king s col Hfk) as [Hkr Hking].
  assert (Hto_old : isPiece (Some p) col K = false ->
                    isPiece (rd (board s) to) col K = false).
  { intros Hm. destruct (Color_eqb (c p) col) eqn:Hc.
    - apply Color_eqb_eq in Hc. subst col. by apply isPiece_blocked.
    - assert (col = opposite (c p)) by (destruct (c p), col; done).
      by subst col. }
  split.
  - intros i j Hi Hj. rewrite Hafter in Hi, Hj.
    destruct (Z.eqb_spec i to) as [->|Hit]; destruct (Z.eqb_spec j to) as [->|Hjt];
      try done.
    + destruct (Z.eqb_spec j from); [done |].
      exfalso. assert (j = from); [| done].
      apply Hone; [done | by rewrite Hp].
    + destruct (Z.eqb_spec i from); [done |].
      exfalso. assert (i = from); [| done].
      apply Hone; [done | by rewrite Hp].
    + destruct (Z.eqb_spec i from); [done |].
      destruct (Z.eqb_spec j from); [done |]. by apply Hone.
  - unfold findKing.
    destruct (isPiece (Some p) col K) eqn:Hm.
    + apply (findKingIn_found _ _ _ to);
        [intros i Hi; apply squares_range in Hi; lia | by apply In_squares |].
      by rewrite Hafter, Z.eqb_refl.
    + apply (findKingIn_found _ _ _ (findKing s col));
        [intros i Hi; apply squares_range in Hi; lia | by apply In_squares |].
      rewrite Hafter.
      destruct (Z.eqb_spec (findKing s col) to) as [E|_].
      { rewrite E in Hking. by rewrite (Hto_old eq_refl) in Hking. }
      destruct (Z.eqb_spec (findKing s col) from) as [E|_]; [| done].
      rewrite E, Hp in Hking. congruence.
Qed.

Lemma initialState_position_inv : position_inv initialState.
Proof.
  split; [exact initialState_inv |]. split; [| split].
  - intros col. split.
    + apply one_king_count; [reflexivity |]. destruct col; vm_compute; lia.
    + destruct col; vm_compute; discriminate.
  - exact initialState_castle_inv.
  - reflexivity.
Qed.

(** A legal move keeps the invariant. *)
Lemma applyMovePure_position_inv (s : State) (from to : Z) :
  position_inv s ->
  In (from, to) (allLegalMoves s (turn s)) ->
  position_inv (applyMovePure s from to).
Proof.
  intros (Hinv & Hkings & Hcastle & Hchk) Hin.
  pose proof (game_inv_wf s Hinv) as Hwf.
  destruct (allLegalMovesSt_spec s (turn s) Hwf) as [_ Hm].
  destruct (Hm _ Hin) as (_ & Hfrom & (p & Hp & Hc) & Hgen & Hl).
  clear Hm. cbn [fst snd] in Hfrom, Hp, Hgen, Hl.
  assert (Hok : target_ok s from to)
    by (exact (generateMoves_targets s from to Hwf Hfrom Hgen)).
  rewrite <- Hc in Hl, Hchk.
  rewrite (leavesKingInCheck_known s from to p Hp Hok) in Hl.
  pose proof (no_king_capture s from to p Hwf
                (proj1 (Hkings (opposite (c p)))) Hchk Hp Hgen) as Hnk.
  split; [exact (applyMovePure_inv s from to Hinv Hin) |].
  split; [| split].
  - intros col. destruct (Hkings col) as [Hone Hfk].
    exact (kings_kept s from to p col Hwf Hp Hgen Hnk Hone Hfk).
  - exact (castle_inv_step s from to p Hwf Hcastle Hp Hgen Hnk).
  - rewrite (applyMovePure_turn s from to p Hp), opposite_involutive.
    rewrite <- Hc.
    exact (applyMovePure_safe s from to p Hwf (proj1 (Hkings (c p))) Hp Hgen Hl).
Qed.

(** X16.  What holds of every position of a game (the initial position
    followed by legal moves applied with [applyMovePure]): the board has
    64 cells, the en-passant square is an empty square of ranks 2 to 7,
    the castling rights are written with K, Q, k, q, the clocks are in
    range; each side has exactly one king; a castling right is held
    only with king and rook on their original squares; and the side
    that has just moved is not in check. *)
Theorem reachable_position_inv (s : State) :
  reachable s -> position_inv s.
Proof.
  induction 1 as [|s from to _ IH Hin].
  - exact initialState_position_inv.
  - by apply applyMovePure_position_inv.
Qed.

Lemma reachable_position_inv_witness : position_inv afterE4.
Proof. exact (reachable_position_inv afterE4 afterE4_reachable). Defined.

Lemma castleStage_clocks (s : State) (mover : Piece) (from to : Z) :
  halfmove (castleStage s mover from to) = halfmove s
  /\ fullmove (castleStage s mover from to) = fullmove s.
Proof.
  unfold castleStage. destruct (isCastleFlag mover from to); [| done].
  destruct (c mover); destruct (to =? _); split; reflexivity.
Qed.

(** X14.  The bookkeeping of [applyMovePure]: with a piece on the origin
    square the side to move changes, the fullmove number grows by one
    after a move of Black, the halfmove clock restarts on a pawn move or
    a capture and grows by one otherwise, and the en-passant square is
    the square a pawn has passed over in a double step, or none; with an
    empty origin square the position is returned as it is. *)
Theorem applyMovePure_bookkeeping (s : State) (from to : Z) :
  match rd (board s) from with
  | None => applyMovePure s from to = s
  | Some p =>
      let s' := applyMovePure s from to in
      turn s' = opposite (turn s)
      /\ fullmove s' = (match turn s with B => fullmove s + 1 | W => fullmove s end)
      /\ halfmove s'
         = (if Kind_eqb (t p) P
               || occupied (rd (board s) (capturedIndexOf s p from to))
            then 0 else halfmove s + 1)
      /\ ep s'
         = (if Kind_eqb (t p) P && (Z.abs (rankOf to - rankOf from) =? 2)
            then Some (toIndex ((rankOf to + rankOf from) / 2) (fileOf from))
            else None)
  end.
Proof.
  destruct (rd (board s) from) as [p|] eqn:Hp.
  - cbv zeta. split; [exact (applyMovePure_turn s from to p Hp) |].
    unfold applyMovePure. rewrite Hp. cbn [flipTurn fullmove halfmove ep].
    destruct (revokeRights_fields
                (publishEp (castleStage (movePieces s p from to) p from to)
                   p from to)
                p (rd (board s) (capturedIndexOf s p from to)) from to)
      as (_ & -> & -> & -> & -> & _).
    cbn [publishEp turn ep halfmove fullmove].
    rewrite castleStage_turn.
    destruct (castleStage_clocks (movePieces s p from to) p from to) as [-> ->].
    unfold movePieces. cbn [turn halfmove fullmove].
    split; [by destruct (turn s) | split; reflexivity].
  - unfold applyMovePure. by rewrite Hp.
Qed.

(** X6.  [allLegalMoves] hands the position back as it found it, and
    every move it returns is a pseudo-move ([generateMoves]) of a piece
    of the colour asked for, onto a square of the board that holds no
    piece of that colour. *)
Theorem allLegalMoves_pseudo_legal (s : State) (col : Color) (from to : Z) :
  wf_state s ->
  snd (allLegalMovesSt s col) = s
  /\ (In (from, to) (allLegalMoves s col) ->
      0 <= from < 64 /\ 0 <= to < 64
      /\ (exists p, rd (board s) from = Some p /\ c p = col)
      /\ In to (generateMoves s from)
      /\ blocked s col to = false).
Proof.
  intros Hwf. destruct (allLegalMovesSt_spec s col Hwf) as [Hs Hm].
  split; [exact Hs |]. intros Hin.
  destruct (Hm _ Hin) as (_ & Hfrom & (p & Hp & Hc) & Hgen & _).
  cbn [fst snd] in Hfrom, Hp, Hgen.
  destruct (generateMoves_targets s from to Hwf Hfrom Hgen) as [Hto Hok].
  destruct (Hok p Hp) as [Hbl _]. rewrite Hc in Hbl.
  split; [exact Hfrom |]. split; [exact Hto |].
  split; [by exists p |]. split; [exact Hgen | exact Hbl].
Qed.

Lemma allLegalMoves_pseudo_legal_witness :
  snd (allLegalMovesSt initialState W) = initialState
  /\ (In (52, 36) (allLegalMoves initialState W) ->
      0 <= 52 < 64 /\ 0 <= 36 < 64
      /\ (exists p, rd (board initialState) 52 = Some p /\ c p = W)
      /\ In 36 (generateMoves initialState 52)
      /\ blocked initialState W 36 = false).
Proof.
  apply (allLegalMoves_pseudo_legal initialState W 52 36).
  split; [reflexivity | intros e H; discriminate H].
Defined.

(** X9.  A capture is an attack: when [generateMoves] sends a piece onto
    an occupied square, [isSquareAttacked] reports that square attacked
    by the piece's side. *)
Theorem generateMoves_capture_attacked (s : State) (i to : Z) (p : Piece) :
  wf_state s -> 0 <= i < 64 ->
  rd (board s) i = Some p ->
  In to (generateMoves s i) ->
  occupied (rd (board s) to) = true ->
  isSquareAttacked s to (c p) = true.
Proof. exact (generateMoves_attacks s i to p). Qed.

Lemma generateMoves_capture_attacked_witness :
  In 4 (generateMoves rookPinned 52)
  /\ occupied (rd (board rookPinned) 4) = true
  /\ isSquareAttacked rookPinned 4 W = true.
Proof.
  assert (H1 : In 4 (generateMoves rookPinned 52)) by (vm_compute; tauto).
  assert (H2 : occupied (rd (board rookPinned) 4) = true) by reflexivity.
  split; [exact H1 |]. split; [exact H2 |].
  apply (generateMoves_capture_attacked rookPinned 52 4 (mkPiece W R)
           rookPinned_wf ltac:(lia) eq_refl H1 H2).
Defined.

(** ** The move made on the page *)

Lemma removeCastleRight_twice (s : State) (a b : ascii) :
  Main.removeTwo s a b = removeCastleRight s [a; b].
Proof.
  unfold Main.removeTwo. apply state_eq; try reflexivity.
  unfold removeCastleRight at 1 3. cbn [castleRight]. f_equal.
  apply filter_ext_in. intros x Hx.
  rewrite removeCastleRight_mem.
  replace (isRight x) with true
    by (symmetry; unfold isRight; apply existsb_exists; exists x;
        split; [done | apply Ascii.eqb_refl]).
  cbn [existsb andb]. rewrite !orb_false_r.
  by destruct (includes (castleRight s) x), (Ascii.eqb x a), (Ascii.eqb x b).
Qed.

(** X17.  The move the page makes and the move the search makes are the
    same move: [applyMove] of main.js and [applyMovePure] of pure.js give
    the same position. *)
Theorem applyMove_applyMovePure (s : State) (from to : Z) :
  Main.applyMove s from to = applyMovePure s from to.
Proof.
  unfold Main.applyMove, applyMovePure.
  destruct (rd (board s) from) as [mover|]; [| done].
  cbn zeta. rewrite !removeCastleRight_twice.
  reflexivity.
Qed.

(** X18.  A draw by material on the page is a draw by material in the
    search: whenever [insufficientMaterial] of main.js holds, so does
    the one of search.js. *)
Theorem insufficientMaterial_Main (s : State) :
  Main.insufficientMaterial s = true -> insufficientMaterial s = true.
Proof.
  assert (Hn : Main.pieceCounts s = countOf s)
    by (unfold Main.pieceCounts, countOf; reflexivity).
  unfold Main.insufficientMaterial. rewrite Hn. clear Hn.
  unfold insufficientMaterial. cbv zeta.
  rewrite (countCells_split (fun p => Kind_eqb (t p) R || Kind_eqb (t p) Q)
             (fun p => Kind_eqb (t p) R) (fun p => Kind_eqb (t p) Q) s);
    [| intros; reflexivity | by intros [? []]].
  rewrite (countCells_split (fun p => Kind_eqb (t p) Bi || Kind_eqb (t p) N)
             (fun p => Kind_eqb (t p) Bi) (fun p => Kind_eqb (t p) N) s);
    [| intros; reflexivity | by intros [? []]].
  rewrite !count_kind_colors.
  pose proof (countOf_nonneg s W N). pose proof (countOf_nonneg s B N).
  pose proof (countOf_nonneg s W Bi). pose proof (countOf_nonneg s B Bi).
  generalize dependent (countOf s W N). intros wn ?.
  generalize dependent (countOf s B N). intros bn ?.
  generalize dependent (countOf s W Bi). intros wb ?.
  generalize dependent (countOf s B Bi). intros bb ?.
  generalize (countOf s W P) (countOf s B P) (countOf s W R) (countOf s B R)
             (countOf s W Q) (countOf s B Q).
  intros wp bp wr0 br wq bq.
  generalize (Main.bishopSquareColors s W ++ Main.bishopSquareColors s B).
  intros cols.
  destruct ((wp =? 0) && (bp =? 0) && (wr0 =? 0) && (br =? 0) && (wq =? 0)
            && (bq =? 0)) eqn:Hz; cbn [negb]; [| done].
  rewrite !andb_true_iff in Hz.
  destruct Hz as (((((Hwp & Hbp) & Hwr) & Hbr) & Hwq) & Hbq). zbool. subst.
  cbn [Z.add Z.ltb Z.compare Z.eqb andb].
  destruct (Z.eqb_spec (wn + bn + wb + bb) 0); [intros _; apply Z.leb_le; lia |].
  destruct (Z.eqb_spec (wn + bn + wb + bb) 1); [intros _; apply Z.leb_le; lia |].
  destruct (Z.eqb_spec (wn + bn + wb + bb) 2); [intros _; apply Z.leb_le; lia |].
  cbn [andb].
  destruct ((wb =? 0) && (bb =? 0)) eqn:Hb; cbn [andb]; [| done].
  apply andb_true_iff in Hb as [Hwb Hbb]. zbool. subst.
  destruct (_ || _) eqn:Hn; [| done]. intros _.
  rewrite !orb_true_iff, !andb_true_iff in Hn. apply Z.leb_le.
  destruct Hn as [[Hn | Hn] | Hn]; destruct Hn; zbool; lia.
Qed.

Lemma insufficientMaterial_Main_witness :
  Main.insufficientMaterial stalemated = true
  /\ insufficientMaterial stalemated = true.
Proof.
  assert (H : Main.insufficientMaterial stalemated = true)
    by (vm_compute; reflexivity).
  split; [exact H | exact (insufficientMaterial_Main stalemated H)].
Defined.

(** ** Transposition table: store and probe *)

Lemma toInt32_idem (z : Z) : toInt32 (toInt32 z) = toInt32 z.
Proof. apply toInt32_id, toInt32_range. Qed.

Lemma indexFor_store (tb : Table) (k d : Z) (fl : TTFlag) (sc : Num)
  (bm : option Move) (k' : Z) :
  _indexFor (ttStore tb k d fl sc bm) k' = _indexFor tb k'.
Proof.
  unfold _indexFor, ttStore. by destruct (negb _).
Qed.

(** X19.  Storing and then probing the same key: unless the slot held
    another key searched strictly deeper (the store is then refused and
    the probe misses), the probe sees the new entry: whole when the
    requested depth is at most the stored one, as a best-move hint
    otherwise. *)
Theorem ttStore_ttProbe (tb : Table) (k d : Z) (fl : TTFlag) (sc : Num)
  (bm : option Move) (req : Z) :
  ttProbe (ttStore tb k d fl sc bm) k req =
  let fresh := if toInt32 req <=? toInt32 d
               then Full (mkEntry k (toInt32 d) fl sc bm)
               else HintOnly bm in
  match slots tb !! _indexFor tb k with
  | Some e =>
      if negb (key e =? k) && (toInt32 d <? toInt32 (depth e))
      then Miss else fresh
  | None => fresh
  end.
Proof.
  cbv zeta. unfold ttProbe. rewrite indexFor_store. unfold ttStore.
  destruct (slots tb !! _indexFor tb k) as [e|] eqn:He.
  - destruct (Z.eqb_spec (key e) k) as [Hk|Hk]; cbn [negb andb].
    + cbn [slots]. rewrite lookup_insert_eq. cbn [key depth bestMove].
      by rewrite Z.eqb_refl, toInt32_idem.
    + rewrite Z.ltb_antisym.
      destruct (toInt32 (depth e) <=? toInt32 d); cbn [negb].
      * cbn [slots]. rewrite lookup_insert_eq. cbn [key depth bestMove].
        by rewrite Z.eqb_refl, toInt32_idem.
      * rewrite He. by destruct (Z.eqb_spec (key e) k).
  - cbn [negb slots]. rewrite lookup_insert_eq. cbn [key depth bestMove].
    by rewrite Z.eqb_refl, toInt32_idem.
Qed.

(** X20.  A store under one key never makes up an answer for another
    key: the probe of another key is as before the store, or, when both
    keys share the slot and the entry was replaced, it misses. *)
Theorem ttStore_other_key (tb : Table) (k d : Z) (fl : TTFlag) (sc : Num)
  (bm : option Move) (k' req : Z) :
  k' <> k ->
  ttProbe (ttStore tb k d fl sc bm) k' req = ttProbe tb k' req
  \/ (_indexFor tb k' = _indexFor tb k
      /\ ttProbe (ttStore tb k d fl sc bm) k' req = Miss).
Proof.
  intros Hne. unfold ttProbe. rewrite indexFor_store. unfold ttStore.
  destruct (negb _); [by left |]. cbn [slots].
  destruct (decide (_indexFor tb k = _indexFor tb k')) as [E|E].
  - right. split; [done |]. rewrite E, lookup_insert_eq. cbn [key].
    by destruct (Z.eqb_spec k k'); [subst |].
  - left. by rewrite lookup_insert_ne.
Qed.

Lemma ttStore_other_key_witness :
  12346 <> 12345
  /\ (ttProbe sampleTable 12346 0 = ttProbe defaultTable 12346 0
      \/ (_indexFor defaultTable 12346 = _indexFor defaultTable 12345
          /\ ttProbe sampleTable 12346 0 = Miss)).
Proof.
  split; [lia |].
  apply (ttStore_other_key defaultTable 12345 3 EXACT (Fin 10) (Some (52, 36))
           12346 0). lia.
Defined.

Lemma land_mask_range (x p : Z) :
  0 <= p -> 0 <= Z.land x (Z.shiftl 1 p - 1) <= Z.shiftl 1 p - 1.
Proof.
  intros Hp. rewrite Z.shiftl_1_l.
  replace (2 ^ p - 1) with (Z.ones p) by (rewrite Z.ones_equiv; lia).
  rewrite Z.land_ones by done.
  pose proof (Z.mod_pos_bound x (2 ^ p) ltac:(by apply Z.pow_pos_nonneg)).
  rewrite Z.ones_equiv. lia.
Qed.

(** X21.  [ttInit] clamps the size to between 2^12 and 2^22 slots, and
    the index computed for any key, negative ones included, falls inside
    the array. *)
Theorem ttInit_index_range (sizePow2 keyBig : Z) :
  4096 <= ttSize (ttInit sizePow2) <= 4194304
  /\ 0 <= _indexFor (ttInit sizePow2) keyBig < ttSize (ttInit sizePow2).
Proof.
  unfold ttSize, _indexFor, ttInit. cbn [mask].
  set (p1 := if sizePow2 <? 12 then 12 else sizePow2).
  set (p2 := if 22 <? p1 then 22 else p1).
  assert (Hp : 12 <= p2 <= 22).
  { subst p1 p2. destruct (Z.ltb_spec sizePow2 12);
      [done |]. destruct (Z.ltb_spec 22 sizePow2); lia. }
  split.
  - rewrite Z.shiftl_1_l.
    pose proof (Z.pow_le_mono_r 2 12 p2 ltac:(lia) ltac:(lia)).
    pose proof (Z.pow_le_mono_r 2 p2 22 ltac:(lia) ltac:(lia)).
    change (2 ^ 12) with 4096 in *. change (2 ^ 22) with 4194304 in *. lia.
  - pose proof (land_mask_range
      (Z.lxor (Z.lxor keyBig (Z.shiftr keyBig 32)) (Z.shiftr keyBig 53)) p2
      ltac:(lia)). lia.
Qed.

(** ** Keys updated piece by piece *)

Lemma land_lxor_mask (a x : Z) :
  Z.land (Z.lxor (Z.land a MASK64) x) MASK64 = Z.land (Z.lxor a x) MASK64.
Proof.
  apply Z.bits_inj'. intros n _.
  rewrite !Z.land_spec, !Z.lxor_spec, !Z.land_spec.
  by destruct (Z.testbit a n), (Z.testbit x n), (Z.testbit MASK64 n).
Qed.

Ltac xor_bits :=
  apply Z.bits_inj'; intros ?n _;
  rewrite ?Z.lxor_spec, ?Z.bits_0;
  repeat match goal with
         | |- context [Z.testbit ?a ?n] => destruct (Z.testbit a n)
         end;
  reflexivity.

Lemma lxor_swap (a x y : Z) : Z.lxor (Z.lxor a x) y = Z.lxor (Z.lxor a y) x.
Proof. by rewrite !Z.lxor_assoc, (Z.lxor_comm x y). Qed.

Lemma lxor_cancel (a x : Z) : Z.lxor (Z.lxor a x) x = a.
Proof. by rewrite Z.lxor_assoc, Z.lxor_nilpotent, Z.lxor_0_r. Qed.

Lemma pieceHash_cons (zob : Zobrist) (b : Board) (j : Z) (rest : list Z)
  (h : Z) :
  pieceHash zob b (j :: rest) h
  = pieceHash zob b rest
      (match rd b j with
       | None => h
       | Some p => Z.lxor h (zPieces zob (COLOR_IDX (c p)) (TYPE_IDX (t p)) j)
       end).
Proof. reflexivity. Qed.

Lemma pieceHash_lxor (zob : Zobrist) (b : Board) (l : list Z) (h x : Z) :
  pieceHash zob b l (Z.lxor h x) = Z.lxor (pieceHash zob b l h) x.
Proof.
  revert h. induction l as [|i rest IH]; intros h; [done |].
  rewrite !pieceHash_cons.
  destruct (rd b i) as [p|]; [| apply IH].
  rewrite lxor_swap. apply IH.
Qed.

Lemma pieceHash_other (zob : Zobrist) (b : Board) (i : Z) (v : Cell)
  (l : list Z) (h : Z) :
  ~ In i l -> pieceHash zob (wr b i v) l h = pieceHash zob b l h.
Proof.
  revert h. induction l as [|j rest IH]; intros h Hn; [done |].
  rewrite !pieceHash_cons.
  rewrite (rd_wr b i j v).
  destruct (Z.eqb_spec i j) as [->|Hij]; [destruct Hn; by left |].
  cbn [andb]. apply IH. intros Hin. apply Hn. by right.
Qed.

Lemma pieceHash_place (zob : Zobrist) (b : Board) (i : Z) (q : Piece)
  (l : list Z) (h : Z) :
  List.NoDup l -> In i l -> 0 <= i -> rd b i = None ->
  pieceHash zob (wr b i (Some q)) l h
  = Z.lxor (pieceHash zob b l h) (zPieces zob (COLOR_IDX (c q)) (TYPE_IDX (t q)) i).
Proof.
  intros Hnd Hin Hi Hb. revert h.
  induction Hnd as [|j rest Hj Hnd IH]; intros h; [done |].
  rewrite !pieceHash_cons, (rd_wr b i j).
  destruct (Z.eqb_spec i j) as [<-|Hij].
  - replace (0 <=? i) with true by (symmetry; apply Z.leb_le; lia).
    cbn [andb]. rewrite Hb, pieceHash_other by done. apply pieceHash_lxor.
  - cbn [andb]. destruct Hin as [E|Hin]; [by destruct Hij |].
    destruct (rd b j); by apply IH.
Qed.

Lemma pieceHash_remove (zob : Zobrist) (b : Board) (i : Z) (p : Piece)
  (l : list Z) (h : Z) :
  List.NoDup l -> In i l -> 0 <= i -> rd b i = Some p ->
  pieceHash zob (wr b i None) l h
  = Z.lxor (pieceHash zob b l h) (zPieces zob (COLOR_IDX (c p)) (TYPE_IDX (t p)) i).
Proof.
  intros Hnd Hin Hi Hb. revert h.
  induction Hnd as [|j rest Hj Hnd IH]; intros h; [done |].
  rewrite !pieceHash_cons, (rd_wr b i j).
  destruct (Z.eqb_spec i j) as [<-|Hij].
  - replace (0 <=? i) with true by (symmetry; apply Z.leb_le; lia).
    cbn [andb]. rewrite Hb, pieceHash_other by done.
    by rewrite pieceHash_lxor, lxor_cancel.
  - cbn [andb]. destruct Hin as [E|Hin]; [by destruct Hij |].
    destruct (rd b j); by apply IH.
Qed.

Lemma NoDup_squares : List.NoDup squares.
Proof.
  unfold squares. apply Finite.Injective_map_NoDup; [| apply seq_NoDup].
  intros x y. apply Nat2Z.inj.
Qed.

Lemma computeKey_pieceHash (zob : Zobrist) (s : State) :
  ep s = None ->
  computeKey zob s
  = Z.land
      (Z.lxor (pieceHash zob (board s) squares 0)
         (Z.lxor (match turn s with B => zSideToMove zob | W => 0 end)
            (Z.lxor (if includes (castleRight s) "K" then zCastle zob 0 else 0)
               (Z.lxor (if includes (castleRight s) "Q" then zCastle zob 1 else 0)
                  (Z.lxor (if includes (castleRight s) "k" then zCastle zob 2 else 0)
                     (if includes (castleRight s) "q" then zCastle zob 3 else 0))))))
      MASK64.
Proof.
  intros Hep. unfold computeKey, epFileIndexEffective, hasCastleRight, pieceHash.
  rewrite Hep. cbn [Z.leb Z.compare].
  generalize (fold_left
    (fun h i => match rd (board s) i with
                | Some p => Z.lxor h (zPieces zob (COLOR_IDX (c p)) (TYPE_IDX (t p)) i)
                | None => h
                end) squares 0).
  intros h0. cbv zeta.
  destruct (turn s), (includes (castleRight s) "K"),
    (includes (castleRight s) "Q"), (includes (castleRight s) "k"),
    (includes (castleRight s) "q");
    rewrite ?Z.lxor_0_r, ?Z.lxor_0_l, ?Z.lxor_assoc; reflexivity.
Qed.

(** X22.  Updating a key piece by piece agrees with computing it anew:
    on a position with no en-passant square, [togglePiece] applied to
    the key gives the key of the position with the piece put on an
    empty square, and the key of the position with the piece taken off
    the square it stands on. *)
Theorem togglePiece_computeKey (zob : Zobrist) (s : State) (i : Z)
  (col : Color) (k : Kind) :
  ep s = None -> 0 <= i < 64 ->
  (rd (board s) i = None ->
   togglePiece zob (computeKey zob s) col k i
   = computeKey zob (set_board s (wr (board s) i (Some (mkPiece col k)))))
  /\ (rd (board s) i = Some (mkPiece col k) ->
      togglePiece zob (computeKey zob s) col k i
      = computeKey zob (set_board s (wr (board s) i None))).
Proof.
  intros Hep Hi.
  assert (Hin : In i squares) by (apply In_squares; lia).
  split; intros Hb; unfold togglePiece;
    rewrite !computeKey_pieceHash by done; cbn [set_board board turn castleRight];
    rewrite land_lxor_mask.
  - rewrite (pieceHash_place zob (board s) i (mkPiece col k) squares 0
               NoDup_squares Hin ltac:(lia) Hb).
    cbn [c t]. f_equal. apply lxor_swap.
  - rewrite (pieceHash_remove zob (board s) i (mkPiece col k) squares 0
               NoDup_squares Hin ltac:(lia) Hb).
    cbn [c t]. f_equal. apply lxor_swap.
Qed.

Lemma togglePiece_computeKey_witness :
  togglePiece sampleZobrist (computeKey sampleZobrist initialState) W N 36
  = computeKey sampleZobrist
      (set_board initialState
         (wr (board initialState) 36 (Some (mkPiece W N)))).
Proof.
  assert (H1 : ep initialState = None) by reflexivity.
  assert (H2 : 0 <= 36 < 64) by lia.
  assert (H3 : rd (board initialState) 36 = None) by (vm_compute; reflexivity).
  exact (proj1 (togglePiece_computeKey sampleZobrist initialState 36 W N H1 H2)
           H3).
Defined.

(** X23.  On a position with no en-passant square, [toggleSideToMove]
    applied to the key gives the key of the position with the other
    side to move. *)
Theorem toggleSideToMove_computeKey (zob : Zobrist) (s : State) :
  ep s = None ->
  toggleSideToMove zob (computeKey zob s)
  = computeKey zob (with_turn s (opposite (turn s))).
Proof.
  intros Hep. unfold toggleSideToMove.
  rewrite !computeKey_pieceHash by done. cbn [with_turn board turn castleRight].
  rewrite land_lxor_mask. f_equal.
  generalize (pieceHash zob (board s) squares 0). intros h0.
  destruct (turn s); cbn [opposite].
  - xor_bits.
  - xor_bits.
Qed.

Lemma toggleSideToMove_computeKey_witness :
  toggleSideToMove sampleZobrist (computeKey sampleZobrist initialState)
  = computeKey sampleZobrist (with_turn initialState B).
Proof. exact (toggleSideToMove_computeKey sampleZobrist initialState eq_refl). Defined.

(** ** Move ordering leaves the position alone *)

(** [givesCheckAfter] makes and takes back the very writes of
    [leavesKingInCheck]. *)
Lemma givesCheckAfter_snd (s : State) (from to enemyKingSq : Z)
  (known : option Z) :
  snd (givesCheckAfter s from to enemyKingSq)
  = snd (leavesKingInCheck s from to known).
Proof.
  unfold givesCheckAfter, leavesKingInCheck.
  destruct (rd (board s) from) as [mover|]; reflexivity.
Qed.

Lemma annotateLoop_restores (w : World) (ttBest : option Move)
  (sideIdx ply : Z) (light : bool) (enemyKingSq : Z) (s : State)
  (moves : list Move) :
  wf_state s ->
  (forall m, In m moves -> target_ok s (fst m) (snd m)) ->
  snd (annotateLoop w s moves ttBest sideIdx ply light enemyKingSq) = s.
Proof.
  intros Hwf. induction moves as [|[from to] rest IH]; intros Hok; [done |].
  cbn [annotateLoop].
  assert (Hs1 : snd (if negb light
                        && (negb (occupied (rd (board s) to)
                                  || isEnPassantMove s from to)
                            && negb (isPromotionMove s from to)
                            && negb (isCastleMove s from to))
                        && negb (enemyKingSq =? -1)
                     then givesCheckAfter s from to enemyKingSq
                     else (false, s)) = s).
  { destruct (_ && _); [| done].
    rewrite (givesCheckAfter_snd s from to enemyKingSq None).
    apply target_ok_restores; [done |]. apply (Hok (from, to)). by left. }
  cbv zeta.
  match goal with
  | |- context [if ?b then givesCheckAfter ?a1 ?a2 ?a3 ?a4 else ?e] =>
      destruct (if b then givesCheckAfter a1 a2 a3 a4 else e) as [chk s1]
  end.
  cbn [snd] in Hs1. subst s1.
  destruct (killerAt w ply) as [k0 k1].
  assert (Hrest : forall m, In m rest -> target_ok s (fst m) (snd m))
    by (intros m Hm; apply Hok; by right).
  specialize (IH Hrest).
  destruct (annotateLoop w s rest ttBest sideIdx ply light enemyKingSq)
    as [anns s2].
  exact IH.
Qed.

(** X25.  Move ordering neither loses a move nor leaves a mark on the
    board: called with moves of [allLegalMoves] for the position,
    [annotateMoves] hands the position back as it found it (the do/undo
    of [givesCheckAfter] is undone each time) and returns exactly the
    moves it was given, each once, in the order of the sort. *)
Theorem annotateMoves_restores (w : World) (s : State) (col : Color)
  (moves : list Move) (ttBest : option Move) (sideIdx ply : Z) (light : bool) :
  wf_state s ->
  (forall m, In m moves -> In m (allLegalMoves s col)) ->
  snd (annotateMoves w s moves ttBest sideIdx ply light) = s
  /\ Permutation
       (map (fun m => (a_from m, a_to m))
          (fst (annotateMoves w s moves ttBest sideIdx ply light)))
       moves.
Proof.
  intros Hwf Hlegal. split; [| apply annotateMoves_perm].
  unfold annotateMoves.
  pose proof (annotateLoop_restores w ttBest sideIdx ply light
                (findKing s (opposite (turn s))) s moves Hwf) as H.
  destruct (annotateLoop _ _ _ _ _ _ _ _) as [out s1]. cbn [snd] in *.
  apply H. intros [from to] Hm. cbn [fst snd].
  destruct (allLegalMovesSt_spec s col Hwf) as [_ Hspec].
  destruct (Hspec _ (Hlegal _ Hm)) as (_ & Hfrom & _ & Hgen & _).
  by apply generateMoves_targets.
Qed.

Lemma annotateMoves_restores_witness :
  snd (annotateMoves freshWorld initialState (allLegalMoves initialState W)
         None 0 0 false) = initialState
  /\ Permutation
       (map (fun m => (a_from m, a_to m))
          (fst (annotateMoves freshWorld initialState
                  (allLegalMoves initialState W) None 0 0 false)))
       (allLegalMoves initialState W).
Proof.
  exact (annotateMoves_restores freshWorld initialState W
           (allLegalMoves initialState W) None 0 0 false initialState_wf
           (fun m H => H)).
Defined.

(** ** Quiescence on a quiet position *)

Lemma filter_none {A : Type} (g : A -> bool) (l : list A) :
  (forall x, In x l -> g x = false) -> List.filter g l = [].
Proof.
  induction l as [|a rest IH]; intros H; [done |].
  cbn [List.filter]. rewrite (H a (or_introl eq_refl)).
  apply IH. intros x Hx. apply H. by right.
Qed.

(** X26.  Quiescence stands pat on a quiet position: when the position is
    no draw by the fifty-move rule or by material, the side to move is
    not in check and none of its legal moves is a capture, [quiescence]
    returns the static evaluation, whatever the window and the clock. *)
Theorem quiescence_quiet (evalFn : State -> Z) (now : nat -> Z) (fuel : nat)
  (s : State) (alpha beta : Num) (w : World) :
  wf_state s ->
  fiftyMoveDraw s = false -> insufficientMaterial s = false ->
  inCheck s (turn s) = false ->
  (forall m, In m (allLegalMoves s (turn s)) ->
             isCapture s (fst m) (snd m) = false) ->
  option_map fst (quiescence evalFn now (S fuel) s alpha beta w)
  = Some (Fin (evalFn s)).
Proof.
  intros Hwf H50 Him Hchk Hquiet.
  cbn [quiescence]. unfold quiescence_body. rewrite H50, Him, Hchk.
  cbn [orb]. unfold standPat.
  destruct (allLegalMovesSt_spec s (turn s) Hwf) as [Hs _].
  unfold allLegalMoves in Hquiet.
  destruct (allLegalMovesSt s (turn s)) as [moves0 s1].
  cbn [fst snd] in Hs, Hquiet. subst s1.
  assert (Hf : List.filter (fun m => isCapture s (fst m) (snd m)) moves0 = [])
    by (by apply filter_none).
  destruct (Color_eqb (turn s) W).
  - destruct (num_ge (Fin (evalFn s)) beta); [reflexivity |].
    unfold bind, timeExpired, readClock.
    destruct (num_ge (Fin (now (ticks w))) (deadline w)); [reflexivity |].
    rewrite Hf. reflexivity.
  - destruct (num_le (Fin (evalFn s)) alpha); [reflexivity |].
    unfold bind, timeExpired, readClock.
    destruct (num_ge (Fin (now (ticks w))) (deadline w)); [reflexivity |].
    rewrite Hf. reflexivity.
Qed.

Lemma quiescence_quiet_witness :
  option_map fst
    (quiescence zeroEval stillClock 1 initialState NegInf PosInf freshWorld)
  = Some (Fin (zeroEval initialState)).
Proof.
  assert (H1 : fiftyMoveDraw initialState = false) by (vm_compute; reflexivity).
  assert (H2 : insufficientMaterial initialState = false)
    by (vm_compute; reflexivity).
  assert (H3 : inCheck initialState (turn initialState) = false)
    by (vm_compute; reflexivity).
  assert (H4 : forall m, In m (allLegalMoves initialState (turn initialState)) ->
                 isCapture initialState (fst m) (snd m) = false).
  { assert (Hall : forallb (fun m => negb (isCapture initialState (fst m) (snd m)))
                     (allLegalMoves initialState (turn initialState)) = true)
      by (vm_compute; reflexivity).
    rewrite forallb_forall in Hall. intros m Hm.
    apply negb_true_iff. by apply Hall. }
  exact (quiescence_quiet zeroEval stillClock 0 initialState NegInf PosInf
           freshWorld initialState_wf H1 H2 H3 H4).
Defined.

(** ** The search and the repetition map *)

Lemma same_path_refl (w : World) : same_path w w.
Proof. by split. Qed.

Lemma same_path_trans (w1 w2 w3 : World) :
  same_path w1 w2 -> same_path w2 w3 -> same_path w1 w3.
Proof.
  intros [H1 H2] [H3 H4]. split; [congruence |].
  intros k. by rewrite H4, H2.
Qed.

Lemma keeps_ret {A : Type} (x : A) : keeps (ret x).
Proof. intros w y w' [= _ <-]. apply same_path_refl. Qed.

Lemma keeps_bind {A B : Type} (m : M A) (f : A -> M B) :
  keeps m -> (forall x, keeps (f x)) -> keeps (bind m f).
Proof.
  intros Hm Hf w y w' H. unfold bind in H.
  destruct (m w) as [[x w1]|] eqn:E; [| done].
  eapply same_path_trans; [by eapply Hm | by eapply Hf].
Qed.

Lemma ends_bind {A B : Type} (key seen : Z) (m : M A) (f : A -> M B) :
  keeps m -> (forall x, ends key seen (f x)) -> ends key seen (bind m f).
Proof.
  intros Hm Hf w y w' H. unfold bind in H.
  destruct (m w) as [[x w1]|] eqn:E; [| done].
  destruct (Hm _ _ _ E) as [H1 H2].
  destruct (Hf _ _ _ _ H) as (H3 & H4 & H5).
  split; [congruence |]. split; [| done].
  intros k Hk. by rewrite H4, H2.
Qed.

Lemma ends_leaf {A : Type} (key seen : Z) (m : M A) :
  keeps m -> ends key seen (bind (repSet key seen) (fun _ => m)).
Proof.
  intros Hm w y w' H. unfold bind, repSet in H.
  destruct (Hm _ _ _ H) as [H1 H2]. cbn [deadline] in H1.
  split; [done |]. split.
  - intros k Hk. rewrite H2. unfold repCount. cbn [rep].
    by rewrite lookup_insert_ne.
  - rewrite H2. unfold repCount. cbn [rep]. by rewrite lookup_insert_eq.
Qed.

Section SearchPath.

Variable evalFn : State -> Z.
Variable now : nat -> Z.
Variable zob : Zobrist.

Lemma keeps_readClock : keeps (readClock now).
Proof. intros w x w' [= _ <-]. by split. Qed.

Lemma keeps_timeExpired : keeps (timeExpired now).
Proof. intros w x w' [= _ <-]. by split. Qed.

Lemma keeps_getWorld : keeps getWorld.
Proof. intros w x w' [= _ <-]. by split. Qed.

Lemma keeps_repGet (k : Z) : keeps (repGet k).
Proof. intros w x w' [= _ <-]. by split. Qed.

Lemma keeps_probeM (k d : Z) : keeps (probeM k d).
Proof. intros w x w' [= _ <-]. by split. Qed.

Lemma keeps_storeM (k d : Z) (fl : TTFlag) (sc : Num) (bm : option Move) :
  keeps (storeM k d fl sc bm).
Proof. intros w x w' [= _ <-]. by split. Qed.

Lemma keeps_addKiller (ply mkey : Z) : keeps (addKiller ply mkey).
Proof.
  intros w x w'. unfold addKiller.
  destruct (_ || _); [intros [= _ <-]; by split |].
  destruct (negb _); intros [= _ <-]; by split.
Qed.

Lemma keeps_bumpHistory (sideIdx from to depth0 : Z) :
  keeps (bumpHistory sideIdx from to depth0).
Proof. intros w x w' [= _ <-]. by split. Qed.

Ltac keeps_step :=
  match goal with
  | |- keeps (ret _) => apply keeps_ret
  | |- keeps (bind _ _) => apply keeps_bind; [| intros ?]
  | |- keeps (timeExpired _) => apply keeps_timeExpired
  | |- keeps (readClock _) => apply keeps_readClock
  | |- keeps getWorld => apply keeps_getWorld
  | |- keeps (repGet _) => apply keeps_repGet
  | |- keeps (probeM _ _) => apply keeps_probeM
  | |- keeps (storeM _ _ _ _ _) => apply keeps_storeM
  | |- keeps (addKiller _ _) => apply keeps_addKiller
  | |- keeps (bumpHistory _ _ _ _) => apply keeps_bumpHistory
  | H : forall _, _ |- keeps _ => solve [apply H]
  | |- keeps (if ?b then _ else _) => destruct b
  | |- keeps (match ?x with _ => _ end) => destruct x
  | |- keeps (let _ := _ in _) => cbv zeta
  end.

Lemma keeps_qLoopMax (self : State -> Num -> Num -> M Num) (s : State)
  (anns : list Ann) :
  (forall s' a b, keeps (self s' a b)) ->
  forall alpha beta, keeps (qLoopMax self s alpha beta anns).
Proof.
  intros Hself. induction anns as [|m rest IH]; intros alpha beta;
    cbn [qLoopMax]; repeat keeps_step.
Qed.

Lemma keeps_qLoopMin (self : State -> Num -> Num -> M Num) (s : State)
  (anns : list Ann) :
  (forall s' a b, keeps (self s' a b)) ->
  forall alpha beta, keeps (qLoopMin self s alpha beta anns).
Proof.
  intros Hself. induction anns as [|m rest IH]; intros alpha beta;
    cbn [qLoopMin]; repeat keeps_step.
Qed.

Lemma keeps_quiescence (fuel : nat) :
  forall s alpha beta, keeps (quiescence evalFn now fuel s alpha beta).
Proof.
  induction fuel as [|n IH]; intros s alpha beta; cbn [quiescence].
  - intros w x w' H. discriminate H.
  - unfold quiescence_body.
    destruct (_ || _); [apply keeps_ret |]. cbv zeta.
    destruct (standPat _ _ _ _ _) as [[[v|] a1] b1]; [apply keeps_ret |].
    apply keeps_bind; [apply keeps_timeExpired |]. intros expired.
    destruct expired; [apply keeps_ret |].
    destruct (allLegalMovesSt s (turn s)) as [moves0 s1].
    destruct (negb _ && _); [apply keeps_ret |].
    apply keeps_bind; [apply keeps_getWorld |]. intros w0.
    destruct (annotateMoves _ _ _ _ _ _ _) as [anns s2].
    destruct (Color_eqb (turn s) W);
      [by apply keeps_qLoopMax | by apply keeps_qLoopMin].
Qed.

Lemma keeps_abLoopMax (self : State -> Z -> Num -> Num -> Z -> M Num)
  (s : State) (depth0 ply : Z) (endgame : bool) (sideIdx : Z) (beta : Num)
  (scored : list Ann) :
  (forall s' d a b p, keeps (self s' d a b p)) ->
  forall idx alpha best,
    keeps (abLoopMax evalFn now self s depth0 ply endgame sideIdx beta scored
             idx alpha best).
Proof.
  intros Hself. induction scored as [|m rest IH]; intros idx alpha best;
    cbn [abLoopMax]; repeat keeps_step.
Qed.

Lemma keeps_abLoopMin (self : State -> Z -> Num -> Num -> Z -> M Num)
  (s : State) (depth0 ply : Z) (endgame : bool) (sideIdx : Z) (alpha : Num)
  (scored : list Ann) :
  (forall s' d a b p, keeps (self s' d a b p)) ->
  forall idx beta best,
    keeps (abLoopMin evalFn now self s depth0 ply endgame sideIdx alpha scored
             idx beta best).
Proof.
  intros Hself. induction scored as [|m rest IH]; intros idx beta best;
    cbn [abLoopMin]; repeat keeps_step.
Qed.

Lemma repCount_stable (w : World) (k : Z) :
  toInt32 (repCount w k) = repCount w k.
Proof.
  unfold repCount. destruct (rep w !! k); [apply toInt32_idem | reflexivity].
Qed.

Lemma keeps_alphaBeta_body
  (self : State -> Z -> Num -> Num -> Z -> M Num)
  (qs : State -> Num -> Num -> M Num)
  (s : State) (depth0 : Z) (alpha beta : Num) (ply : Z) :
  (forall s' d a b p, keeps (self s' d a b p)) ->
  (forall s' a b, keeps (qs s' a b)) ->
  keeps (alphaBeta_body evalFn now zob self qs s depth0 alpha beta ply).
Proof.
  intros Hself Hqs. unfold alphaBeta_body.
  destruct (_ || _); [apply keeps_ret |]. cbv zeta.
  intros w x w' H. unfold bind at 1, repGet at 1 in H.
  fold (repCount w (computeKey zob s)) in H.
  destruct (2 <=? repCount w (computeKey zob s)).
  { injection H as _ <-. apply same_path_refl. }
  unfold bind at 1, repSet at 1 in H.
  match type of H with
  | ?rest ?w1 = _ =>
      assert (Hends : ends (computeKey zob s) (repCount w (computeKey zob s)) rest)
  end.
  { apply ends_bind; [apply keeps_timeExpired |]. intros expired.
    destruct expired; [apply ends_leaf, Hqs |].
    destruct (depth0 =? 0); [apply ends_leaf, Hqs |].
    destruct (allLegalMovesSt s (turn s)) as [moves0 s1].
    destruct (terminalScoreGivenMoves s1 moves0 depth0);
      [apply ends_leaf, keeps_ret |].
    apply ends_bind; [repeat keeps_step |]. intros cut.
    destruct cut; [apply ends_leaf, keeps_ret |].
    apply ends_bind; [apply keeps_probeM |]. intros entry.
    destruct (ttDecide entry alpha beta) as [v | a1 b1 ttBest];
      [apply ends_leaf, keeps_ret |].
    apply ends_bind; [apply keeps_getWorld |]. intros w0.
    destruct (annotateMoves _ _ _ _ _ _ _) as [scored s2].
    apply ends_bind.
    { destruct (Color_eqb (turn s) W);
        [by apply keeps_abLoopMax | by apply keeps_abLoopMin]. }
    intros best.
    apply ends_bind; [apply keeps_storeM |]. intros _u.
    apply ends_leaf, keeps_ret. }
  destruct (Hends _ _ _ H) as (H1 & H2 & H3). cbn [deadline] in H1.
  split; [exact H1 |]. intros k.
  destruct (decide (k = computeKey zob s)) as [-> | Hk].
  - rewrite H3. apply repCount_stable.
  - rewrite (H2 k Hk). unfold repCount. cbn [rep].
    by rewrite lookup_insert_ne.
Qed.

Lemma keeps_alphaBeta (fuel : nat) :
  forall s d alpha beta ply,
    keeps (alphaBeta evalFn now zob fuel s d alpha beta ply).
Proof.
  induction fuel as [|n IH]; intros s d alpha beta ply; cbn [alphaBeta].
  - intros w x w' H. discriminate H.
  - apply keeps_alphaBeta_body; [exact IH |].
    intros s' a b. apply keeps_quiescence.
Qed.

(** X27.  The search leaves the path as it found it: when [alphaBeta]
    returns, the count [rep.get(key) | 0] of every key in the shared
    repetition map is what it was at the call, and so is the deadline;
    the visit counted on entry is taken back on every way out. *)
Theorem alphaBeta_restores_path (fuel : nat) (s : State) (d : Z)
  (alpha beta : Num) (ply : Z) (w : World) (v : Num) (w' : World) :
  alphaBeta evalFn now zob fuel s d alpha beta ply w = Some (v, w') ->
  deadline w' = deadline w /\ forall k, repCount w' k = repCount w k.
Proof. intros H. exact (keeps_alphaBeta fuel s d alpha beta ply w v w' H). Qed.

End SearchPath.

Lemma alphaBeta_restores_path_witness :
  exists v w',
    alphaBeta zeroEval stillClock sampleZobrist 3 initialState 1 NegInf PosInf 0
      freshWorld = Some (v, w')
    /\ deadline w' = deadline freshWorld
    /\ forall k, repCount w' k = repCount freshWorld k.
Proof.
  destruct (alphaBeta zeroEval stillClock sampleZobrist 3 initialState 1
              NegInf PosInf 0 freshWorld) as [[v w']|] eqn:E;
    [| vm_compute in E; discriminate E].
  exists v, w'. split; [reflexivity |].
  exact (alphaBeta_restores_path zeroEval stillClock sampleZobrist 3
           initialState 1 NegInf PosInf 0 freshWorld v w' E).
Defined.

(** ** What the root driver answers *)

Lemma In_firstn_inv {A : Type} (x : A) (n : nat) (l : list A) :
  In x (firstn n l) -> In x l.
Proof.
  revert l. induction n as [|n IH]; intros [|y l]; cbn [firstn In]; try done.
  intros [-> | Hb]; [by left | right; by apply IH].
Qed.

Section RootResult.

Variable evalFn : State -> Z.
Variable now : nat -> Z.
Variable zob : Zobrist.

Lemma rootLoop_best (fuel : nat) (s : State) (player : Color) (d : Z)
  (alphaWin betaWin : Num) (timed : bool) (ms : list Move) :
  forall (lbm : option Move) (lbs : Num) (searched : list Move) (w : World)
         (res : option Move * Num * list Move) (w' : World) (bm : Move),
  rootLoop evalFn now zob fuel s player d alphaWin betaWin timed ms lbm lbs
    searched w = Some (res, w') ->
  fst (fst res) = Some bm -> lbm = Some bm \/ In bm ms.
Proof.
  induction ms as [|[from to] rest IH];
    intros lbm lbs searched w res w' bm Hrun Hres.
  - cbn in Hrun. injection Hrun as <- <-. by left.
  - cbn [rootLoop] in Hrun. unfold bind at 1 in Hrun.
    destruct (rootGuard now timed w) as [[stop w1]|] eqn:Hg; [| done].
    destruct stop.
    + injection Hrun as <- <-. by left.
    + unfold bind at 1 in Hrun.
      destruct (alphaBeta _ _ _ fuel _ (d - 1) alphaWin betaWin 1 w1)
        as [[score0 w2]|]; [| done].
      unfold bind at 1 in Hrun.
      match type of Hrun with
      | match ?m w2 with _ => _ end = _ =>
          destruct (m w2) as [[score1 w3]|]; [| done]
      end.
      destruct (IH _ _ _ _ _ _ bm Hrun Hres) as [Hb | Hb].
      * destruct (match player with
                  | W => num_gt score1 lbs
                  | B => num_lt score1 lbs
                  end).
        -- injection Hb as <-. right. by left.
        -- by left.
      * right. by right.
Qed.

Lemma depthLoop_best (fuel : nat) (s : State) (player : Color) (timed : bool)
  (base : list Move) (depths : list Z) :
  forall (rs : RootState) (w : World) (rs' : RootState) (w' : World),
  depthLoop evalFn now zob fuel s player timed depths rs w = Some (rs', w') ->
  Permutation (r_moves rs) base ->
  In (r_bestMove rs) base ->
  In (r_bestMove rs') base.
Proof.
  induction depths as [|d0 rest IH]; intros rs w rs' w' Hrun Hperm Hbest.
  - cbn in Hrun. by injection Hrun as <- <-.
  - cbn [depthLoop] in Hrun. unfold bind at 1 in Hrun.
    destruct ((if timed then timeExpired now else ret false) w)
      as [[e0 w1]|]; [| done].
    destruct e0; [by injection Hrun as <- <- |].
    unfold bind at 1 in Hrun.
    destruct (rootIteration evalFn now zob fuel s player timed d0 rs w1)
      as [[[[lbm lbs] searched] w2]|] eqn:Hit; [| done].
    unfold bind at 1 in Hrun.
    destruct ((if timed then timeExpired now else ret false) w2)
      as [[e1 w3]|]; [| done].
    destruct e1; [by injection Hrun as <- <- |].
    destruct lbm as [bm|].
    + assert (Hbm : In bm base).
      { unfold rootIteration in Hit.
        destruct (rootLoop_best _ _ _ _ _ _ _ _ _ _ _ _ _ _ bm Hit eq_refl)
          as [Hb | Hb]; [done |].
        apply (Permutation_in _ Hperm).
        by apply In_firstn_inv in Hb. }
      destruct (num_abs_gt lbs 99000).
      * by injection Hrun as <- <-.
      * eapply IH; [exact Hrun | |]; cbn [r_moves r_bestMove]; [| done].
        by rewrite bestToFront_perm.
    + eapply IH; [exact Hrun | |]; cbn [r_moves r_bestMove]; done.
Qed.

(** X28.  What [pickMove] answers: no move exactly when the side to move
    has none; otherwise a legal move of the side to move together with a
    finite score; and the deadline of the module is put back as it was
    on entry. *)
Theorem pickMove_result (fuel : nat) (s : State) (maxDepth : Z)
  (timeMs : option Z) (bookHint : option Move) (w : World)
  (r : option (Z * Z * Num)) (log : list (Z * list Move)) (w' : World) :
  pickMove evalFn now zob fuel s maxDepth timeMs bookHint w
  = Some ((r, log), w') ->
  deadline w' = deadline w
  /\ match r with
     | None => allLegalMoves s (turn s) = []
     | Some (from, to, sc) =>
         In (from, to) (allLegalMoves s (turn s)) /\ isFinite sc = true
     end.
Proof.
  unfold pickMove. intros Hrun.
  unfold bind at 1 in Hrun. cbn [getWorld] in Hrun.
  unfold bind at 1 in Hrun.
  match type of Hrun with
  | match ?m w with _ => _ end = _ => destruct (m w) as [[[] w1]|]; [| done]
  end.
  unfold allLegalMoves.
  destruct (allLegalMovesSt s (turn s)) as [moves s1]. cbn [fst].
  destruct moves as [|mv moves].
  { unfold bind at 1 in Hrun. cbn in Hrun. injection Hrun as <- _ <-.
    split; reflexivity. }
  unfold bind at 1 in Hrun. cbn [probeM] in Hrun.
  unfold bind at 1 in Hrun. cbn [getWorld] in Hrun.
  match type of Hrun with
  | context [annotateMoves ?a ?b ?c ?d ?e ?f ?g] =>
      pose proof (annotateMoves_perm a b c d e f g) as Hperm;
      destruct (annotateMoves a b c d e f g) as [annotated s2]
  end.
  cbn [fst] in Hperm.
  destruct (map _ annotated) as [|m0 moves1] eqn:Hm1.
  { apply Permutation_nil in Hperm. discriminate Hperm. }
  unfold bind at 1 in Hrun. cbn [resetKillers] in Hrun.
  unfold bind at 1 in Hrun. cbn [newRep] in Hrun.
  unfold bind at 1 in Hrun.
  match type of Hrun with
  | match depthLoop ?a ?b ?c ?f ?s ?p ?t ?ds ?rs ?w with _ => _ end = _ =>
      destruct (depthLoop a b c f s p t ds rs w) as [[rs' w2]|] eqn:Hdl; [| done];
      pose proof (depthLoop_best f s p t (mv :: moves) ds rs w rs' w2 Hdl) as Hinv
  end.
  cbn [r_moves r_bestMove] in Hinv.
  specialize (Hinv Hperm (Permutation_in _ Hperm (or_introl eq_refl))).
  unfold bind at 1 in Hrun.
  destruct (isFinite (r_bestScore rs')) eqn:Hfin.
  - unfold bind at 1 in Hrun. cbn in Hrun. injection Hrun as <- _ <-.
    split; [reflexivity |].
    destruct (r_bestMove rs') as [a b]. cbn [fst snd].
    split; [exact Hinv | exact Hfin].
  - unfold bind at 1 in Hrun.
    destruct (quiescence _ _ fuel s2 NegInf PosInf w2) as [[q w3]|]; [| done].
    cbn in Hrun. injection Hrun as <- _ <-.
    split; [reflexivity |].
    destruct (r_bestMove rs') as [a b]. cbn [fst snd].
    split; [exact Hinv | reflexivity].
Qed.

End RootResult.

Lemma pickMove_result_witness :
  exists from to sc L w',
    pickMove zeroEval stillClock sampleZobrist 3 initialState 1 None None
      freshWorld = Some ((Some (from, to, sc), L), w')
    /\ deadline w' = deadline freshWorld
    /\ In (from, to) (allLegalMoves initialState (turn initialState))
    /\ isFinite sc = true.
Proof.
  destruct (pickMove zeroEval stillClock sampleZobrist 3 initialState 1 None
              None freshWorld) as [[[r lg] w']|] eqn:E;
    [| vm_compute in E; discriminate E].
  pose proof (pickMove_result zeroEval stillClock sampleZobrist 3
                initialState 1 None None freshWorld r lg w' E) as H.
  vm_compute in E. injection E as <- <- <-.
  eexists _, _, _, _, _. split; [reflexivity |].
  destruct H as (Hd & Hin & Hf). split; [exact Hd |]. split; [exact Hin | exact Hf].
Defined.

(** ** Position codec: beyond the positions of a game *)

(** X29.  The round trip through FEN holds beyond the positions of a
    game: for any position of 64 cells whose en-passant square, if any,
    is a square of the board other than a8, whose castling rights are
    written with K, Q, k, q, and whose clocks are in range, loading the
    text written for it gives the position back. *)
Theorem toFEN_loadFEN_any (s0 s : State) :
  length (board s) = 64%nat ->
  (forall e, ep s = Some e -> 0 < e < 64) ->
  allChars isRight (castleRight s) = true ->
  0 <= halfmove s -> 1 <= fullmove s ->
  loadFEN s0 (toFEN s) = Some s.
Proof.
  intros H1 H2 H3 H4 H5. apply loadFEN_toFEN.
  exact (conj H1 (conj H2 (conj H3 (conj H4 H5)))).
Qed.

Lemma toFEN_loadFEN_any_witness :
  loadFEN initialState (toFEN strayEp) = Some strayEp.
Proof.
  apply (toFEN_loadFEN_any initialState strayEp).
  - reflexivity.
  - intros e [= <-]. lia.
  - reflexivity.
  - simpl. lia.
  - simpl. lia.
Defined.

(** X30.  The name of a square and its index: reading the name written
    for a square of the board gives the square back, a8 included, and
    rank and file rebuild the index. *)
Theorem algebraic_round_trip (i : Z) :
  0 <= i < 64 ->
  algebraicToIndex (algebraic i) = Some i
  /\ toIndex (rankOf i) (fileOf i) = i.
Proof.
  intros Hi. split; [| apply toIndex_rank_file; lia].
  assert (Hall : forallb (fun j =>
            match algebraicToIndex (algebraic j) with
            | Some k => k =? j
            | None => false
            end) squares = true) by (vm_compute; reflexivity).
  rewrite forallb_forall in Hall. specialize (Hall i (In_squares i Hi)).
  destruct (algebraicToIndex (algebraic i)) as [k|]; [| done].
  by apply Z.eqb_eq in Hall as ->.
Qed.

Lemma algebraic_round_trip_witness :
  algebraicToIndex (algebraic 0) = Some 0 /\ toIndex (rankOf 0) (fileOf 0) = 0.
Proof. apply (algebraic_round_trip 0). lia. Defined.

(** ** No move is listed twice *)





















(** ** The passes of the root driver, from the code *)



Section RootTrace.

Variable evalFn : State -> Z.
Variable now : nat -> Z.
Variable zob : Zobrist.







End RootTrace.

(** ** Every move brings the end nearer *)


















(** ** The search returns *)















Section Returns.

Variable evalFn : State -> Z.
Variable now : nat -> Z.
Variable zob : Zobrist.
















End Returns.

(** ** What the root driver searches *)

Section RootChunk.

Variable evalFn : State -> Z.
Variable now : nat -> Z.
Variable zob : Zobrist.


End RootChunk.

